(** * The paged selection store of the PDF annotation tool and its undoable commands

    A shallow embedding of [pdf_annotation_tool/selection/manager.py]:
    the [SelectionsManager] store (an [OrderedDict] from page numbers to lists
    of selection items) and the command classes [InsertCmd], [InsertAllCmd],
    [RemoveCmd], [RemoveAllCmd], [EditCmd] and [MoveAllCmd] that mutate it.

    Selection items are mutable Python objects that the store, the commands
    and the callers share by reference; the embedding keeps them in a heap
    addressed by locations, so that a write through one reference is seen
    through all the others. *)

From stdpp Require Import base numbers list strings gmap sorting.

Local Open Scope Z_scope.

(** ** Selection data ([selection/data.py]) *)

Inductive SelectionCategory :=
  | CAPTION | TEXT | LIST_ITEM | TITLE | CONTACT | TABLE
  | IMAGE | HEADER | FOOTER | FORMULA | CONTAINER | UNKNOWN.

Record SelectionData := mkSelectionData {
  id_ : string;
  doc : string;
  page : Z;
  idx : Z;
  coords : list (Z * Z);
  text : string;
  category : SelectionCategory;
  image : string;
  parent : option string;
  children : list string;
  description : string
}.

Definition set_page (p : Z) (d : SelectionData) : SelectionData :=
  mkSelectionData (id_ d) (doc d) p (idx d) (coords d) (text d)
                  (category d) (image d) (parent d) (children d) (description d).

Definition set_idx (i : Z) (d : SelectionData) : SelectionData :=
  mkSelectionData (id_ d) (doc d) (page d) i (coords d) (text d)
                  (category d) (image d) (parent d) (children d) (description d).

Definition set_parent (p : option string) (d : SelectionData) : SelectionData :=
  mkSelectionData (id_ d) (doc d) (page d) (idx d) (coords d) (text d)
                  (category d) (image d) p (children d) (description d).

(** A selection with the dataclass defaults for the fields that play no
    role in the store ([doc], [coords], [text], [category], [image],
    [description]). *)
Definition selection (i : string) (p ix : Z) (par : option string)
    (ch : list string) : SelectionData :=
  mkSelectionData i "" p ix [] "" UNKNOWN "" par ch "".

Global Instance SelectionData_inhabited : Inhabited SelectionData :=
  populate (selection "" 0 (-1) None []).

(** ** Exceptions *)

Inductive exn := KeyError | IndexError | OverflowError.

(** ** Python lists *)

Module PyList.
Section defs.
Context {A : Type}.

(** [l[i]]: a negative index counts from the end; [None] is [IndexError]. *)
Definition index (l : list A) (i : Z) : option nat :=
  let n := Z.of_nat (length l) in
  if decide (0 ≤ i < n) then Some (Z.to_nat i)
  else if decide (- n ≤ i < 0) then Some (Z.to_nat (i + n))
  else None.

Definition getitem (l : list A) (i : Z) : option A :=
  k ← index l i; l !! k.

(** [l.pop(i)] and [l.insert(i, x)] are C functions that take their index
    as a [Py_ssize_t]: a Python integer outside [-2^63 .. 2^63 - 1] raises
    [OverflowError] before the list is looked at. A list holds fewer than
    2^63 items, so an index that addresses a position of the list is a
    [Py_ssize_t]. *)
Definition ssize_t (i : Z) : Prop := - 2 ^ 63 ≤ i < 2 ^ 63.

(** [l.pop(i)]: the list without position [i]; [IndexError] for an index
    that is a [Py_ssize_t] and addresses no item. *)
Definition pop (l : list A) (i : Z) : list A + exn :=
  match index l i with
  | Some k => inl (delete k l)
  | None => inr (if decide (ssize_t i) then IndexError else OverflowError)
  end.

(** [l.insert(i, x)] once the index is a [Py_ssize_t]: it never fails, the
    index is clamped to [0..len]. *)
Definition insert_pos (l : list A) (i : Z) : nat :=
  let n := Z.of_nat (length l) in
  if decide (i < 0) then Z.to_nat (Z.max 0 (i + n))
  else Z.to_nat (Z.min i n).

Definition insert_at (l : list A) (i : Z) (x : A) : list A :=
  let k := insert_pos l i in take k l ++ x :: drop k l.

(** [l.insert(i, x)] *)
Definition insert (l : list A) (i : Z) (x : A) : list A + exn :=
  let n := Z.of_nat (length l) in
  if decide (- n ≤ i ≤ n) then inl (insert_at l i x)
  else if decide (ssize_t i) then inl (insert_at l i x)
  else inr OverflowError.

(** [l.remove(x)]: drops the first element equal to [x]. *)
Fixpoint remove `{EqDecision A} (x : A) (l : list A) : list A :=
  match l with
  | [] => []
  | y :: l' => if decide (x = y) then l' else y :: remove x l'
  end.
End defs.
End PyList.

(** ** [collections.OrderedDict] with integer keys

    An association list in iteration order; every key occurs once. *)

Module OD.
Section defs.
Context {V : Type}.
Local Abbreviation t := (list (Z * V)).

Fixpoint get (k : Z) (d : t) : option V :=
  match d with
  | [] => None
  | (k', v) :: d' => if decide (k = k') then Some v else get k d'
  end.

Definition mem (k : Z) (d : t) : bool := bool_decide (is_Some (get k d)).

Definition keys (d : t) : list Z := d.*1.

(** [d[k] = v]: a present key keeps its place, a new one goes last. *)
Fixpoint set (k : Z) (v : V) (d : t) : t :=
  match d with
  | [] => [(k, v)]
  | (k', v') :: d' =>
      if decide (k = k') then (k, v) :: d' else (k', v') :: set k v d'
  end.

(** [del d[k]] *)
Fixpoint del (k : Z) (d : t) : t :=
  match d with
  | [] => []
  | (k', v') :: d' => if decide (k = k') then d' else (k', v') :: del k d'
  end.

(** [d.move_to_end(k)] for a key that is present. *)
Definition move_to_end (k : Z) (d : t) : t :=
  match get k d with
  | Some v => del k d ++ [(k, v)]
  | None => d
  end.
End defs.
End OD.

(** ** The store *)

(** Selection items are objects; [loc] is the identity of one. *)
Abbreviation loc := nat.

Record state := State {
  heap : list SelectionData;        (* the [data] of every item ever built *)
  model : list (Z * list loc)       (* [SelectionsManager._selections] *)
}.

Definition data (h : list SelectionData) (l : loc) : SelectionData := h !!! l.

(** [item.copy()]: a new item with a deep copy of [data]. *)
Definition copy (h : list SelectionData) (l : loc) : list SelectionData * loc :=
  (h ++ [data h l], length h).

(** What an observer reads from the store: per page, in order, the data of
    its items. *)
Definition view (st : state) : list (Z * list SelectionData) :=
  (λ kv : Z * list loc, (kv.1, data (heap st) <$> kv.2)) <$> model st.

(** All the items of the store, page after page. *)
Definition items (d : list (Z * list loc)) : list loc := concat d.*2.

Definition ids (st : state) : list string :=
  (λ l, id_ (data (heap st) l)) <$> items (model st).

(** ** [SelectionsManager]: static helpers *)

(** Write [f] into the [data] of item [l]. *)
Definition write (f : SelectionData → SelectionData) (l : loc)
    (h : list SelectionData) : list SelectionData := alter f l h.

Fixpoint find_in_page (h : list SelectionData) (selection_id : string)
    (page_items : list loc) (idx : nat) : option (nat * loc) :=
  match page_items with
  | [] => None
  | sel :: rest =>
      if decide (id_ (data h sel) = selection_id) then Some (idx, sel)
      else find_in_page h selection_id rest (S idx)
  end.

(** [find_selection_by_id]: the page, position and item of the first item
    with that id, pages taken in dictionary order. *)
Fixpoint find_selection_by_id (h : list SelectionData) (d : list (Z * list loc))
    (selection_id : string) : option (Z * nat * loc) :=
  match d with
  | [] => None
  | (page_number, page_items) :: d' =>
      match find_in_page h selection_id page_items 0 with
      | Some (i, sel) => Some (page_number, i, sel)
      | None => find_selection_by_id h d' selection_id
      end
  end.

(** [_update_indexes]: both fields are overwritten when they differ. *)
Definition _update_indexes (h : list SelectionData) (sel : loc)
    (supposed_page_number : Z) (supposed_index : nat) : list SelectionData :=
  write (λ d, set_idx (Z.of_nat supposed_index) (set_page supposed_page_number d))
        sel h.

Fixpoint update_from (h : list SelectionData) (page_number : Z) (cnt : nat)
    (sels : list loc) : list SelectionData :=
  match sels with
  | [] => h
  | sel :: rest =>
      update_from (_update_indexes h sel page_number cnt) page_number (S cnt) rest
  end.

(** [_update_page_indexes]: [selections.get(page_number, [])] is walked with
    a counter from 0. *)
Definition _update_page_indexes (st : state) (page_number : Z) : state :=
  State (update_from (heap st) page_number 0
           (default [] (OD.get page_number (model st))))
        (model st).

Definition _update_all_indexes (st : state) : state :=
  foldl _update_page_indexes st (OD.keys (model st)).

(** ** [InsertCmd] *)

(** [insert_ordered(dictionary, value, key, idx)]; [None] for an argument
    left at its default. Returns the new state and [(key, index)]; the
    [OverflowError] of [list.insert] leaves the function before the list is
    changed and the page re-indexed. *)
Definition insert_ordered (st : state) (value : loc) (o_key o_idx : option Z)
    : state * (Z * Z + exn) :=
  let key := default (page (data (heap st) value)) o_key in
  let idx := default (idx (data (heap st) value)) o_idx in
  match OD.get key (model st) with
  | None =>
      let d1 := OD.set key [value] (model st) in
      let keys_to_move := filter (λ k, key < k) (OD.keys d1) in
      let d2 := foldl (λ d k, OD.move_to_end k d) d1 keys_to_move in
      (State (heap st) d2, inl (key, 0))
  | Some page_items =>
      let result :=
        if decide (idx < 0)
        then inl (page_items ++ [value],
                  Z.of_nat (length (page_items ++ [value])) - 1)
        else match PyList.insert page_items idx value with
             | inl page_items' => inl (page_items', idx)
             | inr e => inr e
             end in
      match result with
      | inl (page_items', index) =>
          (_update_page_indexes
             (State (heap st) (OD.set key page_items' (model st))) key,
           inl (key, index))
      | inr e => (st, inr e)
      end
  end.

(** [undo_insert_ordered(dictionary, key, idx)]: a missing key raises
    [KeyError]; an [IndexError] from [pop] is caught and printed, the store
    being left as it is; an [OverflowError] from [pop] is not caught. *)
Definition undo_insert_ordered (st : state) (key i : Z) : state * option exn :=
  match OD.get key (model st) with
  | None => (st, Some KeyError)
  | Some page_items =>
      match PyList.pop page_items i with
      | inr IndexError => (st, None)
      | inr e => (st, Some e)
      | inl page_items' =>
          let d := if decide (page_items' = [])
                   then OD.del key (model st)
                   else OD.set key page_items' (model st) in
          (_update_page_indexes (State (heap st) d) key, None)
      end
  end.

Module InsertCmd.
(** [redo] stores the returned [(key, index)] in the command. *)
Definition redo (st : state) (value : loc) : state * (Z * Z + exn) :=
  insert_ordered st value None None.
Definition undo (st : state) (key_index : Z * Z) : state * option exn :=
  undo_insert_ordered st key_index.1 key_index.2.
End InsertCmd.

(** ** [InsertAllCmd] *)

Module InsertAllCmd.
(** The loop of [redo]; the accumulator holds [self.keys] and
    [self.indexes] as one list of pairs. An exception leaves the loop, with
    the values before it inserted. *)
Fixpoint redo_loop (st : state) (values : list loc) (append : bool)
    (acc : list (Z * Z)) : state * (list (Z * Z) + exn) :=
  match values with
  | [] => (st, inl acc)
  | v :: rest =>
      let idx := if append then -1 else idx (data (heap st) v) in
      match insert_ordered st v None (Some idx) with
      | (st', inl ki) => redo_loop st' rest append (acc ++ [ki])
      | (st', inr e) => (st', inr e)
      end
  end.

Definition redo (st : state) (values : list loc) (append : bool)
    : state * (list (Z * Z) + exn) :=
  redo_loop st values append [].

(** The loop of [undo] visits the recorded positions last to first; an
    exception leaves the loop. *)
Fixpoint undo_loop (st : state) (rev_keys_indexes : list (Z * Z))
    : state * option exn :=
  match rev_keys_indexes with
  | [] => (st, None)
  | (k, i) :: rest =>
      match undo_insert_ordered st k i with
      | (st', None) => undo_loop st' rest
      | (st', Some e) => (st', Some e)
      end
  end.

Definition undo (st : state) (keys_indexes : list (Z * Z))
    : state * option exn :=
  undo_loop st (reverse keys_indexes).
End InsertAllCmd.

(** ** [RemoveCmd] *)

Module RemoveCmd.
(** First loop of [remove_and_relink_children]: every listed child that is
    found takes [parent_id] as its parent; a child that is not found is
    skipped. *)
Fixpoint relink (h : list SelectionData) (d : list (Z * list loc))
    (parent_id : option string) (child_ids : list string)
    (relinked : list loc) : list SelectionData * list loc :=
  match child_ids with
  | [] => (h, relinked)
  | child_id :: rest =>
      match find_selection_by_id h d child_id with
      | None => relink h d parent_id rest relinked
      | Some (_, _, child) =>
          relink (write (set_parent parent_id) child h) d parent_id rest
                 (relinked ++ [child])
      end
  end.

(** Second loop, over the snapshot [list(dictionary.items())]: the first
    item of a page with the id is removed; the scan stops there unless the
    page became empty and was deleted, in which case [edited_page] is
    still [None] and the next pages are scanned too. *)
Fixpoint remove_scan (h : list SelectionData) (sid : string)
    (pages d : list (Z * list loc)) : list (Z * list loc) * option Z :=
  match pages with
  | [] => (d, None)
  | (page, page_items) :: rest =>
      match find_in_page h sid page_items 0 with
      | Some (_, sel) =>
          let page_items' := PyList.remove sel page_items in
          if decide (page_items' = [])
          then remove_scan h sid rest (OD.del page d)
          else (OD.set page page_items' d, Some page)
      | None => remove_scan h sid rest d
      end
  end.

Definition remove_and_relink_children (st : state) (selection : loc)
    : state * list loc :=
  let sel := data (heap st) selection in
  let '(h, relinked) :=
    relink (heap st) (model st) (parent sel) (children sel) [] in
  let '(d, edited_page) := remove_scan h (id_ sel) (model st) (model st) in
  let st' := State h d in
  (match edited_page with
   | Some p => _update_page_indexes st' p
   | None => st'
   end, relinked).

(** [redo] stores the returned children in [self.node_children]. *)
Definition redo (st : state) (value : loc) : state * list loc :=
  remove_and_relink_children st value.

(** [undo]: an exception of [insert_ordered] leaves it before the loop
    over the children. *)
Definition undo (st : state) (value : loc) (node_children : list loc)
    : state * option exn :=
  match insert_ordered st value None None with
  | (st', inl _) =>
      let i := id_ (data (heap st') value) in
      (State (foldl (λ h child, write (set_parent (Some i)) child h)
                    (heap st') node_children)
             (model st'), None)
  | (st', inr e) => (st', Some e)
  end.
End RemoveCmd.

(** ** [RemoveAllCmd] *)

Module RemoveAllCmd.
(** Inner loop over the snapshot [list(page_items)] of one page. [inl] is
    the [return] taken as soon as the set of ids is empty, [inr] the
    normal end of the loop. *)
Fixpoint page_loop (h : list SelectionData) (page : Z) (snapshot : list loc)
    (page_items : list loc) (d : list (Z * list loc))
    (to_remove_id_list : gset string) (removed : bool)
    : list (Z * list loc) + (list (Z * list loc) * gset string * bool) :=
  match snapshot with
  | [] => inr (d, to_remove_id_list, removed)
  | sel :: rest =>
      let i := id_ (data h sel) in
      if decide (i ∈ to_remove_id_list) then
        let page_items' := PyList.remove sel page_items in
        let d' := if decide (page_items' = [])
                  then OD.del page d else OD.set page page_items' d in
        let to_remove' := to_remove_id_list ∖ {[ i ]} in
        if decide (size to_remove' ≤ 0)%nat then inl d'
        else page_loop h page rest page_items' d' to_remove' true
      else page_loop h page rest page_items d to_remove_id_list removed
  end.

(** Outer loop over the snapshot [list(dictionary.items())]. *)
Fixpoint pages_loop (st : state) (pages : list (Z * list loc))
    (to_remove_id_list : gset string) : state :=
  match pages with
  | [] => st
  | (page, page_items) :: rest =>
      match page_loop (heap st) page page_items page_items (model st)
                      to_remove_id_list false with
      | inl d' => State (heap st) d'
      | inr (d', to_remove', removed) =>
          let st' := State (heap st) d' in
          pages_loop (if removed then _update_page_indexes st' page else st')
                     rest to_remove'
      end
  end.

Definition remove_selections (st : state) (selections : list loc) : state :=
  pages_loop st (model st)
    (list_to_set ((λ s, id_ (data (heap st) s)) <$> selections)).

Definition redo (st : state) (values : list loc) : state :=
  remove_selections st values.

(** The loop of [undo]; an exception leaves it. *)
Fixpoint undo (st : state) (values : list loc) : state * option exn :=
  match values with
  | [] => (st, None)
  | value :: rest =>
      match insert_ordered st value None None with
      | (st', inl _) => undo st' rest
      | (st', inr e) => (st', Some e)
      end
  end.
End RemoveAllCmd.

(** ** [EditCmd] *)

Module EditCmd.
(** [edit_selection]: the whole body is under [try: ... except:], so
    whatever is raised is printed and the call returns with the store as
    it is then: as it was for a failing lookup or [pop]; without the popped
    item, and not re-indexed, for the [OverflowError] of
    [insert_ordered]. *)
Definition edit_selection (st : state) (old_key old_idx : Z)
    (selection : loc) (replace : bool) : state :=
  let popped :=
    if replace then
      page_items ← OD.get old_key (model st);
      match PyList.pop page_items old_idx with
      | inl page_items' =>
          Some (if decide (Z.of_nat (length page_items') ≤ 0)
                then OD.del old_key (model st)
                else OD.set old_key page_items' (model st))
      | inr _ => None
      end
    else Some (model st) in
  match popped with
  | None => st
  | Some d =>
      match insert_ordered (State (heap st) d) selection None None with
      | (st1, inl _) =>
          let target_key := page (data (heap st1) selection) in
          let st2 := _update_page_indexes st1 target_key in
          if decide (target_key ≠ old_key)
          then _update_page_indexes st2 old_key else st2
      | (st1, inr _) => st1
      end
  end.

(** [redo]: [self.model[key][idx].copy()] is outside any [try]; a missing
    key or an index out of range raises. The copy is returned as
    [self.old_value]. *)
Definition redo (st : state) (editing_key editing_idx : Z) (value : loc)
    : state * (loc + exn) :=
  match OD.get editing_key (model st) with
  | None => (st, inr KeyError)
  | Some page_items =>
      match PyList.getitem page_items editing_idx with
      | None => (st, inr IndexError)
      | Some old =>
          let '(h, old_value) := copy (heap st) old in
          (edit_selection (State h (model st)) editing_key editing_idx value true,
           inl old_value)
      end
  end.

Definition undo (st : state) (value old_value : loc) : state :=
  edit_selection st (page (data (heap st) value)) (idx (data (heap st) value))
                 old_value true.
End EditCmd.

(** ** [MoveAllCmd] *)

Record EditingData := mkEditingData {
  editing_page : Z;
  editing_idx : Z;
  new_selection : loc
}.

Module MoveAllCmd.
(** [_compute_inverse], run by the constructor: for every edit whose
    position resolves, a copy of the item found there, stamped with that
    position, to be put back where the replacement is declared to go. *)
Fixpoint _compute_inverse (h : list SelectionData) (d : list (Z * list loc))
    (editing : list EditingData) (inverse : list EditingData)
    : list SelectionData * list EditingData :=
  match editing with
  | [] => (h, inverse)
  | e :: rest =>
      let arr := default [] (OD.get (editing_page e) d) in
      if decide (is_Some (OD.get (editing_page e) d)
                 ∧ 0 ≤ editing_idx e < Z.of_nat (length arr)) then
        let old_item := default 0%nat (arr !! Z.to_nat (editing_idx e)) in
        let '(h1, old_copy) := copy h old_item in
        let h2 := write (λ x, set_idx (editing_idx e) (set_page (editing_page e) x))
                        old_copy h1 in
        _compute_inverse h2 d rest
          (inverse ++ [mkEditingData (page (data h (new_selection e)))
                                     (idx (data h (new_selection e)))
                                     old_copy])
      else _compute_inverse h d rest inverse
  end.

(** [arr.pop(idx)] at the first item with the id; [None] when no item of
    the page has it. *)
Fixpoint pop_by_id (h : list SelectionData) (sid : string) (arr : list loc)
    : option (list loc) :=
  match arr with
  | [] => None
  | item :: rest =>
      if decide (id_ (data h item) = sid) then Some rest
      else (item ::.) <$> pop_by_id h sid rest
  end.

(** [edit_pages.add(page)] *)
Definition add_page (p : Z) (edit_pages : list Z) : list Z :=
  if decide (p ∈ edit_pages) then edit_pages else edit_pages ++ [p].

(** First loop of [_apply_edit]: removals, by id, on the page named by each
    edit. An emptied list stays in the dictionary under its key. *)
Fixpoint removals (h : list SelectionData) (editing : list EditingData)
    (d : list (Z * list loc)) (edit_pages : list Z)
    : list (Z * list loc) * list Z :=
  match editing with
  | [] => (d, edit_pages)
  | e :: rest =>
      let arr := default [] (OD.get (editing_page e) d) in
      match pop_by_id h (id_ (data h (new_selection e))) arr with
      | Some arr' =>
          removals h rest (OD.set (editing_page e) arr' d)
                   (add_page (editing_page e) edit_pages)
      | None => removals h rest d edit_pages
      end
  end.

(** Second loop: insertions at the page and index carried by each
    replacement, an index outside [0..len] meaning the end. The index
    given to [arr.insert] is a position of the list: no [OverflowError]. *)
Fixpoint insertions (h : list SelectionData) (editing : list EditingData)
    (d : list (Z * list loc)) (edit_pages : list Z)
    : list (Z * list loc) * list Z :=
  match editing with
  | [] => (d, edit_pages)
  | e :: rest =>
      let tgt_page := page (data h (new_selection e)) in
      let tgt_idx := idx (data h (new_selection e)) in
      let d1 := if OD.mem tgt_page d then d else OD.set tgt_page [] d in
      let arr := default [] (OD.get tgt_page d1) in
      let tgt_idx' :=
        if decide (tgt_idx < 0 ∨ tgt_idx > Z.of_nat (length arr))
        then Z.of_nat (length arr) else tgt_idx in
      insertions h rest
        (OD.set tgt_page (PyList.insert_at arr tgt_idx' (new_selection e)) d1)
        (add_page tgt_page edit_pages)
  end.

(** [_apply_edit]. The touched pages are collected in a Python [set],
    whose iteration order the language leaves open; here they are
    re-indexed in the order they were first added. Re-indexing two pages
    commutes unless one item sits on both. *)
Definition _apply_edit (st : state) (editing : list EditingData) : state :=
  let '(d1, pages1) := removals (heap st) editing (model st) [] in
  let '(d2, pages2) := insertions (heap st) editing d1 pages1 in
  foldl _update_page_indexes (State (heap st) d2) pages2.

(** The constructor returns the state (copies were allocated) and
    [self.inverse]. *)
Definition init (st : state) (editing : list EditingData)
    : state * list EditingData :=
  let '(h, inverse) := _compute_inverse (heap st) (model st) editing [] in
  (State h (model st), inverse).

Definition redo (st : state) (editing : list EditingData) : state :=
  _apply_edit st editing.

Definition undo (st : state) (inverse : list EditingData) : state :=
  _apply_edit st inverse.
End MoveAllCmd.

(** ** The commands as pushed on the undo stack

    [QUndoStack.push] runs [redo] of the command it is given;
    [QUndoStack.undo] runs [undo] of the command on top. A command object
    keeps what its [redo] recorded for its [undo]. *)

Inductive Cmd :=
  | Insert (value : loc)
  | InsertBatch (values : list loc) (append : bool)
  | Remove (value : loc)
  | RemoveBatch (values : list loc)
  | Edit (editing_key editing_idx : Z) (value : loc)
  | MoveBatch (editing : list EditingData).

Inductive Pushed :=
  | PInsert (key_index : Z * Z)
  | PInsertBatch (keys_indexes : list (Z * Z))
  | PRemove (value : loc) (node_children : list loc)
  | PRemoveBatch (values : list loc)
  | PEdit (value old_value : loc)
  | PMoveBatch (inverse : list EditingData).

(** Construction of the command followed by its first [redo]. *)
Definition push (st : state) (c : Cmd) : state * (Pushed + exn) :=
  match c with
  | Insert value =>
      match InsertCmd.redo st value with
      | (st', inl ki) => (st', inl (PInsert ki))
      | (st', inr e) => (st', inr e)
      end
  | InsertBatch values append =>
      match InsertAllCmd.redo st values append with
      | (st', inl kis) => (st', inl (PInsertBatch kis))
      | (st', inr e) => (st', inr e)
      end
  | Remove value =>
      let '(st', ch) := RemoveCmd.redo st value in (st', inl (PRemove value ch))
  | RemoveBatch values => (RemoveAllCmd.redo st values, inl (PRemoveBatch values))
  | Edit k i value =>
      match EditCmd.redo st k i value with
      | (st', inl old_value) => (st', inl (PEdit value old_value))
      | (st', inr e) => (st', inr e)
      end
  | MoveBatch editing =>
      let '(st', inverse) := MoveAllCmd.init st editing in
      (MoveAllCmd.redo st' editing, inl (PMoveBatch inverse))
  end.

Definition undo (st : state) (p : Pushed) : state * option exn :=
  match p with
  | PInsert ki => InsertCmd.undo st ki
  | PInsertBatch kis => InsertAllCmd.undo st kis
  | PRemove value ch => RemoveCmd.undo st value ch
  | PRemoveBatch values => RemoveAllCmd.undo st values
  | PEdit value old_value => (EditCmd.undo st value old_value, None)
  | PMoveBatch inverse => (MoveAllCmd.undo st inverse, None)
  end.

(** A session: commands are pushed and undone, last pushed first. A command
    whose [redo] raised is not on the stack. *)
Inductive op := Do (c : Cmd) | Undo.

Definition step (s : state * list Pushed) (o : op) : state * list Pushed :=
  match o, s with
  | Do c, (st, stack) =>
      match push st c with
      | (st', inl p) => (st', p :: stack)
      | (st', inr _) => (st', stack)
      end
  | Undo, (st, []) => (st, [])
  | Undo, (st, p :: stack) => ((undo st p).1, stack)
  end.

(** The items exist before they enter the store: a session starts from a
    heap of items and an empty dictionary. *)
Definition run (h : list SelectionData) (ops : list op) : state :=
  (foldl step (State h [], []) ops).1.

(** ** The invariants of the store *)

(** The items of page [p], counted from [cnt], carry their page and their
    position. *)
Fixpoint indexed_from (h : list SelectionData) (p : Z) (cnt : nat)
    (sels : list loc) : Prop :=
  match sels with
  | [] => True
  | sel :: rest =>
      page (data h sel) = p ∧ idx (data h sel) = Z.of_nat cnt
      ∧ indexed_from h p (S cnt) rest
  end.

Global Instance indexed_from_dec h p cnt sels : Decision (indexed_from h p cnt sels).
Proof. revert cnt; induction sels; simpl; intros; apply _. Defined.

Definition indexed_page (h : list SelectionData) (kv : Z * list loc) : Prop :=
  indexed_from h kv.1 0 kv.2.

(** I2, contiguity. *)
Definition contiguity (st : state) : Prop :=
  Forall (indexed_page (heap st)) (model st).

(** I1, uniqueness of ids. *)
Definition uniqueness (st : state) : Prop := NoDup (ids st).

(** I4: a key of the dictionary holds at least one item. *)
Definition page_key_presence (st : state) : Prop :=
  Forall (λ kv : Z * list loc, kv.2 ≠ []) (model st).

(** Every item of the store is an allocated object. *)
Definition allocated (st : state) : Prop :=
  Forall (λ l : loc, (l < length (heap st))%nat) (items (model st)).

(** ** Example stores *)

(** A and B drawn on page 3, the replacement of B that a drag of B to a new
    page 1 builds, and a record R declared on page 2. *)
Definition drag_to_new_page : list SelectionData :=
  [selection "A" 3 0 None []; selection "B" 3 1 None [];
   selection "B" 1 0 None []; selection "R" 2 0 None []].


(** A root A on page 1 with its children B, on page 1, and C, on page 2. *)
Definition family : state :=
  State [selection "A" 1 0 None ["B"; "C"]; selection "B" 1 1 (Some "A") [];
         selection "C" 2 0 (Some "A") []]
        [(1, [0%nat; 1%nat]); (2, [2%nat])].

(** X and Z on page 1, Y on page 2, and the replacements of X and Y that a
    swap of X and Y builds. *)
Definition swap_store : state :=
  State [selection "X" 1 0 None []; selection "Y" 2 0 None [];
         selection "X" 2 0 None []; selection "Y" 1 0 None [];
         selection "Z" 1 1 None []]
        [(1, [0%nat; 4%nat]); (2, [1%nat])].

Definition swap_edits : list EditingData :=
  [mkEditingData 1 0 2%nat; mkEditingData 2 0 3%nat].

(** X, Z and W declared on page 1 and Y on page 2, and the replacements
    of X and Y that a swap of X and Y builds. *)
Definition stale_swap : list SelectionData :=
  [selection "X" 1 0 None []; selection "Z" 1 1 None [];
   selection "W" 1 2 None []; selection "Y" 2 0 None [];
   selection "X" 2 0 None []; selection "Y" 1 0 None []].

(** The store after drawing X, Z, W and Y and removing Z with a
    [RemoveAllCmd], which re-indexes nothing: W is second on page 1 and
    carries the index 2. *)
Definition stale_swap_store : state :=
  run stale_swap
      [Do (Insert 0%nat); Do (Insert 1%nat); Do (Insert 2%nat);
       Do (Insert 3%nat); Do (RemoveBatch [1%nat])].

(** Z, a root A and its children B and C, all declared on page 1. *)
Definition stale_family : list SelectionData :=
  [selection "Z" 1 0 None []; selection "A" 1 1 None ["B"; "C"];
   selection "B" 1 2 (Some "A") []; selection "C" 1 3 (Some "A") []].

(** The store after drawing the four and removing Z with a
    [RemoveAllCmd]: A is first on page 1 and carries the index 1. *)
Definition stale_family_store : state :=
  run stale_family
      [Do (Insert 0%nat); Do (Insert 1%nat); Do (Insert 2%nat);
       Do (Insert 3%nat); Do (RemoveBatch [0%nat])].

(** ** Failure of a single-item command, in the words of the specification

    The specification calls [NotFound] the failure of a lookup by id or by
    position, and says that single-item commands propagate it. [spec_fails]
    is that condition: an [Edit] whose (page, index) does not resolve, a
    [Remove] of a record whose id is not in the store. An [Insert] looks
    nothing up. *)

Definition single_item (c : Cmd) : Prop :=
  match c with
  | Insert _ | Remove _ | Edit _ _ _ => True
  | InsertBatch _ _ | RemoveBatch _ | MoveBatch _ => False
  end.

Definition resolves (st : state) (k i : Z) : Prop :=
  ∃ page_items,
    OD.get k (model st) = Some page_items
    ∧ is_Some (PyList.getitem page_items i).

Definition spec_fails (st : state) (c : Cmd) : Prop :=
  match c with
  | Edit k i _ => ¬ resolves st k i
  | Remove value =>
      find_selection_by_id (heap st) (model st) (id_ (data (heap st) value))
      = None
  | _ => False
  end.

(** B alone on page 1, with A as declared parent; A, which lists B as its
    child, is not in the store. *)
Definition orphan_store : state :=
  State [selection "A" 1 0 None ["B"]; selection "B" 1 0 (Some "A") []]
        [(1, [1%nat])].

(** ** The path from the root to a selection

    [while] loops take a bound on the number of iterations; [None] says that
    the loop has not ended within the bound. *)

(** [build_id_lookup]: a later item overwrites an earlier one with its id. *)
Definition build_id_lookup (h : list SelectionData) (d : list (Z * list loc))
    : gmap string SelectionData :=
  foldl (λ id_lookup l, <[id_ (data h l) := data h l]> id_lookup) ∅ (items d).

(** [parent if parent in id_lookup else None] *)
Definition next_current (id_lookup : gmap string SelectionData)
    (current : string) : option string :=
  p ← parent (id_lookup !!! current);
  if decide (is_Some (id_lookup !! p)) then Some p else None.

(** The loop [while current is not None]; [current] is a key of
    [id_lookup] at every iteration. *)
Fixpoint climb (fuel : nat) (id_lookup : gmap string SelectionData)
    (current : option string) (path_ids : list string) : option (list string) :=
  match current with
  | None => Some path_ids
  | Some cur =>
      match fuel with
      | O => None
      | S fuel' =>
          climb fuel' id_lookup (next_current id_lookup cur) (path_ids ++ [cur])
      end
  end.

Definition join (sep : string) (l : list string) : string :=
  match l with
  | [] => ""
  | s :: l' => foldl (λ acc s', acc +:+ sep +:+ s') s l'
  end.

Definition get_selection_path_str (fuel : nat) (st : state)
    (selection_id : string) (include_last : bool) : option string :=
  let id_lookup := build_id_lookup (heap st) (model st) in
  if decide (is_Some (id_lookup !! selection_id)) then
    path_ids ← climb fuel id_lookup (Some selection_id) [];
    let path_ids := reverse path_ids in
    (* [last = path_ids.pop()] *)
    let last := default "" (List.last (Some <$> path_ids) None) in
    let path_ids := take (length path_ids - 1) path_ids in
    let path_text := join " > " ((λ n, text (id_lookup !!! n)) <$> path_ids) in
    Some (if include_last
          then path_text +:+ " → " +:+ text (id_lookup !!! last)
          else path_text)
  else Some "".

(** The ids that [climb] visits from [current], at most [n] of them. *)
Fixpoint chain (n : nat) (id_lookup : gmap string SelectionData)
    (current : string) : list string :=
  match n with
  | O => []
  | S n' =>
      current :: match next_current id_lookup current with
                 | Some p => chain n' id_lookup p
                 | None => []
                 end
  end.

(** A and B on page 1, each the parent of the other. *)
Definition cyclic_store : state :=
  State [selection "A" 1 0 (Some "B") []; selection "B" 1 1 (Some "A") []]
        [(1, [0%nat; 1%nat])].

(** ** What a command inserts *)

Definition ids_of (h : list SelectionData) (l : list loc) : list string :=
  (λ x, id_ (data h x)) <$> l.

(** The items a command is built from. *)
Definition cmd_items (c : Cmd) : list loc :=
  match c with
  | Insert value | Remove value | Edit _ _ value => [value]
  | InsertBatch values _ | RemoveBatch values => values
  | MoveBatch editing => new_selection <$> editing
  end.

(** The ids of the records a command inserts are pairwise distinct and are
    not carried by a record that the command leaves in the store: by none
    for the insertions, by none but the replaced one for [EditCmd], only by
    records of the page named by the edit for [MoveAllCmd], which removes
    by id on that page. *)
Definition inserts_fresh_ids (st : state) (c : Cmd) : Prop :=
  match c with
  | Insert value => id_ (data (heap st) value) ∉ ids st
  | InsertBatch values _ =>
      NoDup (ids_of (heap st) values)
      ∧ ∀ v, v ∈ values → id_ (data (heap st) v) ∉ ids st
  | Remove _ | RemoveBatch _ => True
  | Edit k i value =>
      ∀ page_items pos,
        OD.get k (model st) = Some page_items →
        PyList.index page_items i = Some pos →
        id_ (data (heap st) value)
        ∉ ids (State (heap st) (OD.set k (delete pos page_items) (model st)))
  | MoveBatch editing =>
      NoDup (ids_of (heap st) (new_selection <$> editing))
      ∧ ∀ e x, e ∈ editing → x ∈ items (model st) →
               id_ (data (heap st) x) = id_ (data (heap st) (new_selection e)) →
               x ∈ default [] (OD.get (editing_page e) (model st))
  end.

(** Ann alone on page 1, and a second record with her id. *)
Definition duplicate_id : state :=
  State [selection "Ann" 1 0 None []; selection "Ann" 1 1 None []]
        [(1, [0%nat])].

(** Two selections drawn on page 1, at positions 0 and 1. *)
Definition two_on_page_1 : list SelectionData :=
  [selection "A" 1 0 None []; selection "B" 1 1 None []].

(** X alone on page 1, Y alone on page 2, and the replacement of X that a
    drag of X to the end of page 2 builds. *)
Definition drag_to_page_2 : state :=
  State [selection "X" 1 0 None []; selection "Y" 2 0 None [];
         selection "X" 2 1 None []]
        [(1, [0%nat]); (2, [1%nat])].

(** ** Auxiliary notions for the proofs *)

(** The list and the returned index for a present key, when
    [insert_ordered] returns. *)
Definition inserted (page_items : list loc) (i : Z) (value : loc)
    : list loc * Z :=
  if decide (i < 0)
  then (page_items ++ [value], Z.of_nat (length (page_items ++ [value])) - 1)
  else (PyList.insert_at page_items i value, i).

(** [insert_ordered] returns for that index on a present key: the index
    is negative, a position of the list, or a [Py_ssize_t]. *)
Definition insertable (page_items : list loc) (i : Z) : Prop :=
  i ≤ Z.of_nat (length page_items) ∨ i < 2 ^ 63.

(** The heap [h'] has the items of [h], with the ids they had. *)
Definition stable (h h' : list SelectionData) : Prop :=
  (length h ≤ length h')%nat
  ∧ ∀ x, (x < length h)%nat → id_ (data h' x) = id_ (data h x).

(** Pages still to be scanned are as the dictionary has them. *)
Definition pages_of (pages d : list (Z * list loc)) : Prop :=
  NoDup (OD.keys pages)
  ∧ ∀ k sels, (k, sels) ∈ pages → OD.get k d = Some sels.

(** ** Sessions without moves *)

(** The command that goes through [MoveAllCmd._apply_edit], and what it
    leaves on the stack. *)
Definition is_move (c : Cmd) : Prop :=
  match c with MoveBatch _ => True | _ => False end.

Definition is_move_pushed (p : Pushed) : Prop :=
  match p with PMoveBatch _ => True | _ => False end.

Definition pushes_no_move (ops : list op) : Prop :=
  Forall (λ o, match o with Do c => ¬ is_move c | Undo => True end) ops.

(** ** [SelectionsManager]: moving and replacing one selection *)

(** [move_section(source_page, source_idx, target_page, target_idx)];
    [None] for a target left at its default. The lookup
    [self._selections[source_page][source_idx]] is outside any [try]: a
    missing key or an index out of range raises before anything is
    copied or pushed. *)
Definition move_section (st : state) (source_page source_idx : Z)
    (o_target_page o_target_idx : option Z) : state * (Pushed + exn) :=
  let target_page := default source_page o_target_page in
  let target_idx :=
    match o_target_idx with
    | Some target_idx => target_idx
    | None =>
        match OD.get target_page (model st) with
        | Some page_items => Z.of_nat (length page_items)
        | None => 0
        end
    end in
  match OD.get source_page (model st) with
  | None => (st, inr KeyError)
  | Some page_items =>
      match PyList.getitem page_items source_idx with
      | None => (st, inr IndexError)
      | Some old =>
          let '(h, new_selection) := copy (heap st) old in
          let h := write (λ x, set_idx target_idx (set_page target_page x))
                         new_selection h in
          push (State h (model st)) (Edit source_page source_idx new_selection)
      end
  end.

(** [replace_selection(new_selection)]: the position to edit is read from
    the replacement. *)
Definition replace_selection (st : state) (new_selection : loc)
    : state * (Pushed + exn) :=
  let source_page := page (data (heap st) new_selection) in
  let source_idx := idx (data (heap st) new_selection) in
  push st (Edit source_page source_idx new_selection).

(** The item that [find_selection_by_id] returns for an id, if any. *)
Definition found (h : list SelectionData) (d : list (Z * list loc))
    (selection_id : string) : option loc :=
  (λ r : Z * nat * loc, r.2) <$> find_selection_by_id h d selection_id.

(** A report on page 1 with a chapter below it, and a section of the
    chapter on page 2. *)
Definition chapters : state :=
  State [mkSelectionData "r" "" 1 0 [] "Report" TITLE "" None ["c"] "";
         mkSelectionData "c" "" 1 1 [] "Chapter" TITLE "" (Some "r") ["s"] "";
         mkSelectionData "s" "" 2 0 [] "Section" TEXT "" (Some "c") [] ""]
        [(1, [0%nat; 1%nat]); (2, [2%nat])].

(** What is left of a dictionary when the items whose id is in
    [removed_ids] are taken out of every list, and the keys of the lists
    that become empty with them. *)
Definition without (h : list SelectionData) (removed_ids : gset string)
    (d : list (Z * list loc)) : list (Z * list loc) :=
  filter (λ kv, kv.2 ≠ [])
    ((λ kv : Z * list loc,
        (kv.1, filter (λ x, id_ (data h x) ∉ removed_ids) kv.2)) <$> d).

(** ** Categories ([selection/data.py])

    The members of the enumeration [SelectionCategory] in the order of
    their definition, which is the order of iteration, with the [name] and
    the [unstructured_names] of their [CategoryData]. *)

Definition categories : list SelectionCategory :=
  [CAPTION; TEXT; LIST_ITEM; TITLE; CONTACT; TABLE;
   IMAGE; HEADER; FOOTER; FORMULA; CONTAINER; UNKNOWN].

Definition name (c : SelectionCategory) : string :=
  match c with
  | CAPTION => "caption" | TEXT => "text" | LIST_ITEM => "listItem"
  | TITLE => "title" | CONTACT => "contact" | TABLE => "table"
  | IMAGE => "image" | HEADER => "header" | FOOTER => "footer"
  | FORMULA => "formula" | CONTAINER => "container" | UNKNOWN => "unknown"
  end.

Definition unstructured_names (c : SelectionCategory) : list string :=
  match c with
  | CAPTION => ["FigureCaption"] | TEXT => ["NarrativeText"]
  | LIST_ITEM => ["ListItem"] | TITLE => ["Title"] | CONTACT => ["Address"]
  | TABLE => ["Table"] | IMAGE => ["Image"] | HEADER => ["Header"]
  | FOOTER => ["Footer"] | FORMULA => ["Formula"]
  | CONTAINER => ["CompositeElement"]
  | UNKNOWN => ["PageBreak"; "UncategorizedText"]
  end.

(** The loop [for _, c in enumerate(SelectionCategory): if ...: return c],
    with [UNKNOWN] returned after the loop. *)
Fixpoint first_category (P : SelectionCategory → bool)
    (cs : list SelectionCategory) : SelectionCategory :=
  match cs with
  | [] => UNKNOWN
  | c :: cs' => if P c then c else first_category P cs'
  end.

Definition category_form_string (category_str : string) : SelectionCategory :=
  first_category (λ c, bool_decide (category_str = name c)) categories.

Definition category_from_unstructured (category_unstructured : string)
    : SelectionCategory :=
  first_category
    (λ c, bool_decide (category_unstructured ∈ unstructured_names c))
    categories.

(** * Properties *)

(** ** Lemmas on the ordered dictionary *)

Module ODFacts.
Section facts.
Context {V : Type}.
Implicit Types (d : list (Z * V)) (k : Z) (v : V).

Lemma get_None k d : OD.get k d = None ↔ k ∉ OD.keys d.
Proof.
  induction d as [|[k' v'] d IH]; simpl.
  - split; [intros _; apply not_elem_of_nil|done].
  - rewrite not_elem_of_cons. case_decide; [|by rewrite IH; tauto].
    split; [done|]. intros [? _]. done.
Qed.

Lemma get_Some_elem k v d : OD.get k d = Some v → (k, v) ∈ d.
Proof.
  induction d as [|[k' v'] d IH]; simpl; [done|].
  case_decide; [intros [= ->]; subst; left|right; auto].
Qed.

Lemma get_app_fresh k d1 d2 :
  k ∉ OD.keys d1 → OD.get k (d1 ++ d2) = OD.get k d2.
Proof.
  induction d1 as [|[k' v'] d1 IH]; simpl; [done|].
  rewrite not_elem_of_cons. intros [? ?]. case_decide; [done|auto].
Qed.

Lemma get_cons_eq k v d : OD.get k ((k, v) :: d) = Some v.
Proof. simpl. by rewrite decide_True. Qed.

Lemma get_middle k v d1 d2 :
  k ∉ OD.keys d1 → OD.get k (d1 ++ (k, v) :: d2) = Some v.
Proof. intros. by rewrite get_app_fresh, get_cons_eq. Qed.

Lemma set_fresh k v d : k ∉ OD.keys d → OD.set k v d = d ++ [(k, v)].
Proof.
  induction d as [|[k' v'] d IH]; simpl; [done|].
  rewrite not_elem_of_cons. intros [? ?]. rewrite decide_False by done.
  by rewrite IH.
Qed.

Lemma set_middle k v v' d1 d2 :
  k ∉ OD.keys d1 → OD.set k v' (d1 ++ (k, v) :: d2) = d1 ++ (k, v') :: d2.
Proof.
  induction d1 as [|[k1 v1] d1 IH]; simpl.
  - intros _. by rewrite decide_True.
  - rewrite not_elem_of_cons. intros [? ?]. rewrite decide_False by done.
    by rewrite IH.
Qed.

Lemma del_middle k v d1 d2 :
  k ∉ OD.keys d1 → OD.del k (d1 ++ (k, v) :: d2) = d1 ++ d2.
Proof.
  induction d1 as [|[k1 v1] d1 IH]; simpl.
  - intros _. by rewrite decide_True.
  - rewrite not_elem_of_cons. intros [? ?]. rewrite decide_False by done.
    by rewrite IH.
Qed.

Lemma del_fresh k d : k ∉ OD.keys d → OD.del k d = d.
Proof.
  induction d as [|[k' v'] d IH]; simpl; [done|].
  rewrite not_elem_of_cons. intros [? ?]. rewrite decide_False by done.
  by rewrite IH.
Qed.

Lemma keys_app d1 d2 : OD.keys (d1 ++ d2) = OD.keys d1 ++ OD.keys d2.
Proof. apply fmap_app. Qed.

(** A present key splits the dictionary around its first, and only,
    occurrence. *)
Lemma get_Some_split k v d :
  OD.get k d = Some v →
  ∃ d1 d2, d = d1 ++ (k, v) :: d2 ∧ k ∉ OD.keys d1.
Proof.
  induction d as [|[k' v'] d IH]; simpl; [done|].
  case_decide as Hk.
  - intros [= ->]. subst. exists [], d. split; [done|apply not_elem_of_nil].
  - intros (d1 & d2 & -> & Hd1)%IH. exists ((k', v') :: d1), d2.
    split; [done|]. simpl. rewrite not_elem_of_cons. done.
Qed.

Lemma move_to_end_middle k v d1 d2 :
  k ∉ OD.keys d1 →
  OD.move_to_end k (d1 ++ (k, v) :: d2) = d1 ++ d2 ++ [(k, v)].
Proof.
  intros. unfold OD.move_to_end.
  by rewrite get_middle, del_middle, <-app_assoc.
Qed.

Lemma get_set_eq k v d : OD.get k (OD.set k v d) = Some v.
Proof.
  induction d as [|[k' v'] d IH]; simpl.
  - by rewrite decide_True.
  - case_decide; simpl; [by rewrite decide_True|by rewrite decide_False].
Qed.

Lemma get_set_ne k k' v d : k ≠ k' → OD.get k (OD.set k' v d) = OD.get k d.
Proof.
  intros Hne. induction d as [|[k1 v1] d IH]; simpl.
  - by rewrite decide_False.
  - destruct (decide (k' = k1)) as [->|]; simpl.
    + by rewrite !decide_False.
    + by rewrite IH.
Qed.

Lemma get_del_ne k k' d : k ≠ k' → OD.get k (OD.del k' d) = OD.get k d.
Proof.
  intros Hne. induction d as [|[k1 v1] d IH]; simpl; [done|].
  destruct (decide (k' = k1)) as [->|]; simpl.
  - by rewrite decide_False.
  - by rewrite IH.
Qed.

Lemma get_del_eq k d : NoDup (OD.keys d) → OD.get k (OD.del k d) = None.
Proof.
  induction d as [|[k1 v1] d IH]; simpl; [done|].
  intros [Hk1 Hnd]%NoDup_cons. destruct (decide (k = k1)) as [->|]; simpl.
  - by apply get_None.
  - rewrite decide_False by done. auto.
Qed.

Lemma set_get_id k v d : OD.get k d = Some v → OD.set k v d = d.
Proof.
  induction d as [|[k1 v1] d IH]; simpl; [done|].
  destruct (decide (k = k1)) as [->|]; [by intros [= ->]|].
  intros. by rewrite IH.
Qed.

Lemma set_set_eq k v v' d : OD.set k v (OD.set k v' d) = OD.set k v d.
Proof.
  induction d as [|[k1 v1] d IH]; simpl.
  - by rewrite decide_True.
  - destruct (decide (k = k1)) as [->|]; simpl.
    + by rewrite decide_True.
    + rewrite decide_False by done. by rewrite IH.
Qed.

Lemma keys_set_present k v d :
  is_Some (OD.get k d) → OD.keys (OD.set k v d) = OD.keys d.
Proof.
  induction d as [|[k1 v1] d IH]; simpl; [by intros [? ?]|].
  destruct (decide (k = k1)) as [->|]; simpl; [done|].
  intros. by rewrite IH.
Qed.

Lemma keys_del_sublist k d : OD.keys (OD.del k d) `sublist_of` OD.keys d.
Proof.
  induction d as [|[k1 v1] d IH]; simpl; [done|].
  case_decide; [by apply sublist_cons|by apply sublist_skip].
Qed.

Lemma NoDup_keys_set k v d : NoDup (OD.keys d) → NoDup (OD.keys (OD.set k v d)).
Proof.
  intros Hnd. destruct (OD.get k d) as [v'|] eqn:Hg.
  - by rewrite keys_set_present.
  - apply get_None in Hg. rewrite set_fresh, keys_app by done. simpl.
    apply NoDup_app. split_and!; [done| |apply NoDup_singleton].
    by intros x Hx ->%list_elem_of_singleton.
Qed.

Lemma NoDup_keys_del k d : NoDup (OD.keys d) → NoDup (OD.keys (OD.del k d)).
Proof. intros Hnd. apply (sublist_NoDup _ _ Hnd), keys_del_sublist. Qed.

Lemma get_elem k v d : NoDup (OD.keys d) → (k, v) ∈ d → OD.get k d = Some v.
Proof.
  induction d as [|[k1 v1] d IH]; simpl; [by intros _ ?%elem_of_nil|].
  intros [Hk1 Hnd]%NoDup_cons [[= -> ->]|Hin]%elem_of_cons.
  - by rewrite decide_True.
  - rewrite decide_False; [auto|].
    intros ->. apply Hk1. apply list_elem_of_fmap. by exists (k1, v).
Qed.


Lemma set_comm k k' v v' d :
  k ≠ k' → is_Some (OD.get k d) → is_Some (OD.get k' d) →
  OD.set k v (OD.set k' v' d) = OD.set k' v' (OD.set k v d).
Proof.
  intros Hne. induction d as [|[k1 v1] d IH]; simpl; [by intros [? ?]|].
  destruct (decide (k = k1)) as [->|Hk], (decide (k' = k1)) as [->|Hk'];
    try done; simpl.
  - intros _ _. by rewrite decide_True, decide_False.
  - intros _ _. by rewrite decide_False, decide_True.
  - intros ? ?. rewrite !decide_False by done. by rewrite IH.
Qed.

Lemma del_set_ne k k' v d :
  k ≠ k' → OD.del k (OD.set k' v d) = OD.set k' v (OD.del k d).
Proof.
  intros Hne. induction d as [|[k1 v1] d IH]; simpl.
  - by rewrite decide_False.
  - destruct (decide (k' = k1)) as [->|Hk']; simpl.
    + rewrite !decide_False by done. simpl. by rewrite decide_True.
    + destruct (decide (k = k1)) as [->|Hk]; [done|]. simpl.
      rewrite decide_False by done. by rewrite IH.
Qed.

Lemma mem_true k d : is_Some (OD.get k d) → OD.mem k d = true.
Proof. intros. unfold OD.mem. by apply bool_decide_eq_true. Qed.

Lemma perm_move_last {A} (a : A) (pre rest post : list A) :
  pre ++ a :: rest ++ post ≡ₚ pre ++ rest ++ post ++ [a].
Proof.
  apply Permutation_app_head. rewrite app_assoc.
  by rewrite <-Permutation_cons_append.
Qed.

(** Moving to the end, in dictionary order, the keys that satisfy [P]
    is a stable partition. *)
Lemma foldl_move_to_end_filter (P : Z → Prop) `{!∀ k, Decision (P k)}
    rest pre post :
  NoDup (OD.keys (pre ++ rest ++ post)) →
  foldl (λ d k, OD.move_to_end k d) (pre ++ rest ++ post)
        (filter P (OD.keys rest))
  = pre ++ filter (λ kv, ¬ P kv.1) rest ++ post ++ filter (λ kv, P kv.1) rest.
Proof.
  revert pre post. induction rest as [|[a x] rest IH]; intros pre post Hnd.
  - simpl. by rewrite app_nil_r.
  - simpl OD.keys. rewrite filter_cons. simpl. destruct (decide (P a)) as [Ha|Ha].
    + simpl. rewrite move_to_end_middle.
      2:{ rewrite keys_app, NoDup_app in Hnd. destruct Hnd as (_ & Hnd & _).
          intros Hin. apply (Hnd _ Hin). simpl. left. }
      rewrite <-app_assoc.
      rewrite (IH pre (post ++ [(a, x)])).
      2:{ unfold OD.keys in *. by rewrite <-perm_move_last. }
      rewrite !filter_cons. simpl.
      destruct (decide (¬ P a)); [done|]. destruct (decide (P a)); [|done].
      by rewrite <-!app_assoc.
    + rewrite (cons_middle (a, x) pre), (app_assoc pre).
      rewrite (IH (pre ++ [(a, x)]) post).
      2:{ by rewrite <-app_assoc. }
      rewrite !filter_cons. simpl.
      destruct (decide (¬ P a)); [|done]. destruct (decide (P a)); [done|].
      by rewrite <-!app_assoc.
Qed.
End facts.
End ODFacts.

(** ** Lemmas on lists *)

Lemma list_filter_ext_in {A} (P Q : A → Prop) `{!∀ x, Decision (P x)}
    `{!∀ x, Decision (Q x)} (l : list A) :
  (∀ x, x ∈ l → P x ↔ Q x) → filter P l = filter Q l.
Proof.
  induction l as [|x l IH]; intros HPQ; [done|].
  rewrite !filter_cons.
  rewrite IH by (intros y Hy; apply HPQ; by right).
  destruct (HPQ x) as [H1 H2]; [left|].
  destruct (decide (P x)), (decide (Q x)); tauto || done.
Qed.

Lemma StronglySorted_lt_NoDup (l : list Z) : StronglySorted Z.lt l → NoDup l.
Proof.
  induction 1 as [|x l _ IH Hx]; constructor; [|done].
  intros Hin. rewrite Forall_forall in Hx. specialize (Hx _ Hin). lia.
Qed.

Lemma Forall_filter_of {A} (P Q : A → Prop) `{!∀ x, Decision (P x)} (l : list A) :
  Forall Q l → Forall Q (filter P l).
Proof.
  rewrite !Forall_forall. intros HQ x [_ Hx]%list_elem_of_filter. by apply HQ.
Qed.

Lemma StronglySorted_filter {A} (R : relation A) (P : A → Prop)
    `{!∀ x, Decision (P x)} (l : list A) :
  StronglySorted R l → StronglySorted R (filter P l).
Proof.
  induction 1 as [|x l _ IH Hx]; [constructor|].
  rewrite filter_cons. case_decide; [|done].
  constructor; [done|]. by apply Forall_filter_of.
Qed.

Lemma keys_filter_below {B} (k : Z) (d : list (Z * B)) :
  (filter (λ kv, kv.1 < k) d).*1 = filter (λ x, x < k) d.*1.
Proof.
  induction d as [|[a b] d IH]; [done|].
  rewrite fmap_cons, !filter_cons. simpl. rewrite <-IH. by case_decide.
Qed.

Lemma keys_filter_above {B} (k : Z) (d : list (Z * B)) :
  (filter (λ kv, k < kv.1) d).*1 = filter (λ x, k < x) d.*1.
Proof.
  induction d as [|[a b] d IH]; [done|].
  rewrite fmap_cons, !filter_cons. simpl. rewrite <-IH. by case_decide.
Qed.

Lemma StronglySorted_lt_splice (k : Z) (l : list Z) :
  StronglySorted Z.lt l → k ∉ l →
  StronglySorted Z.lt (filter (λ x, x < k) l ++ k :: filter (λ x, k < x) l).
Proof.
  intros Hs Hk. apply StronglySorted_app. split_and!.
  - intros x1 x2 [Hx1 _]%list_elem_of_filter Hx2.
    apply elem_of_cons in Hx2 as [->|[Hx2 _]%list_elem_of_filter]; lia.
  - by apply StronglySorted_filter.
  - constructor; [by apply StronglySorted_filter|].
    apply Forall_forall. by intros x [? _]%list_elem_of_filter.
Qed.

(** ** Lemmas on the heap and on re-indexing *)

Section heap_facts.
Implicit Types (h : list SelectionData) (l sel : loc) (sels : list loc).

Lemma data_write_eq f l h :
  (l < length h)%nat → data (write f l h) l = f (data h l).
Proof.
  intros Hl. unfold data, write.
  apply list_lookup_total_correct. rewrite list_lookup_alter_eq.
  destruct (lookup_lt_is_Some_2 h l Hl) as [x Hx].
  by rewrite Hx, (list_lookup_total_correct _ _ _ Hx).
Qed.

Lemma data_write_ne f l l' h : l ≠ l' → data (write f l h) l' = data h l'.
Proof. intros. unfold data, write. by apply list_lookup_total_alter_ne. Qed.

Lemma data_write_unallocated f l l' h :
  (length h ≤ l)%nat → data (write f l h) l' = data h l'.
Proof.
  intros Hl. unfold data, write. f_equal.
  apply list_eq. intros j. rewrite list_lookup_alter.
  case_decide; [|done]. subst. by rewrite lookup_ge_None_2.
Qed.

Lemma length_write f l h : length (write f l h) = length h.
Proof. apply length_alter. Qed.

(** A write that does not change the data of the item leaves the heap as
    it is. *)
Lemma write_id f l h : f (data h l) = data h l → write f l h = h.
Proof.
  intros Hf. unfold write. apply list_eq. intros j.
  rewrite list_lookup_alter. case_decide; [|done]. subst.
  destruct (h !! j) as [x|] eqn:Hx; [|done]. simpl. f_equal.
  unfold data in Hf. by rewrite (list_lookup_total_correct _ _ _ Hx) in Hf.
Qed.

Lemma update_from_length h p cnt sels :
  length (update_from h p cnt sels) = length h.
Proof.
  revert h cnt. induction sels as [|sel sels IH]; intros h cnt; [done|].
  simpl. rewrite IH. apply length_write.
Qed.

Lemma update_from_other h p cnt sels l :
  l ∉ sels → data (update_from h p cnt sels) l = data h l.
Proof.
  revert h cnt. induction sels as [|sel sels IH]; intros h cnt Hl; [done|].
  apply not_elem_of_cons in Hl as [Hne Hl]. simpl.
  rewrite IH by done. unfold _update_indexes. by rewrite data_write_ne.
Qed.

(** Re-indexing a page that is already indexed changes nothing. *)
Lemma update_from_indexed_id h p cnt sels :
  indexed_from h p cnt sels → update_from h p cnt sels = h.
Proof.
  revert h cnt. induction sels as [|sel sels IH]; intros h cnt; [done|].
  simpl. intros (Hp & Hi & Hrest).
  unfold _update_indexes. rewrite write_id; [by apply IH|].
  destruct (data h sel); simpl in *. by subst.
Qed.

Lemma indexed_from_app h p cnt sels1 sels2 :
  indexed_from h p cnt (sels1 ++ sels2)
  ↔ indexed_from h p cnt sels1
    ∧ indexed_from h p (cnt + length sels1)%nat sels2.
Proof.
  revert cnt. induction sels1 as [|sel sels1 IH]; intros cnt; simpl.
  - rewrite Nat.add_0_r. tauto.
  - rewrite IH. replace (S cnt + length sels1)%nat with (cnt + S (length sels1))%nat by lia.
    tauto.
Qed.

Lemma indexed_from_lookup h p cnt sels i sel :
  indexed_from h p cnt sels → sels !! i = Some sel →
  page (data h sel) = p ∧ idx (data h sel) = Z.of_nat (cnt + i).
Proof.
  revert cnt i. induction sels as [|x sels IH]; intros cnt i; [done|].
  simpl. intros (Hp & Hi & Hrest). destruct i as [|i]; simpl.
  - intros [= ->]. by rewrite Nat.add_0_r.
  - intros Hl. destruct (IH _ _ Hrest Hl) as [? ?]. split; [done|].
    replace (cnt + S i)%nat with (S cnt + i)%nat by lia. done.
Qed.

(** The data of an item outside the heap is the default one: it sits on no
    indexed page. *)
Lemma indexed_from_allocated h p cnt sels :
  indexed_from h p cnt sels → Forall (λ l, (l < length h)%nat) sels.
Proof.
  revert cnt. induction sels as [|x sels IH]; intros cnt; [constructor|].
  simpl. intros (Hp & Hi & Hrest). constructor; [|by eapply IH].
  destruct (decide (x < length h)%nat); [done|].
  unfold data in Hi. rewrite list_lookup_total_alt, lookup_ge_None_2 in Hi by lia.
  simpl in Hi. lia.
Qed.

Lemma indexed_from_NoDup h p cnt sels : indexed_from h p cnt sels → NoDup sels.
Proof.
  intros Hix. apply NoDup_alt. intros i j x Hi Hj.
  destruct (indexed_from_lookup _ _ _ _ _ _ Hix Hi) as [_ H1].
  destruct (indexed_from_lookup _ _ _ _ _ _ Hix Hj) as [_ H2]. lia.
Qed.

(** The heap only grows by copies: older items keep their data. *)
Lemma data_app_l h h' l : (l < length h)%nat → data (h ++ h') l = data h l.
Proof. intros. unfold data. by apply lookup_total_app_l. Qed.

Lemma data_app_new h d : data (h ++ [d]) (length h) = d.
Proof.
  unfold data. apply list_lookup_total_correct.
  by rewrite list_lookup_middle.
Qed.

Lemma indexed_from_app_heap h h' p cnt sels :
  indexed_from h p cnt sels → indexed_from (h ++ h') p cnt sels.
Proof.
  intros Hix. pose proof (indexed_from_allocated _ _ _ _ Hix) as Hal.
  revert cnt Hix Hal. induction sels as [|x sels IH]; intros cnt; [done|].
  simpl. intros (Hp & Hi & Hrest) [Hx Hal]%Forall_cons.
  rewrite data_app_l by done. auto.
Qed.
End heap_facts.

(** ** Sorted insertion of a new page key *)

Section new_key.
Implicit Types (st : state) (value : loc).

(** What the branch of [insert_ordered] for an absent key does to any
    dictionary: the keys not above the new one keep their order, then the
    new key, then the keys above it in their order. *)
Lemma insert_ordered_new_key st value o_key o_idx :
  let key := default (page (data (heap st) value)) o_key in
  NoDup (OD.keys (model st)) →
  OD.get key (model st) = None →
  insert_ordered st value o_key o_idx
  = (State (heap st)
       (filter (λ kv, kv.1 < key) (model st) ++
        (key, [value]) :: filter (λ kv, key < kv.1) (model st)),
     inl (key, 0)).
Proof.
  intros key Hnd Hget. unfold insert_ordered. fold key. rewrite Hget.
  apply ODFacts.get_None in Hget.
  rewrite ODFacts.set_fresh by done. do 2 f_equal.
  pose proof (ODFacts.foldl_move_to_end_filter (λ k, key < k)
                (model st ++ [(key, [value])]) [] []) as Hf.
  rewrite app_nil_r in Hf. simpl in Hf. rewrite Hf.
  2:{ rewrite ODFacts.keys_app. simpl. apply NoDup_app. split_and!; [done| |].
      - intros x Hx ->%list_elem_of_singleton. done.
      - apply NoDup_singleton. }
  rewrite !filter_app, !filter_cons, !filter_nil. simpl.
  destruct (decide (¬ key < key)); [|lia]. destruct (decide (key < key)); [lia|].
  rewrite app_nil_r, <-app_assoc. simpl. f_equal.
  apply list_filter_ext_in. intros [k v] Hin. simpl.
  assert (k ≠ key); [|lia].
  intros ->. apply Hget. apply list_elem_of_fmap. by exists (key, v).
Qed.

(** C10. On a store whose page keys ascend strictly, inserting a record
    whose page has no key yet puts the new key between the smaller and
    the greater ones, the page holding the record alone; the keys ascend
    strictly afterwards. *)
Theorem insert_ordered_new_key_sorted st value o_idx :
  StronglySorted Z.lt (OD.keys (model st)) →
  OD.get (page (data (heap st) value)) (model st) = None →
  let key := page (data (heap st) value) in
  let st' := (insert_ordered st value None o_idx).1 in
  model st' = filter (λ kv, kv.1 < key) (model st) ++
              (key, [value]) :: filter (λ kv, key < kv.1) (model st)
  ∧ StronglySorted Z.lt (OD.keys (model st')).
Proof.
  intros Hs Hget key st'. subst st'.
  rewrite (insert_ordered_new_key st value None o_idx)
    by (by try apply StronglySorted_lt_NoDup).
  simpl. fold key. split; [done|].
  unfold OD.keys. rewrite fmap_app, fmap_cons. simpl.
  rewrite keys_filter_below, keys_filter_above.
  apply StronglySorted_lt_splice; [done|].
  by apply ODFacts.get_None.
Qed.

Lemma insert_ordered_new_key_sorted_witness :
  let st := State [selection "N" 2 7 None []; selection "A" 1 0 None [];
                   selection "B" 3 0 None []]
                  [(1, [1%nat]); (3, [2%nat])] in
  model (insert_ordered st 0%nat None None).1
  = [(1, [1%nat]); (2, [0%nat]); (3, [2%nat])]
  ∧ StronglySorted Z.lt (OD.keys (model (insert_ordered st 0%nat None None).1)).
Proof.
  intros st.
  destruct (insert_ordered_new_key_sorted st 0%nat None) as [H1 H2].
  - repeat constructor; lia.
  - reflexivity.
  - split; [exact H1|exact H2].
Defined.
End new_key.

(** ** Contiguity *)

Section contiguity_examples.

(** The first item of a page keeps the [idx] it came with, here the
    default -1 of the dataclass: the branch of [insert_ordered] that
    creates the key returns without re-indexing. *)
Lemma insert_ordered_new_key_keeps_idx :
  view (run [selection "C" 1 (-1) None []] [Do (Insert 0%nat)])
  = [(1, [selection "C" 1 (-1) None []])].
Proof. reflexivity. Qed.

(** C1. Contiguity does not survive every session. After
    [add_selection(A)], [add_selection(B)] and [remove_selection_set([A])]
    page 1 holds B alone, still with [idx = 1]: [remove_selections]
    returns as soon as its set of ids is empty, before the page is
    re-indexed. And after the one [add_selection] of a record built with
    the default [idx = -1] on a page without key, the page holds it with
    [idx = -1]. *)
Theorem remove_selections_leaves_stale_idx :
  let st := run two_on_page_1
              [Do (Insert 0%nat); Do (Insert 1%nat); Do (RemoveBatch [0%nat])] in
  let st' := run [selection "C" 1 (-1) None []] [Do (Insert 0%nat)] in
  view st = [(1, [selection "B" 1 1 None []])] ∧ ¬ contiguity st
  ∧ view st' = [(1, [selection "C" 1 (-1) None []])] ∧ ¬ contiguity st'.
Proof.
  vm_compute. split_and!; try reflexivity.
  - intros H. apply Forall_cons in H as [(_ & H & _) _]. discriminate.
  - intros H. apply Forall_cons in H as [(_ & H & _) _]. discriminate.
Qed.
End contiguity_examples.

(** ** Page key presence *)

Section page_key_examples.

(** C6. A [MoveAllCmd] that moves the only item of page 1 to page 2 leaves
    key 1 in the dictionary with an empty list: [_apply_edit] pops without
    deleting emptied keys. *)
Theorem apply_edit_keeps_emptied_page :
  let st := (push drag_to_page_2 (MoveBatch [mkEditingData 1 0 2%nat])).1 in
  page_key_presence drag_to_page_2
  ∧ model st = [(1, []); (2, [1%nat; 2%nat])]
  ∧ ¬ page_key_presence st.
Proof.
  vm_compute. split; [|split; [reflexivity|]].
  - repeat constructor; discriminate.
  - intros H. apply Forall_cons in H as [H _]. by apply H.
Qed.
End page_key_examples.

(** ** [insert_ordered] and [undo_insert_ordered] on a present key *)

Section present_key.
Implicit Types (st : state) (h : list SelectionData) (value : loc).

Lemma update_page_indexes_middle h d1 d2 key page_items :
  key ∉ OD.keys d1 →
  _update_page_indexes (State h (d1 ++ (key, page_items) :: d2)) key
  = State (update_from h key 0 page_items) (d1 ++ (key, page_items) :: d2).
Proof.
  intros Hk. unfold _update_page_indexes. simpl.
  by rewrite ODFacts.get_middle.
Qed.

Lemma update_page_indexes_absent h d key :
  OD.get key d = None → _update_page_indexes (State h d) key = State h d.
Proof. intros Hk. unfold _update_page_indexes. simpl. by rewrite Hk. Qed.

(** [list.insert] raises for an index that [insertable] excludes, and for
    no other. *)
Lemma insert_insertable (l : list loc) (i : Z) x :
  0 ≤ i → insertable l i → PyList.insert l i x = inl (PyList.insert_at l i x).
Proof.
  intros Hi Hl. unfold PyList.insert.
  destruct (decide (- Z.of_nat (length l) ≤ i ≤ Z.of_nat (length l)));
    [done|].
  rewrite decide_True; [done|].
  unfold insertable in Hl. unfold PyList.ssize_t. lia.
Qed.

Lemma insert_overflow (l : list loc) (i : Z) x :
  ¬ insertable l i → PyList.insert l i x = inr OverflowError.
Proof.
  intros Hl. unfold insertable in Hl. unfold PyList.insert.
  rewrite decide_False by lia. rewrite decide_False; [done|].
  unfold PyList.ssize_t. lia.
Qed.

Lemma insertable_negative (l : list loc) (i : Z) : i < 0 → insertable l i.
Proof. intros Hi. right. lia. Qed.

Lemma insertable_position (l : list loc) (i : Z) :
  i ≤ Z.of_nat (length l) → insertable l i.
Proof. intros Hi. by left. Qed.

(** An index below 2^63 is one that [list.insert] takes, whatever the
    list. *)
Lemma insertable_ssize (l : list loc) (i : Z) : i < 2 ^ 63 → insertable l i.
Proof. intros Hi. by right. Qed.

Global Instance insertable_dec l i : Decision (insertable l i).
Proof. unfold insertable. apply _. Defined.

Lemma insert_ordered_middle h d1 d2 value o_key o_idx page_items :
  let key := default (page (data h value)) o_key in
  let i := default (idx (data h value)) o_idx in
  key ∉ OD.keys d1 →
  insertable page_items i →
  insert_ordered (State h (d1 ++ (key, page_items) :: d2)) value o_key o_idx
  = (State (update_from h key 0 (inserted page_items i value).1)
           (d1 ++ (key, (inserted page_items i value).1) :: d2),
     inl (key, (inserted page_items i value).2)).
Proof.
  intros key i Hk Hi. unfold insert_ordered. cbn [heap model]. fold key i.
  rewrite ODFacts.get_middle by done. unfold inserted.
  destruct (decide (i < 0)); cbn [fst snd].
  - by rewrite ODFacts.set_middle, update_page_indexes_middle.
  - rewrite insert_insertable by (done || lia).
    by rewrite ODFacts.set_middle, update_page_indexes_middle.
Qed.

(** On a present key [insert_ordered] returns for an [insertable] index,
    and raises, with the store as it was, for another. *)
Lemma insert_ordered_present st value o_key o_idx page_items :
  let key := default (page (data (heap st) value)) o_key in
  let i := default (idx (data (heap st) value)) o_idx in
  OD.get key (model st) = Some page_items →
  insert_ordered st value o_key o_idx
  = if decide (insertable page_items i)
    then (_update_page_indexes
            (State (heap st)
               (OD.set key (inserted page_items i value).1 (model st))) key,
          inl (key, (inserted page_items i value).2))
    else (st, inr OverflowError).
Proof.
  intros key i Hget. unfold insert_ordered. fold key i. rewrite Hget.
  unfold inserted. destruct (decide (insertable page_items i)) as [Hi|Hi].
  - destruct (decide (i < 0)); [done|].
    by rewrite insert_insertable by (done || lia).
  - rewrite decide_False
      by (intros Hneg; apply Hi; by apply insertable_negative).
    by rewrite insert_overflow.
Qed.

Lemma insert_ordered_present_ok st value o_key o_idx page_items :
  let key := default (page (data (heap st) value)) o_key in
  let i := default (idx (data (heap st) value)) o_idx in
  OD.get key (model st) = Some page_items →
  insertable page_items i →
  insert_ordered st value o_key o_idx
  = (_update_page_indexes
       (State (heap st)
          (OD.set key (inserted page_items i value).1 (model st))) key,
     inl (key, (inserted page_items i value).2)).
Proof.
  intros key i Hget Hi.
  rewrite (insert_ordered_present st value o_key o_idx page_items Hget).
  by rewrite decide_True.
Qed.

Lemma insert_ordered_returned st value o_key o_idx page_items st' ki :
  let key := default (page (data (heap st) value)) o_key in
  let i := default (idx (data (heap st) value)) o_idx in
  OD.get key (model st) = Some page_items →
  insert_ordered st value o_key o_idx = (st', inl ki) →
  insertable page_items i
  ∧ st' = _update_page_indexes
            (State (heap st)
               (OD.set key (inserted page_items i value).1 (model st))) key
  ∧ ki = (key, (inserted page_items i value).2).
Proof.
  intros key i Hget.
  rewrite (insert_ordered_present st value o_key o_idx page_items Hget).
  fold key i. destruct (decide (insertable page_items i)); [|done].
  by intros [= <- <-].
Qed.

(** When [insert_ordered] raises, the store is as it was and the error is
    the [OverflowError] of [list.insert]: the key is present and the index
    is neither a position of its list nor a [Py_ssize_t]. *)
Lemma insert_ordered_raises st value o_key o_idx st' e :
  insert_ordered st value o_key o_idx = (st', inr e) →
  st' = st ∧ e = OverflowError
  ∧ ∃ page_items,
      OD.get (default (page (data (heap st) value)) o_key) (model st)
      = Some page_items
      ∧ ¬ insertable page_items (default (idx (data (heap st) value)) o_idx).
Proof.
  destruct (OD.get (default (page (data (heap st) value)) o_key) (model st))
    as [page_items|] eqn:Hget.
  - rewrite (insert_ordered_present st value o_key o_idx page_items Hget).
    destruct (decide _) as [|Hi]; [done|]. intros [= <- <-].
    split_and!; [done|done|]. by exists page_items.
  - unfold insert_ordered. by rewrite Hget.
Qed.

(** [insert_ordered] returns when the index is one that [list.insert]
    takes. *)
Lemma insert_ordered_returns st value o_key o_idx :
  (∀ page_items,
     OD.get (default (page (data (heap st) value)) o_key) (model st)
     = Some page_items →
     insertable page_items (default (idx (data (heap st) value)) o_idx)) →
  ∃ st' ki, insert_ordered st value o_key o_idx = (st', inl ki).
Proof.
  intros Hi.
  destruct (insert_ordered st value o_key o_idx) as [st' [ki|e]] eqn:Hio;
    [by eauto|].
  apply insert_ordered_raises in Hio as (_ & _ & page_items & Hget & Hno).
  destruct Hno. by apply Hi.
Qed.

Lemma undo_insert_ordered_middle h d1 d2 key page_items i k :
  NoDup (OD.keys (d1 ++ (key, page_items) :: d2)) →
  PyList.index page_items i = Some k →
  undo_insert_ordered (State h (d1 ++ (key, page_items) :: d2)) key i
  = if decide (delete k page_items = [])
    then (State h (d1 ++ d2), None)
    else (State (update_from h key 0 (delete k page_items))
                (d1 ++ (key, delete k page_items) :: d2), None).
Proof.
  intros Hnd Hi.
  assert ((key ∉ OD.keys d1) ∧ (key ∉ OD.keys d2)) as [Hk1 Hk2].
  { rewrite ODFacts.keys_app in Hnd. simpl in Hnd.
    apply NoDup_app in Hnd as (_ & Hd & [? _]%NoDup_cons).
    split; [|done]. intros Hin. apply (Hd _ Hin). left. }
  unfold undo_insert_ordered. cbn [heap model].
  rewrite ODFacts.get_middle by done.
  unfold PyList.pop. rewrite Hi. cbv beta iota.
  destruct (decide (delete k page_items = [])).
  - rewrite ODFacts.del_middle by done.
    rewrite update_page_indexes_absent; [done|].
    apply ODFacts.get_None. rewrite ODFacts.keys_app.
    by intros [?|?]%elem_of_app.
  - by rewrite ODFacts.set_middle, update_page_indexes_middle.
Qed.

Lemma undo_insert_ordered_out_of_range h d1 d2 key page_items i :
  key ∉ OD.keys d1 →
  PyList.index page_items i = None →
  PyList.ssize_t i →
  undo_insert_ordered (State h (d1 ++ (key, page_items) :: d2)) key i
  = (State h (d1 ++ (key, page_items) :: d2), None).
Proof.
  intros Hk Hi Hfit. unfold undo_insert_ordered. cbn [heap model].
  rewrite ODFacts.get_middle by done. unfold PyList.pop. rewrite Hi.
  by rewrite decide_True.
Qed.
End present_key.

(** ** Batch insertion in append mode *)

Section insert_batch.
Implicit Types (st : state) (x y : loc).

Lemma page_allocated h l : page (data h l) ≠ 0 → (l < length h)%nat.
Proof.
  intros Hp. destruct (decide (l < length h)%nat); [done|].
  exfalso. apply Hp. unfold data.
  by rewrite list_lookup_total_alt, lookup_ge_None_2 by lia.
Qed.

(** C9. With page 3 absent, [InsertAllCmd] in append mode on [X, Y], both
    declared on page 3, puts X at position 0 and Y at position 1 of page 3,
    whatever [idx] they declare; its undo pops position 1 (Y), then
    position 0 (X), after which page 3 has no key and the other pages are
    as they were. *)
Theorem insert_batch_append_new_page st x y :
  NoDup (OD.keys (model st)) →
  OD.get 3 (model st) = None →
  page (data (heap st) x) = 3 →
  page (data (heap st) y) = 3 →
  let r := InsertAllCmd.redo st [x; y] true in
  let u1 := undo_insert_ordered r.1 3 1 in
  let u2 := undo_insert_ordered u1.1 3 0 in
  OD.get 3 (model r.1) = Some [x; y]
  ∧ r.2 = inl [(3, 0); (3, 1)]
  ∧ idx (data (heap r.1) y) = 1
  ∧ (x ≠ y → idx (data (heap r.1) x) = 0)
  ∧ InsertAllCmd.undo r.1 [(3, 0); (3, 1)] = u2
  ∧ OD.get 3 (model u1.1) = Some [x] ∧ u1.2 = None
  ∧ OD.get 3 (model u2.1) = None ∧ u2.2 = None
  ∧ model u2.1 = filter (λ kv, kv.1 < 3) (model st) ++
                 filter (λ kv, 3 < kv.1) (model st).
Proof.
  intros Hnd Hget Hx Hy.
  assert (x < length (heap st))%nat as Hax by (apply page_allocated; lia).
  assert (y < length (heap st))%nat as Hay by (apply page_allocated; lia).
  set (lo := filter (λ kv : Z * list loc, kv.1 < 3) (model st)).
  set (hi := filter (λ kv : Z * list loc, 3 < kv.1) (model st)).
  assert (3 ∉ OD.keys lo) as Hlo.
  { unfold lo, OD.keys. rewrite keys_filter_below.
    intros [? _]%list_elem_of_filter. lia. }
  assert (3 ∉ OD.keys hi) as Hhi.
  { unfold hi, OD.keys. rewrite keys_filter_above.
    intros [? _]%list_elem_of_filter. lia. }
  assert (NoDup (OD.keys (lo ++ hi))) as Hnd'.
  { unfold lo, hi, OD.keys. rewrite fmap_app, keys_filter_below, keys_filter_above.
    apply NoDup_app. split_and!; try by apply NoDup_filter.
    intros k [? _]%list_elem_of_filter [? _]%list_elem_of_filter. lia. }
  assert (∀ l, NoDup (OD.keys (lo ++ (3, l) :: hi))) as Hnd3.
  { intros l. unfold OD.keys. rewrite fmap_app, fmap_cons.
    eapply NoDup_Permutation_proper; [symmetry; apply Permutation_middle|].
    apply NoDup_cons. split; [|by rewrite <-fmap_app].
    by intros [?|?]%elem_of_app. }
  (* redo *)
  assert (InsertAllCmd.redo st [x; y] true
          = (State (update_from (heap st) 3 0 [x; y]) (lo ++ (3, [x; y]) :: hi),
             inl [(3, 0); (3, 1)])) as Hredo.
  { unfold InsertAllCmd.redo, InsertAllCmd.redo_loop.
    pose proof (insert_ordered_new_key st x None (Some (-1)) Hnd) as H1.
    cbn [default] in H1. rewrite Hx in H1. rewrite (H1 Hget). clear H1.
    fold lo hi.
    pose proof (insert_ordered_middle (heap st) lo hi y None (Some (-1)) [x]) as H2.
    cbn [default] in H2. rewrite Hy in H2.
    rewrite (H2 Hlo) by (by apply insertable_negative). done. }
  intros r u1 u2. subst r u1 u2. rewrite Hredo. cbn [fst snd].
  set (h2 := update_from (heap st) 3 0 [x; y]).
  assert (undo_insert_ordered (State h2 (lo ++ (3, [x; y]) :: hi)) 3 1
          = (State (update_from h2 3 0 [x]) (lo ++ (3, [x]) :: hi), None)) as Hu1.
  { by rewrite (undo_insert_ordered_middle _ _ _ _ _ _ 1%nat). }
  assert (undo_insert_ordered
            (State (update_from h2 3 0 [x]) (lo ++ (3, [x]) :: hi)) 3 0
          = (State (update_from h2 3 0 [x]) (lo ++ hi), None)) as Hu2.
  { by rewrite (undo_insert_ordered_middle _ _ _ _ _ _ 0%nat). }
  rewrite Hu1. cbn [fst snd]. rewrite Hu2. cbn [fst snd heap model].
  split_and!; try done.
  - by apply ODFacts.get_middle.
  - unfold h2. simpl. unfold _update_indexes. rewrite data_write_eq; [done|].
    by rewrite length_write.
  - intros Hne. unfold h2. simpl. unfold _update_indexes.
    rewrite data_write_ne by done. by rewrite data_write_eq.
  - unfold InsertAllCmd.undo. simpl. by rewrite Hu1, Hu2.
  - by apply ODFacts.get_middle.
  - apply ODFacts.get_None. rewrite ODFacts.keys_app.
    by intros [?|?]%elem_of_app.
Qed.

Lemma insert_batch_append_new_page_witness :
  let st := State [selection "X" 3 7 None []; selection "Y" 3 (-1) None [];
                   selection "A" 1 0 None []]
                  [(1, [2%nat])] in
  OD.get 3 (model (InsertAllCmd.redo st [0%nat; 1%nat] true).1)
  = Some [0%nat; 1%nat].
Proof.
  intros st.
  destruct (insert_batch_append_new_page st 0%nat 1%nat) as [H _].
  - repeat constructor. apply not_elem_of_nil.
  - reflexivity.
  - reflexivity.
  - reflexivity.
  - exact H.
Defined.
End insert_batch.

(** ** Insertion followed by its undo *)

Section insert_undo.
Implicit Types (st : state) (h : list SelectionData) (value : loc).

Lemma filter_all {A} (P : A → Prop) `{!∀ x, Decision (P x)} (l : list A) :
  Forall P l → filter P l = l.
Proof.
  induction 1 as [|x l Hx _ IH]; [done|].
  by rewrite filter_cons_True, IH.
Qed.

Lemma filter_none {A} (P : A → Prop) `{!∀ x, Decision (P x)} (l : list A) :
  Forall (λ x, ¬ P x) l → filter P l = [].
Proof.
  induction 1 as [|x l Hx _ IH]; [done|].
  by rewrite filter_cons_False.
Qed.

(** On ascending keys, the keys below and the keys above an absent key are
    the whole dictionary. *)
Lemma sorted_partition {V} (k : Z) (d : list (Z * V)) :
  StronglySorted Z.lt (OD.keys d) → k ∉ OD.keys d →
  filter (λ kv, kv.1 < k) d ++ filter (λ kv, k < kv.1) d = d.
Proof.
  induction d as [|[a v] d IH]; [done|].
  simpl. intros [Ha Hs]%StronglySorted_cons [Hne Hk]%not_elem_of_cons.
  destruct (decide (a < k)) as [Hlt|Hge].
  - rewrite filter_cons_True by done.
    rewrite (filter_cons_False (λ kv : Z * V, k < kv.1)) by (simpl; lia).
    simpl. f_equal. by apply IH.
  - rewrite filter_cons_False by done.
    rewrite (filter_cons_True (λ kv : Z * V, k < kv.1)) by (simpl; lia).
    rewrite filter_none, filter_all; [done| |].
    + apply Forall_forall. intros [b w] Hin. simpl.
      rewrite Forall_forall in Ha. specialize (Ha b).
      assert (a < b); [|lia]. apply Ha. apply list_elem_of_fmap. by exists (b, w).
    + apply Forall_forall. intros [b w] Hin. simpl.
      rewrite Forall_forall in Ha. specialize (Ha b).
      assert (a < b); [|lia]. apply Ha. apply list_elem_of_fmap. by exists (b, w).
Qed.

(** Popping the returned index gives back the list the value was inserted
    in, provided the declared index does not exceed its length. *)
Lemma inserted_pop (page_items : list loc) (i : Z) value :
  i ≤ Z.of_nat (length page_items) →
  ∃ k, PyList.index (inserted page_items i value).1
                    (inserted page_items i value).2 = Some k
       ∧ delete k (inserted page_items i value).1 = page_items.
Proof.
  intros Hi. unfold inserted. destruct (decide (i < 0)); cbn [fst snd].
  - exists (length page_items). rewrite length_app. simpl. split.
    + unfold PyList.index. rewrite length_app. simpl.
      rewrite decide_True by lia. f_equal. lia.
    + by rewrite (delete_middle page_items [] value), app_nil_r.
  - exists (Z.to_nat i). unfold PyList.insert_at, PyList.insert_pos.
    rewrite decide_False by done. rewrite Z.min_l by done. split.
    + unfold PyList.index. rewrite length_app, length_take. simpl.
      rewrite length_drop. rewrite decide_True by lia. done.
    + assert (length (take (Z.to_nat i) page_items) = Z.to_nat i) as Hlen
        by (rewrite length_take; lia).
      rewrite <-Hlen at 1. rewrite delete_middle. apply take_drop.
Qed.

(** Re-indexing only touches [page] and [idx]. *)
Lemma update_from_mod_pos h p cnt sels l p' i' :
  set_idx i' (set_page p' (data (update_from h p cnt sels) l))
  = set_idx i' (set_page p' (data h l)).
Proof.
  revert h cnt. induction sels as [|sel sels IH]; intros h cnt; [done|].
  simpl. rewrite IH. unfold _update_indexes.
  destruct (decide (sel = l)) as [->|Hne]; [|by rewrite data_write_ne].
  destruct (decide (l < length h)%nat).
  - by rewrite data_write_eq.
  - by rewrite data_write_unallocated by lia.
Qed.

Lemma update_from_lookup h p cnt sels j l :
  NoDup sels → sels !! j = Some l → (l < length h)%nat →
  data (update_from h p cnt sels) l
  = set_idx (Z.of_nat (cnt + j)) (set_page p (data h l)).
Proof.
  revert h cnt j. induction sels as [|sel sels IH]; intros h cnt j; [done|].
  intros [Hsel Hnd]%NoDup_cons. destruct j as [|j]; simpl.
  - intros [= ->] Hl. rewrite update_from_other by done.
    unfold _update_indexes. rewrite data_write_eq by done.
    by rewrite Nat.add_0_r.
  - intros Hj Hl.
    rewrite (IH _ _ j) by (unfold _update_indexes; by rewrite ?length_write).
    unfold _update_indexes. rewrite data_write_ne.
    + do 2 f_equal. lia.
    + intros ->. apply Hsel. by eapply list_elem_of_lookup_2.
Qed.

(** Two heaps that agree on the items of the dictionary give the same
    view. *)
Lemma view_ext h h' d :
  (∀ l, l ∈ items d → data h' l = data h l) →
  view (State h' d) = view (State h d).
Proof.
  intros Hext. unfold view. cbn [heap model].
  apply list_fmap_ext. intros i [k sels] Hk. simpl. f_equal.
  apply list_fmap_ext. intros j l Hl. apply Hext.
  unfold items. apply list_elem_of_In, in_concat. exists sels. split.
  - apply list_elem_of_In, list_elem_of_fmap. exists (k, sels).
    split; [done|]. by eapply list_elem_of_lookup_2.
  - apply list_elem_of_In. by eapply list_elem_of_lookup_2.
Qed.

Lemma items_cons (d : list (Z * list loc)) k sels :
  items ((k, sels) :: d) = sels ++ items d.
Proof. done. Qed.

Lemma items_app (d1 d2 : list (Z * list loc)) :
  items (d1 ++ d2) = items d1 ++ items d2.
Proof. unfold items. by rewrite fmap_app, concat_app. Qed.

Lemma items_middle (d1 d2 : list (Z * list loc)) k sels :
  items (d1 ++ (k, sels) :: d2) = items d1 ++ sels ++ items d2.
Proof. unfold items. by rewrite fmap_app, concat_app. Qed.

Lemma elem_of_items (d : list (Z * list loc)) x :
  x ∈ items d ↔ ∃ k sels, (k, sels) ∈ d ∧ x ∈ sels.
Proof.
  unfold items. rewrite list_elem_of_In, in_concat. split.
  - intros (sels & [[k sels'] [? Hin]]%list_elem_of_In%list_elem_of_fmap & Hx).
    simpl in *. subst. exists k, sels'. split; [done|by apply list_elem_of_In].
  - intros (k & sels & Hin & Hx). exists sels. split.
    + apply list_elem_of_In, list_elem_of_fmap. by exists (k, sels).
    + by apply list_elem_of_In.
Qed.

(** On a contiguous store an item carries the key of the page it is on. *)
Lemma contiguity_page h (d : list (Z * list loc)) k sels x :
  Forall (indexed_page h) d → (k, sels) ∈ d → x ∈ sels → page (data h x) = k.
Proof.
  rewrite Forall_forall. intros Hc Hin [j Hj]%list_elem_of_lookup_1.
  specialize (Hc _ Hin). unfold indexed_page in Hc. simpl in Hc.
  by destruct (indexed_from_lookup _ _ _ _ _ _ Hc Hj).
Qed.

End insert_undo.

Section insert_undo_examples.

(** With a declared index beyond the end of the page, [insert_ordered]
    returns that index and not the position the record went to; the [pop]
    of the undo then fails, is printed, and the record stays. *)
Lemma insert_undo_stale_index :
  let st := State [selection "A" 1 0 None []; selection "R" 1 7 None []]
                  [(1, [0%nat])] in
  let r := InsertCmd.redo st 1%nat in
  let u := InsertCmd.undo r.1 (1, 7) in
  r.2 = inl (1, 7) ∧ model r.1 = [(1, [0%nat; 1%nat])]
  ∧ u.2 = None ∧ model u.1 = [(1, [0%nat; 1%nat])].
Proof. by vm_compute. Qed.

End insert_undo_examples.

(** ** Looking items up by id *)

Section by_id.
Implicit Types (h : list SelectionData) (d : list (Z * list loc))
  (sels : list loc) (s : string).

(** No command writes [id_]: the three writes of the module leave it. *)
Lemma id_write_pos h l p i x :
  id_ (data (write (λ r, set_idx i (set_page p r)) l h) x) = id_ (data h x).
Proof.
  destruct (decide (l = x)) as [->|]; [|by rewrite data_write_ne].
  destruct (decide (x < length h)%nat).
  - by rewrite data_write_eq.
  - by rewrite data_write_unallocated by lia.
Qed.

Lemma id_write_parent h l q x :
  id_ (data (write (set_parent q) l h) x) = id_ (data h x).
Proof.
  destruct (decide (l = x)) as [->|]; [|by rewrite data_write_ne].
  destruct (decide (x < length h)%nat).
  - by rewrite data_write_eq.
  - by rewrite data_write_unallocated by lia.
Qed.

Lemma id_update_from h p cnt sels x :
  id_ (data (update_from h p cnt sels) x) = id_ (data h x).
Proof.
  pose proof (update_from_mod_pos h p cnt sels x 0 0) as H.
  by apply (f_equal id_) in H.
Qed.

Lemma parent_update_from h p cnt sels x :
  parent (data (update_from h p cnt sels) x) = parent (data h x).
Proof.
  pose proof (update_from_mod_pos h p cnt sels x 0 0) as H.
  by apply (f_equal parent) in H.
Qed.

Lemma parent_write h l q x :
  (l < length h)%nat →
  parent (data (write (set_parent q) l h) x)
  = if decide (l = x) then q else parent (data h x).
Proof.
  intros Hl. case_decide as Hx; [subst|by rewrite data_write_ne].
  by rewrite data_write_eq.
Qed.

Lemma parent_allocated h l : parent (data h l) ≠ None → (l < length h)%nat.
Proof.
  intros Hp. destruct (decide (l < length h)%nat); [done|].
  exfalso. apply Hp. unfold data.
  by rewrite list_lookup_total_alt, lookup_ge_None_2 by lia.
Qed.

(** The searches read nothing but ids. *)
Lemma find_in_page_ext h h' s sels n :
  (∀ l, id_ (data h' l) = id_ (data h l)) →
  find_in_page h' s sels n = find_in_page h s sels n.
Proof.
  intros Hext. revert n. induction sels as [|x sels IH]; intros n; [done|].
  simpl. rewrite Hext, IH. done.
Qed.

Lemma find_selection_by_id_ext h h' d s :
  (∀ l, id_ (data h' l) = id_ (data h l)) →
  find_selection_by_id h' d s = find_selection_by_id h d s.
Proof.
  intros Hext. induction d as [|[k sels] d IH]; [done|].
  simpl. by rewrite (find_in_page_ext h h'), IH.
Qed.

Lemma find_in_page_none h s sels n :
  (∀ x, x ∈ sels → id_ (data h x) ≠ s) → find_in_page h s sels n = None.
Proof.
  revert n. induction sels as [|x sels IH]; intros n Hne; [done|].
  simpl. rewrite decide_False by (apply Hne; left).
  apply IH. intros y Hy. apply Hne. by right.
Qed.

Lemma find_in_page_first h sels1 a sels2 n :
  (∀ x, x ∈ sels1 → id_ (data h x) ≠ id_ (data h a)) →
  find_in_page h (id_ (data h a)) (sels1 ++ a :: sels2) n
  = Some ((n + length sels1)%nat, a).
Proof.
  revert n. induction sels1 as [|x sels1 IH]; intros n Hne; simpl.
  - rewrite decide_True by done. by rewrite Nat.add_0_r.
  - rewrite decide_False by (apply Hne; left).
    rewrite IH by (intros y Hy; apply Hne; by right).
    do 2 f_equal. lia.
Qed.

Lemma find_selection_by_id_none h d s :
  (∀ x, x ∈ items d → id_ (data h x) ≠ s) → find_selection_by_id h d s = None.
Proof.
  induction d as [|[k sels] d IH]; intros Hne; [done|].
  simpl. rewrite find_in_page_none.
  - apply IH. intros x Hx. apply Hne.
    rewrite items_cons. apply elem_of_app. by right.
  - intros x Hx. apply Hne.
    rewrite items_cons. apply elem_of_app. by left.
Qed.

Lemma find_selection_by_id_middle h d1 d2 k sels1 a sels2 :
  (∀ x, x ∈ (items d1 ++ sels1) → id_ (data h x) ≠ id_ (data h a)) →
  find_selection_by_id h (d1 ++ (k, sels1 ++ a :: sels2) :: d2) (id_ (data h a))
  = Some (k, length sels1, a).
Proof.
  induction d1 as [|[k1 l1] d1 IH]; intros Hne; simpl.
  - rewrite find_in_page_first; [done|].
    intros x Hx. apply Hne. simpl. done.
  - rewrite find_in_page_none.
    + apply IH. intros x Hx. apply Hne.
      rewrite items_cons, <-app_assoc. apply elem_of_app. by right.
    + intros x Hx. apply Hne.
      rewrite items_cons, <-app_assoc. apply elem_of_app. by left.
Qed.

(** With unique ids, an item is split off from the rest of the store by
    its id. *)
Lemma unique_split h d1 d2 sels1 a sels2 (k : Z) :
  NoDup ((λ l, id_ (data h l)) <$> items (d1 ++ (k, sels1 ++ a :: sels2) :: d2)) →
  ∀ x, x ∈ (items d1 ++ sels1 ++ sels2 ++ items d2) →
       id_ (data h x) ≠ id_ (data h a).
Proof.
  rewrite items_middle, <-!app_assoc. simpl.
  intros Hnd x Hx Heq.
  assert (items d1 ++ sels1 ++ a :: sels2 ++ items d2
          ≡ₚ a :: items d1 ++ sels1 ++ sels2 ++ items d2) as Hperm.
  { rewrite !(app_assoc (items d1)). by rewrite <-Permutation_middle. }
  rewrite Hperm in Hnd. rewrite fmap_cons in Hnd.
  apply NoDup_cons in Hnd as [Hnin _]. apply Hnin.
  rewrite <-Heq. apply list_elem_of_fmap. by exists x.
Qed.
End by_id.

(** ** Removal of a single record *)

Section remove.
Implicit Types (h : list SelectionData) (d : list (Z * list loc))
  (sels : list loc) (s : string).

Lemma remove_first (a : loc) sels1 sels2 :
  a ∉ sels1 → PyList.remove a (sels1 ++ a :: sels2) = sels1 ++ sels2.
Proof.
  induction sels1 as [|x sels1 IH]; simpl.
  - intros _. by rewrite decide_True.
  - intros [? ?]%not_elem_of_cons. rewrite decide_False by done.
    by rewrite IH.
Qed.

Lemma find_selection_by_id_unique h d x :
  NoDup ((λ l, id_ (data h l)) <$> items d) → x ∈ items d →
  ∃ k j, find_selection_by_id h d (id_ (data h x)) = Some (k, j, x).
Proof.
  intros Hnd (k & sels & Hk & Hx)%elem_of_items.
  apply list_elem_of_split in Hk as (d1 & d2 & ->).
  apply list_elem_of_split in Hx as (sels1 & sels2 & ->).
  exists k, (length sels1). apply find_selection_by_id_middle.
  intros y Hy. apply (unique_split _ _ _ _ _ _ _ Hnd).
  rewrite !app_assoc. apply elem_of_app. left. apply elem_of_app. left.
  done.
Qed.

Lemma remove_scan_none h s pages d :
  (∀ x, x ∈ items pages → id_ (data h x) ≠ s) →
  RemoveCmd.remove_scan h s pages d = (d, None).
Proof.
  revert d. induction pages as [|[k sels] pages IH]; intros d Hne; [done|].
  simpl. rewrite find_in_page_none.
  - apply IH. intros x Hx. apply Hne. rewrite items_cons.
    apply elem_of_app. by right.
  - intros x Hx. apply Hne. rewrite items_cons. apply elem_of_app. by left.
Qed.

(** With unique ids the scan removes the item itself, and nothing else. *)
Lemma remove_scan_middle h d1 d2 k sels1 a sels2 d :
  (∀ x, x ∈ (items d1 ++ sels1 ++ sels2 ++ items d2) →
        id_ (data h x) ≠ id_ (data h a)) →
  RemoveCmd.remove_scan h (id_ (data h a))
    (d1 ++ (k, sels1 ++ a :: sels2) :: d2) d
  = if decide (sels1 ++ sels2 = []) then (OD.del k d, None)
    else (OD.set k (sels1 ++ sels2) d, Some k).
Proof.
  intros Hne. revert d. induction d1 as [|[k1 l1] d1 IH]; intros d; simpl.
  - rewrite find_in_page_first.
    2:{ intros x Hx. apply Hne. simpl. apply elem_of_app. by left. }
    rewrite remove_first.
    2:{ intros Hin. eapply Hne; [|done]. simpl. apply elem_of_app. by left. }
    destruct (decide (sels1 ++ sels2 = [])); [|done].
    apply remove_scan_none. intros x Hx. apply Hne. simpl.
    rewrite !elem_of_app. auto.
  - rewrite find_in_page_none.
    + apply IH. intros x Hx. apply Hne. rewrite items_cons, <-app_assoc.
      apply elem_of_app. by right.
    + intros x Hx. apply Hne. rewrite items_cons, <-app_assoc.
      apply elem_of_app. by left.
Qed.
(** C3. On a store with unique ids, removing a root A that sits at
    position [i] of page [p], carries that page and that index, and lists
    the ids of B and C, whose parent it is, takes the id of A out of the
    store and leaves B and C without parent; the undo raises nothing, puts
    A back at position [i] of page [p], with the page as it was, and makes
    A the parent of B and C again. *)
Theorem remove_reparents_and_undo_restores st a b c p i page_items :
  NoDup (OD.keys (model st)) →
  uniqueness st →
  OD.get p (model st) = Some page_items →
  page_items !! i = Some a →
  page (data (heap st) a) = p →
  idx (data (heap st) a) = Z.of_nat i →
  parent (data (heap st) a) = None →
  children (data (heap st) a)
    = [id_ (data (heap st) b); id_ (data (heap st) c)] →
  b ∈ items (model st) →
  c ∈ items (model st) →
  parent (data (heap st) b) = Some (id_ (data (heap st) a)) →
  parent (data (heap st) c) = Some (id_ (data (heap st) a)) →
  let r := RemoveCmd.redo st a in
  let u := RemoveCmd.undo r.1 a r.2 in
  (id_ (data (heap st) a) ∉ ids r.1)
  ∧ parent (data (heap r.1) b) = None
  ∧ parent (data (heap r.1) c) = None
  ∧ u.2 = None
  ∧ OD.get p (model u.1) = Some page_items
  ∧ parent (data (heap u.1) b) = Some (id_ (data (heap st) a))
  ∧ parent (data (heap u.1) c) = Some (id_ (data (heap st) a)).
Proof.
  destruct st as [h d]. unfold uniqueness, ids. cbn [heap model].
  intros Hkeys Hnd Hget Hi Hpa Hia Hroot Hch Hb Hc Hpb Hpc.
  assert (b < length h)%nat as Hab by (apply parent_allocated; congruence).
  assert (c < length h)%nat as Hac by (apply parent_allocated; congruence).
  assert (a ≠ b) as Hanb by (intros ->; congruence).
  assert (a ≠ c) as Hanc by (intros ->; congruence).
  destruct (ODFacts.get_Some_split _ _ _ Hget) as (d1 & d2 & -> & Hk1).
  pose proof (take_drop_middle _ _ _ Hi) as Hsplit.
  set (sels1 := take i page_items) in *.
  set (sels2 := drop (S i) page_items) in *.
  assert (length sels1 = i) as Hlen1.
  { unfold sels1. rewrite length_take. apply lookup_lt_Some in Hi. lia. }
  clearbody sels1 sels2. subst page_items.
  pose proof (unique_split _ _ _ _ _ _ _ Hnd) as Huniq.
  (* the two children are found and re-parented *)
  set (h1 := write (set_parent None) b h).
  set (h2 := write (set_parent None) c h1).
  assert (∀ l, id_ (data h1 l) = id_ (data h l)) as Hid1
    by (intros; apply id_write_parent).
  assert (∀ l, id_ (data h2 l) = id_ (data h l)) as Hid2
    by (intros; unfold h2; by rewrite id_write_parent).
  destruct (find_selection_by_id_unique _ _ b Hnd Hb) as (kb & jb & Hfb).
  destruct (find_selection_by_id_unique _ _ c Hnd Hc) as (kc & jc & Hfc).
  assert (RemoveCmd.relink h (d1 ++ (p, sels1 ++ a :: sels2) :: d2) None
            [id_ (data h b); id_ (data h c)] [] = (h2, [b; c])) as Hrelink.
  { simpl. rewrite Hfb. fold h1.
    rewrite (find_selection_by_id_ext h h1) by done. by rewrite Hfc. }
  (* the scan removes A *)
  pose proof (remove_scan_middle h2 d1 d2 p sels1 a sels2
                (d1 ++ (p, sels1 ++ a :: sels2) :: d2)) as Hscan.
  rewrite Hid2 in Hscan.
  assert (∀ x, x ∈ (items d1 ++ sels1 ++ sels2 ++ items d2) →
               id_ (data h2 x) ≠ id_ (data h a)) as Huniq2
    by (intros x Hx; rewrite Hid2; by apply Huniq).
  specialize (Hscan Huniq2).
  assert (data h2 a = data h a) as Ha2.
  { unfold h2, h1. by rewrite !data_write_ne. }
  assert (parent (data h2 b) = None ∧ parent (data h2 c) = None) as [Hb2 Hc2].
  { unfold h2. rewrite !parent_write by (unfold h1; by rewrite ?length_write).
    unfold h1. rewrite !parent_write by done.
    repeat case_decide; done. }
  assert (a ∉ (sels1 ++ sels2)) as Hnin.
  { intros Hin. eapply Huniq; [|done].
    rewrite !elem_of_app in *. tauto. }
  unfold RemoveCmd.redo, RemoveCmd.remove_and_relink_children.
  cbn [heap model]. rewrite Hroot, Hch, Hrelink, Hscan.
  assert (id_ (data h a)
          ∉ (λ l, id_ (data h2 l)) <$> (items d1 ++ (sels1 ++ sels2) ++ items d2))
    as Hgone.
  { intros (x & Hx & Hin)%list_elem_of_fmap. eapply Huniq2; [|done].
    by rewrite <-app_assoc in Hin. }
  assert (∀ h', (length h' = length h)%nat →
            let h'' := foldl (λ h0 child,
                         write (set_parent (Some (id_ (data h a)))) child h0)
                         h' [b; c] in
            parent (data h'' b) = Some (id_ (data h a))
            ∧ parent (data h'' c) = Some (id_ (data h a))) as Hback.
  { intros h' Hlen. simpl.
    rewrite !parent_write by (rewrite ?length_write; lia).
    repeat case_decide; done. }
  destruct (decide (sels1 ++ sels2 = [])) as [Hempty|Hnonempty].
  - rewrite ODFacts.del_middle by done. cbn [fst snd heap model].
    apply app_eq_nil in Hempty as [-> ->]. simpl in Hgone.
    split_and!; [by rewrite items_app|done|done|..].
    all: unfold RemoveCmd.undo.
    all: assert (NoDup (OD.keys (d1 ++ d2))) as Hkeys'
      by (rewrite <-(ODFacts.del_middle p [a] d1 d2) by done;
          by apply ODFacts.NoDup_keys_del).
    all: assert (OD.get p (d1 ++ d2) = None) as Hnone
      by (rewrite <-(ODFacts.del_middle p [a] d1 d2) by done;
          by apply ODFacts.get_del_eq).
    all: pose proof (insert_ordered_new_key (State h2 (d1 ++ d2)) a None None
                       Hkeys') as Hio.
    all: cbn [default heap model] in Hio; rewrite Ha2, Hpa in Hio.
    all: rewrite (Hio Hnone); cbn [fst snd heap model]; rewrite ?Ha2.
    + done.
    + apply ODFacts.get_middle. unfold OD.keys. rewrite keys_filter_below.
      intros [? _]%list_elem_of_filter. lia.
    + apply Hback. unfold h2, h1. by rewrite !length_write.
    + apply Hback. unfold h2, h1. by rewrite !length_write.
  - rewrite ODFacts.set_middle by done.
    rewrite update_page_indexes_middle by done. cbn [fst snd heap model].
    rewrite items_middle.
    split_and!;
      [|by rewrite parent_update_from|by rewrite parent_update_from|..].
    { intros (x & Hx & Hin)%list_elem_of_fmap. apply Hgone.
      apply list_elem_of_fmap. exists x. split; [|done].
      by rewrite Hx, id_update_from. }
    all: unfold RemoveCmd.undo.
    all: set (h3 := update_from h2 p 0 (sels1 ++ sels2)).
    all: assert (data h3 a = data h a) as Ha3
      by (unfold h3; by rewrite update_from_other).
    all: pose proof (insert_ordered_middle h3 d1 d2 a None None
                       (sels1 ++ sels2)) as Hio.
    all: cbn [default] in Hio; rewrite Ha3, Hpa, Hia in Hio.
    all: rewrite (Hio Hk1)
      by (apply insertable_position; rewrite length_app; lia); clear Hio.
    all: assert (inserted (sels1 ++ sels2) (Z.of_nat i) a
                 = (sels1 ++ a :: sels2, Z.of_nat i)) as ->.
    all: try (unfold inserted, PyList.insert_at, PyList.insert_pos;
              rewrite !decide_False by lia; rewrite length_app;
              rewrite Z.min_l by lia; rewrite Nat2Z.id, <-Hlen1;
              by rewrite take_app_length, drop_app_length).
    all: cbn [fst snd heap model].
    + done.
    + by apply ODFacts.get_middle.
    + rewrite id_update_from, Ha3. apply Hback.
      unfold h3, h2, h1. by rewrite !update_from_length, !length_write.
    + rewrite id_update_from, Ha3. apply Hback.
      unfold h3, h2, h1. by rewrite !update_from_length, !length_write.
Qed.
End remove.

Section remove_examples.
Lemma remove_reparents_and_undo_restores_witness :
  let r := RemoveCmd.redo family 0%nat in
  let u := RemoveCmd.undo r.1 0%nat r.2 in
  parent (data (heap r.1) 1%nat) = None
  ∧ parent (data (heap r.1) 2%nat) = None
  ∧ OD.get 1 (model u.1) = Some [0%nat; 1%nat]
  ∧ parent (data (heap u.1) 1%nat) = Some "A"
  ∧ parent (data (heap u.1) 2%nat) = Some "A".
Proof.
  destruct (remove_reparents_and_undo_restores family 0%nat 1%nat 2%nat 1 0%nat
              [0%nat; 1%nat]) as (_ & H1 & H2 & _ & H3 & H4 & H5).
  - apply (bool_decide_unpack _). vm_compute. reflexivity.
  - apply (bool_decide_unpack _). vm_compute. reflexivity.
  - reflexivity.
  - reflexivity.
  - reflexivity.
  - reflexivity.
  - reflexivity.
  - reflexivity.
  - apply (bool_decide_unpack _). vm_compute. reflexivity.
  - apply (bool_decide_unpack _). vm_compute. reflexivity.
  - reflexivity.
  - reflexivity.
  - repeat split; assumption.
Defined.

(** C3 fails as stated. After Z was removed from the head of page 1 by a
    [RemoveAllCmd], the root A is first on the page and still carries the
    index 1. Removing A makes its children B and C roots; the undo inserts
    A at the index it carries, between B and C, not where it was. *)
Lemma remove_undo_misplaces :
  let st := stale_family_store in
  let r := RemoveCmd.redo st 1%nat in
  let u := RemoveCmd.undo r.1 1%nat r.2 in
  model st = [(1, [1%nat; 2%nat; 3%nat])]
  ∧ uniqueness st ∧ page_key_presence st
  ∧ idx (data (heap st) 1%nat) = 1
  ∧ parent (data (heap st) 1%nat) = None
  ∧ children (data (heap st) 1%nat)
    = [id_ (data (heap st) 2%nat); id_ (data (heap st) 3%nat)]
  ∧ parent (data (heap st) 2%nat) = Some (id_ (data (heap st) 1%nat))
  ∧ parent (data (heap st) 3%nat) = Some (id_ (data (heap st) 1%nat))
  ∧ model r.1 = [(1, [2%nat; 3%nat])]
  ∧ parent (data (heap r.1) 2%nat) = None
  ∧ parent (data (heap r.1) 3%nat) = None
  ∧ u.2 = None
  ∧ model u.1 = [(1, [2%nat; 1%nat; 3%nat])]
  ∧ view u.1 ≠ view st.
Proof.
  cbv zeta. split_and!; try (vm_compute; reflexivity);
    try (apply (bool_decide_unpack _); vm_compute; reflexivity).
  vm_compute. discriminate.
Qed.
End remove_examples.

(** ** Batch moves *)

Section move_batch.
Implicit Types (h : list SelectionData) (d : list (Z * list loc)).

Lemma view_set h d k sels :
  view (State h (OD.set k sels d))
  = OD.set k (data h <$> sels) (view (State h d)).
Proof.
  unfold view. cbn [heap model].
  induction d as [|[k1 v1] d IH]; simpl; [done|].
  case_decide; simpl; [done|]. f_equal. apply IH.
Qed.

Lemma get_view h d k :
  OD.get k (view (State h d))
  = (λ sels : list loc, data h <$> sels) <$> OD.get k d.
Proof.
  unfold view. cbn [heap model].
  induction d as [|[k1 v1] d IH]; simpl; [done|].
  case_decide; simpl; [done|]. apply IH.
Qed.

Lemma items_get_perm d k sels :
  OD.get k d = Some sels → items d ≡ₚ sels ++ items (OD.del k d).
Proof.
  intros (d1 & d2 & -> & Hk)%ODFacts.get_Some_split.
  rewrite ODFacts.del_middle, items_middle, items_app by done.
  by rewrite Permutation_app_swap_app.
Qed.

Lemma items_set_perm d k sels :
  is_Some (OD.get k d) → items (OD.set k sels d) ≡ₚ sels ++ items (OD.del k d).
Proof.
  intros [old (d1 & d2 & -> & Hk)%ODFacts.get_Some_split].
  rewrite ODFacts.set_middle, ODFacts.del_middle, items_middle, items_app by done.
  by rewrite Permutation_app_swap_app.
Qed.

Lemma write_app_new f h x :
  write f (length h) (h ++ [x]) = h ++ [f x].
Proof.
  unfold write. apply list_eq. intros j.
  rewrite list_lookup_alter. case_decide as Hj.
  - subst. by rewrite !list_lookup_middle.
  - destruct (decide (j < length h)%nat).
    + by rewrite !lookup_app_l.
    + rewrite !lookup_ge_None_2; [done|..]; rewrite length_app; simpl; lia.
Qed.

Lemma removals_cons_found h e rest d pages arr arr' :
  OD.get (editing_page e) d = Some arr →
  MoveAllCmd.pop_by_id h (id_ (data h (new_selection e))) arr = Some arr' →
  MoveAllCmd.removals h (e :: rest) d pages
  = MoveAllCmd.removals h rest (OD.set (editing_page e) arr' d)
      (MoveAllCmd.add_page (editing_page e) pages).
Proof. intros Hg Hp. simpl. rewrite Hg. simpl. by rewrite Hp. Qed.

Lemma insertions_cons_present h e rest d pages arr :
  OD.get (page (data h (new_selection e))) d = Some arr →
  0 ≤ idx (data h (new_selection e)) ≤ Z.of_nat (length arr) →
  MoveAllCmd.insertions h (e :: rest) d pages
  = MoveAllCmd.insertions h rest
      (OD.set (page (data h (new_selection e)))
         (PyList.insert_at arr (idx (data h (new_selection e))) (new_selection e)) d)
      (MoveAllCmd.add_page (page (data h (new_selection e))) pages).
Proof.
  intros Hg Hi. simpl. rewrite ODFacts.mem_true by (rewrite Hg; eauto).
  rewrite Hg. simpl. by rewrite decide_False by lia.
Qed.

Lemma add_page_present p pages :
  p ∈ pages → MoveAllCmd.add_page p pages = pages.
Proof. intros. unfold MoveAllCmd.add_page. by rewrite decide_True. Qed.

Lemma insert_head (arr : list loc) x : PyList.insert_at arr 0 x = x :: arr.
Proof.
  unfold PyList.insert_at, PyList.insert_pos. rewrite decide_False by lia.
  rewrite Z.min_l by lia. done.
Qed.

(** What [_apply_edit] does with two edits that exchange the heads of two
    pages whose other items are indexed. *)
Lemma apply_edit_swap h d p q a xs b ys a' b' i j :
  p ≠ q →
  OD.get p d = Some (a :: xs) →
  OD.get q d = Some (b :: ys) →
  id_ (data h a') = id_ (data h a) →
  id_ (data h b') = id_ (data h b) →
  page (data h a') = q → idx (data h a') = 0 →
  page (data h b') = p → idx (data h b') = 0 →
  indexed_from h p 1 xs →
  indexed_from h q 1 ys →
  MoveAllCmd._apply_edit (State h d)
    [mkEditingData p i a'; mkEditingData q j b']
  = State h (OD.set p (b' :: xs) (OD.set q (a' :: ys) d)).
Proof.
  intros Hpq Hp Hq Hia Hib Hpa Hxa Hpb Hxb Hxs Hys.
  unfold MoveAllCmd._apply_edit. cbn [heap model].
  assert (MoveAllCmd.removals h [mkEditingData p i a'; mkEditingData q j b'] d []
          = (OD.set q ys (OD.set p xs d), [p; q])) as ->.
  { rewrite (removals_cons_found _ _ _ _ _ (a :: xs) xs);
      [|done|by simpl; rewrite decide_True].
    rewrite (removals_cons_found _ _ _ _ _ (b :: ys) ys);
      [|by simpl; rewrite ODFacts.get_set_ne|by simpl; rewrite decide_True].
    simpl. unfold MoveAllCmd.add_page. simpl.
    rewrite decide_False; [done|].
    by intros ?%list_elem_of_singleton. }
  assert (MoveAllCmd.insertions h [mkEditingData p i a'; mkEditingData q j b']
            (OD.set q ys (OD.set p xs d)) [p; q]
          = (OD.set p (b' :: xs) (OD.set q (a' :: ys) d), [p; q])) as ->.
  { rewrite (insertions_cons_present _ _ _ _ _ ys);
      [|by simpl; rewrite Hpa, ODFacts.get_set_eq|simpl; lia].
    cbn [new_selection]. rewrite Hpa, Hxa, insert_head, ODFacts.set_set_eq.
    rewrite (insertions_cons_present _ _ _ _ _ xs);
      [|by simpl; rewrite Hpb, ODFacts.get_set_ne, ODFacts.get_set_eq
       |simpl; lia].
    cbn [new_selection]. rewrite Hpb, Hxb, insert_head.
    rewrite (ODFacts.set_comm q p) by (rewrite ?Hp, ?Hq; eauto).
    rewrite ODFacts.set_set_eq. simpl. f_equal.
    rewrite (add_page_present q) by (rewrite !elem_of_cons; auto).
    by rewrite (add_page_present p) by (rewrite !elem_of_cons; auto). }
  simpl. unfold _update_page_indexes. cbn [heap model].
  rewrite ODFacts.get_set_eq. simpl default.
  rewrite (update_from_indexed_id h p 0 (b' :: xs)) by (simpl; auto).
  rewrite ODFacts.get_set_ne, ODFacts.get_set_eq by done. simpl default.
  by rewrite (update_from_indexed_id h q 0 (a' :: ys)) by (simpl; auto).
Qed.
Lemma compute_inverse_cons h d e rest inverse arr old_item :
  OD.get (editing_page e) d = Some arr →
  0 ≤ editing_idx e →
  arr !! Z.to_nat (editing_idx e) = Some old_item →
  MoveAllCmd._compute_inverse h d (e :: rest) inverse
  = MoveAllCmd._compute_inverse
      (h ++ [set_idx (editing_idx e)
               (set_page (editing_page e) (data h old_item))])
      d rest
      (inverse ++ [mkEditingData (page (data h (new_selection e)))
                                 (idx (data h (new_selection e)))
                                 (length h)]).
Proof.
  intros Hg Hi Hl. cbn [MoveAllCmd._compute_inverse]. rewrite Hg.
  cbn [default from_option id]. rewrite Hl. cbn [default from_option id].
  rewrite decide_True.
  2:{ split; [eauto|]. apply lookup_lt_Some in Hl. lia. }
  unfold copy. by rewrite write_app_new.
Qed.

(** The inverse of the two swapping edits: copies of the two heads, to be
    put back where the replacements go. *)
Lemma compute_inverse_swap h d p q x xs y ys x' y' :
  OD.get p d = Some (x :: xs) →
  OD.get q d = Some (y :: ys) →
  (x < length h)%nat → (y < length h)%nat →
  (x' < length h)%nat → (y' < length h)%nat →
  page (data h x) = p → idx (data h x) = 0 →
  page (data h y) = q → idx (data h y) = 0 →
  MoveAllCmd._compute_inverse h d
    [mkEditingData p 0 x'; mkEditingData q 0 y'] []
  = (h ++ [data h x; data h y],
     [mkEditingData (page (data h x')) (idx (data h x')) (length h);
      mkEditingData (page (data h y')) (idx (data h y')) (S (length h))]).
Proof.
  intros Hp Hq Hx Hy Hx' Hy' Hpx Hix Hpy Hiy.
  assert (∀ r : SelectionData, ∀ k i,
            page r = k → idx r = i → set_idx i (set_page k r) = r) as Hset
    by (intros [] ???; simpl; intros; by subst).
  rewrite (compute_inverse_cons _ _ _ _ _ (x :: xs) x) by done.
  cbn [editing_page editing_idx new_selection]. rewrite Hset by done.
  rewrite (compute_inverse_cons _ _ _ _ _ (y :: ys) y) by done.
  cbn [editing_page editing_idx new_selection].
  rewrite !(data_app_l h [data h x]) by done. rewrite Hset by done.
  cbn [MoveAllCmd._compute_inverse]. rewrite <-app_assoc. simpl.
  do 4 f_equal. rewrite length_app. simpl. lia.
Qed.

(** C2. With X first on page 1 and Y first on page 2, when the items of
    both pages carry the page and the index of their position,
    the [MoveAllCmd] built from the two edits that send X to (2, 0) and Y
    to (1, 0) leaves the replacement of X first on page 2 and that of Y
    first on page 1, every other list and the keys as they were, and the
    ids of the store the same up to order; its undo gives back a store that
    reads as the original one. *)
Theorem move_batch_swap st x xs y ys x' y' :
  allocated st →
  OD.get 1 (model st) = Some (x :: xs) →
  OD.get 2 (model st) = Some (y :: ys) →
  indexed_from (heap st) 1 0 (x :: xs) →
  indexed_from (heap st) 2 0 (y :: ys) →
  id_ (data (heap st) x') = id_ (data (heap st) x) →
  page (data (heap st) x') = 2 →
  idx (data (heap st) x') = 0 →
  id_ (data (heap st) y') = id_ (data (heap st) y) →
  page (data (heap st) y') = 1 →
  idx (data (heap st) y') = 0 →
  let editing := [mkEditingData 1 0 x'; mkEditingData 2 0 y'] in
  let c := MoveAllCmd.init st editing in
  let r := MoveAllCmd.redo c.1 editing in
  let u := MoveAllCmd.undo r c.2 in
  OD.get 1 (model r) = Some (y' :: xs)
  ∧ OD.get 2 (model r) = Some (x' :: ys)
  ∧ (∀ k, k ≠ 1 → k ≠ 2 → OD.get k (model r) = OD.get k (model st))
  ∧ OD.keys (model r) = OD.keys (model st)
  ∧ data (heap r) x' = data (heap st) x'
  ∧ data (heap r) y' = data (heap st) y'
  ∧ ids r ≡ₚ ids st
  ∧ view u = view st.
Proof.
  intros Hal H1 H2 Hx1 Hx2 Hidx Hpx Hix Hidy Hpy Hiy editing c r u.
  unfold allocated in Hal. destruct st as [h d]. cbn [heap model] in *.
  assert (x' < length h)%nat as Hax' by (apply page_allocated; lia).
  assert (y' < length h)%nat as Hay' by (apply page_allocated; lia).
  pose proof (indexed_from_allocated _ _ _ _ Hx1) as [Hax Haxs]%Forall_cons.
  pose proof (indexed_from_allocated _ _ _ _ Hx2) as [Hay Hays]%Forall_cons.
  destruct Hx1 as (Hp1 & Hi1 & Hxs). destruct Hx2 as (Hp2 & Hi2 & Hys).
  set (h' := h ++ [data h x; data h y]).
  assert (h' = (h ++ [data h x]) ++ [data h y]) as Hh'
    by (unfold h'; by rewrite <-app_assoc).
  assert (∀ l, (l < length h)%nat → data h' l = data h l) as Hold
    by (intros; by apply data_app_l).
  assert (data h' (length h) = data h x) as Hcx.
  { rewrite Hh', data_app_l.
    - apply data_app_new.
    - rewrite length_app. simpl. lia. }
  assert (data h' (S (length h)) = data h y) as Hcy.
  { rewrite Hh'.
    replace (S (length h)) with (length (h ++ [data h x]))
      by (rewrite length_app; simpl; lia).
    apply data_app_new. }
  assert (c = (State h' d, [mkEditingData 2 0 (length h);
                            mkEditingData 1 0 (S (length h))])) as Hc.
  { unfold c, editing, MoveAllCmd.init. cbn [heap model].
    rewrite (compute_inverse_swap h d 1 2 x xs y ys) by done.
    by rewrite Hpx, Hix, Hpy, Hiy. }
  assert (r = State h' (OD.set 1 (y' :: xs) (OD.set 2 (x' :: ys) d))) as Hr.
  { unfold r, editing, MoveAllCmd.redo. rewrite Hc. cbn [fst].
    apply (apply_edit_swap h' d 1 2 x xs y ys); try done;
      rewrite ?Hold by done; try done; by apply indexed_from_app_heap. }
  set (m := OD.set 1 (y' :: xs) (OD.set 2 (x' :: ys) d)) in *.
  assert (OD.get 1 m = Some (y' :: xs)) as Hm1
    by apply ODFacts.get_set_eq.
  assert (OD.get 2 m = Some (x' :: ys)) as Hm2
    by (unfold m; by rewrite ODFacts.get_set_ne, ODFacts.get_set_eq).
  assert (u = State h' (OD.set 2 (S (length h) :: ys)
                          (OD.set 1 (length h :: xs) m))) as Hu.
  { unfold u, MoveAllCmd.undo. rewrite Hr, Hc. cbn [snd].
    apply (apply_edit_swap h' m 2 1 x' ys y' xs); try done;
      rewrite ?Hcx, ?Hcy, ?Hold by done; try done;
      by apply indexed_from_app_heap. }
  rewrite Hr, Hu. cbn [heap model].
  split_and!; try done.
  - intros k Hk1 Hk2. unfold m. by rewrite !ODFacts.get_set_ne.
  - unfold m. rewrite !ODFacts.keys_set_present; [done|by rewrite H2|].
    rewrite ODFacts.get_set_ne, H1 by done. eauto.
  - by apply Hold.
  - by apply Hold.
  - unfold ids. cbn [heap model].
    assert (items d ≡ₚ (x :: xs) ++ (y :: ys) ++ items (OD.del 2 (OD.del 1 d)))
      as Hd.
    { rewrite (items_get_perm d 1 (x :: xs)) by done.
      by rewrite (items_get_perm (OD.del 1 d) 2 (y :: ys))
        by (by rewrite ODFacts.get_del_ne). }
    assert (items m ≡ₚ (y' :: xs) ++ (x' :: ys) ++ items (OD.del 2 (OD.del 1 d)))
      as Hm.
    { unfold m. rewrite items_set_perm by (rewrite ODFacts.get_set_ne, H1; eauto).
      rewrite ODFacts.del_set_ne by done.
      by rewrite items_set_perm by (rewrite ODFacts.get_del_ne, H2; eauto). }
    rewrite Hd in Hal. rewrite Hm, Hd.
    apply Forall_app in Hal as [_ [_ Hrest]%Forall_app].
    rewrite !fmap_app, !fmap_cons.
    rewrite !Hold by done. rewrite Hidx, Hidy.
    assert (∀ l : list loc, Forall (λ l, (l < length h)%nat) l →
              (λ l, id_ (data h' l)) <$> l = (λ l, id_ (data h l)) <$> l) as Hext.
    { intros l Hl. apply list_fmap_ext. intros k z Hz.
      rewrite Forall_forall in Hl. rewrite Hold; [done|].
      apply Hl. by eapply list_elem_of_lookup_2. }
    rewrite !Hext by done. simpl.
    rewrite <-!Permutation_middle. apply perm_swap.
  - unfold m. rewrite ODFacts.set_set_eq.
    rewrite (ODFacts.set_comm 2 1)
      by (rewrite ?ODFacts.get_set_eq, ?ODFacts.get_set_ne, ?H1 by done; eauto).
    rewrite ODFacts.set_set_eq, !view_set.
    rewrite (view_ext h h' d).
    2:{ intros l Hl. apply Hold. rewrite Forall_forall in Hal. by apply Hal. }
    assert (∀ l : list loc, Forall (λ l, (l < length h)%nat) l →
              data h' <$> l = data h <$> l) as Hext.
    { intros l Hl. apply list_fmap_ext. intros k z Hz.
      rewrite Forall_forall in Hl. apply Hold.
      apply Hl. by eapply list_elem_of_lookup_2. }
    rewrite !fmap_cons, Hcx, Hcy, !Hext by done.
    rewrite (ODFacts.set_get_id 2) by (by rewrite get_view, H2).
    by rewrite (ODFacts.set_get_id 1) by (by rewrite get_view, H1).
Qed.
End move_batch.

Section move_batch_examples.
Lemma move_batch_swap_witness :
  let c := MoveAllCmd.init swap_store swap_edits in
  let r := MoveAllCmd.redo c.1 swap_edits in
  let u := MoveAllCmd.undo r c.2 in
  OD.get 1 (model r) = Some [3%nat; 4%nat]
  ∧ OD.get 2 (model r) = Some [2%nat]
  ∧ view u = view swap_store.
Proof.
  destruct (move_batch_swap swap_store 0%nat [4%nat] 1%nat [] 2%nat 3%nat)
    as (H1 & H2 & _ & _ & _ & _ & _ & H3).
  - apply (bool_decide_unpack _). vm_compute. reflexivity.
  - reflexivity.
  - reflexivity.
  - apply (bool_decide_unpack _). vm_compute. reflexivity.
  - apply (bool_decide_unpack _). vm_compute. reflexivity.
  - reflexivity.
  - reflexivity.
  - reflexivity.
  - reflexivity.
  - reflexivity.
  - reflexivity.
  - split; [exact H1|split; [exact H2|exact H3]].
Defined.

(** C2 fails as stated. After Z was removed from page 1 by a
    [RemoveAllCmd], X is first on page 1, Y is first on page 2, and W,
    second on page 1, still carries the index 2. The swap puts the
    replacements of X and Y first on pages 2 and 1; its undo re-indexes
    page 1, so W carries the index 1 afterwards and the store does not read
    as the original one. *)
Lemma move_batch_swap_stale_index :
  let st := stale_swap_store in
  let editing := [mkEditingData 1 0 4%nat; mkEditingData 2 0 5%nat] in
  let c := MoveAllCmd.init st editing in
  let r := MoveAllCmd.redo c.1 editing in
  let u := MoveAllCmd.undo r c.2 in
  model st = [(1, [0%nat; 2%nat]); (2, [3%nat])]
  ∧ uniqueness st ∧ page_key_presence st
  ∧ idx (data (heap st) 0%nat) = 0
  ∧ idx (data (heap st) 3%nat) = 0
  ∧ idx (data (heap st) 2%nat) = 2
  ∧ OD.get 1 (model r) = Some [5%nat; 2%nat]
  ∧ OD.get 2 (model r) = Some [4%nat]
  ∧ idx (data (heap u) 2%nat) = 1
  ∧ view u ≠ view st.
Proof.
  cbv zeta. split_and!; try (vm_compute; reflexivity);
    try (apply (bool_decide_unpack _); vm_compute; reflexivity).
  vm_compute. discriminate.
Qed.
End move_batch_examples.

(** ** Failures of single-item commands *)

Section failures.
Implicit Types (st : state) (h : list SelectionData) (d : list (Z * list loc)).

Lemma find_in_page_None_inv h s sels n :
  find_in_page h s sels n = None → ∀ x, x ∈ sels → id_ (data h x) ≠ s.
Proof.
  revert n. induction sels as [|y sels IH]; intros n; simpl.
  - by intros _ x ?%elem_of_nil.
  - case_decide as Hy; [done|]. intros Hf x [->|Hx]%elem_of_cons; [done|].
    by eapply IH.
Qed.

Lemma find_selection_by_id_None_inv h d s :
  find_selection_by_id h d s = None → ∀ x, x ∈ items d → id_ (data h x) ≠ s.
Proof.
  induction d as [|[k sels] d IH]; simpl.
  - by intros _ x ?%elem_of_nil.
  - destruct (find_in_page h s sels 0) as [[i sel]|] eqn:Hf; [done|].
    intros Hd x. rewrite items_cons. intros [Hx|Hx]%elem_of_app.
    + by eapply find_in_page_None_inv.
    + by apply IH.
Qed.

Lemma relink_ids h d q child_ids acc :
  ∀ l, id_ (data (RemoveCmd.relink h d q child_ids acc).1 l) = id_ (data h l).
Proof.
  revert h acc. induction child_ids as [|s child_ids IH]; intros h acc l; [done|].
  simpl. destruct (find_selection_by_id h d s) as [[[k i] child]|]; [|apply IH].
  rewrite IH. apply id_write_parent.
Qed.

(** C7 fails as stated: removing a record that is not in the store is a
    failed lookup by id, yet [RemoveCmd] returns normally, and it has by
    then re-parented the children that the record lists. *)
Lemma remove_absent_not_propagated :
  let r := push orphan_store (Remove 0%nat) in
  single_item (Remove 0%nat)
  ∧ spec_fails orphan_store (Remove 0%nat)
  ∧ r.2 = inl (PRemove 0%nat [1%nat])
  ∧ view orphan_store = [(1, [selection "B" 1 0 (Some "A") []])]
  ∧ view r.1 = [(1, [selection "B" 1 0 None []])].
Proof. vm_compute. repeat split. Qed.

(** A second way in which C7 fails: an [EditCmd] whose replacement
    declares an index that [list.insert] does not take. The position to
    edit resolves, so [redo] raises nothing; [edit_selection] pops the item,
    [insert_ordered] raises [OverflowError], the bare [except] swallows it:
    the command is pushed, the item is gone, the replacement is not in the
    store and the page is not re-indexed. *)
Lemma edit_overflow_loses_item :
  let st := State [selection "A" 1 0 None []; selection "B" 1 1 None [];
                   selection "N" 1 (2 ^ 70) None []]
                  [(1, [0%nat; 1%nat])] in
  let r := push st (Edit 1 0 2%nat) in
  contiguity st
  ∧ r.2 = inl (PEdit 2%nat 3%nat)
  ∧ view r.1 = [(1, [selection "B" 1 1 None []])]
  ∧ ¬ contiguity r.1.
Proof.
  vm_compute. split_and!; try reflexivity.
  - repeat constructor.
  - intros H. apply Forall_cons in H as [(_ & H & _) _]. discriminate.
Qed.

(** C7, as the code has it. A single-item command that raises leaves the
    store as it was. [InsertCmd] raises the [OverflowError] of
    [list.insert], exactly when the page of the record has a key and the
    declared index is beyond the end of its list and no [Py_ssize_t].
    [EditCmd] raises exactly when its (page, index) does not resolve:
    [KeyError] for a page without key, [IndexError] for an index that
    addresses no item of the page. [RemoveCmd] never raises: of a record
    whose id is not in the store it removes nothing. *)
Theorem single_item_raise_unchanged st c :
  single_item c →
  (∀ st' e, push st c = (st', inr e) → st' = st)
  ∧ (∀ v e, c = Insert v →
       (push st c).2 = inr e
       ↔ e = OverflowError
         ∧ ∃ page_items,
             OD.get (page (data (heap st) v)) (model st) = Some page_items
             ∧ Z.of_nat (length page_items) < idx (data (heap st) v)
             ∧ 2 ^ 63 ≤ idx (data (heap st) v))
  ∧ (∀ k i v e, c = Edit k i v →
       (push st c).2 = inr e
       ↔ (e = KeyError ∧ OD.get k (model st) = None)
         ∨ (e = IndexError
            ∧ ∃ page_items, OD.get k (model st) = Some page_items
                            ∧ PyList.getitem page_items i = None))
  ∧ (∀ v, c = Remove v →
       ∃ ch, (push st c).2 = inl (PRemove v ch)
             ∧ (spec_fails st c → model (push st c).1 = model st)).
Proof.
  intros Hc. split_and!.
  - intros st' e. destruct c as [v| |v| |k i v|]; try done; simpl.
    + unfold InsertCmd.redo.
      destruct (insert_ordered st v None None) as [st1 [ki|e1]] eqn:Hio;
        [done|].
      intros [= <- <-]. by apply insert_ordered_raises in Hio as [-> _].
    + by destruct (RemoveCmd.redo st v).
    + unfold EditCmd.redo.
      destruct (OD.get k (model st)) as [page_items|]; [|by intros [= <- _]].
      destruct (PyList.getitem page_items i) as [old|]; [|by intros [= <- _]].
      by destruct (copy (heap st) old).
  - intros v e ->. simpl. unfold InsertCmd.redo. split.
    + destruct (insert_ordered st v None None) as [st1 [ki|e1]] eqn:Hio;
        [done|].
      simpl. intros [= <-].
      apply insert_ordered_raises in Hio as (_ & -> & page_items & Hget & Hi).
      split; [done|]. exists page_items. split; [done|].
      simpl in Hi. unfold insertable in Hi. lia.
    + intros (-> & page_items & Hget & Hlen & Hbig).
      rewrite (insert_ordered_present st v None None page_items Hget).
      rewrite decide_False; [done|]. simpl. unfold insertable. lia.
  - intros k i v e ->. simpl. unfold EditCmd.redo.
    destruct (OD.get k (model st)) as [page_items|] eqn:Hg.
    + destruct (PyList.getitem page_items i) as [old|] eqn:Hi.
      * destruct (copy (heap st) old). simpl. split; [done|].
        intros [[_ [=]]|(_ & items' & [= <-] & ?)]. congruence.
      * simpl. split.
        -- intros [= <-]. right. split; [done|]. by exists page_items.
        -- by intros [[_ [=]]|(-> & _)].
    + simpl. split.
      * intros [= <-]. by left.
      * by intros [[-> _]|(_ & items' & [=] & _)].
  - intros v ->. simpl.
    unfold RemoveCmd.redo, RemoveCmd.remove_and_relink_children.
    destruct (RemoveCmd.relink _ _ _ _ _) as [h' ch] eqn:Hrel.
    destruct (RemoveCmd.remove_scan _ _ _ _) as [d' edited] eqn:Hscan.
    exists ch. split; [done|]. intros Hf.
    rewrite remove_scan_none in Hscan.
    + by injection Hscan as <- <-.
    + intros x Hx.
      pose proof (relink_ids (heap st) (model st) (parent (data (heap st) v))
                    (children (data (heap st) v)) [] x) as Hid.
      rewrite Hrel in Hid. simpl in Hid. rewrite Hid.
      by eapply find_selection_by_id_None_inv.
Qed.

Lemma single_item_raise_unchanged_witness :
  (push swap_store (Edit 1 5 2%nat)).2 = inr IndexError
  ∧ (push (State [selection "A" 1 0 None []; selection "N" 1 (2 ^ 63) None []]
                 [(1, [0%nat])]) (Insert 1%nat)).2 = inr OverflowError.
Proof.
  split.
  - destruct (single_item_raise_unchanged swap_store (Edit 1 5 2%nat))
      as (_ & _ & H & _); [exact I|].
    apply (H 1 5 2%nat IndexError); [reflexivity|].
    right. split; [reflexivity|]. by exists [0%nat; 4%nat].
  - destruct (single_item_raise_unchanged
                (State [selection "A" 1 0 None []; selection "N" 1 (2 ^ 63) None []]
                       [(1, [0%nat])]) (Insert 1%nat))
      as (_ & H & _); [exact I|].
    apply (H 1%nat OverflowError); [reflexivity|].
    split; [reflexivity|]. exists [0%nat]. split; [reflexivity|].
    split; [by vm_compute|by vm_compute].
Defined.
End failures.

(** ** The walk to the root *)

Section path_to_root.
Implicit Types (id_lookup : gmap string SelectionData) (c : string).

Lemma climb_chain id_lookup fuel c path_ids :
  climb fuel id_lookup (Some c) path_ids
  = if decide (length (chain (S fuel) id_lookup c) ≤ fuel)%nat
    then Some (path_ids ++ chain fuel id_lookup c) else None.
Proof.
  revert c path_ids. induction fuel as [|fuel IH]; intros c path_ids.
  - cbn [climb]. case_decide as Hlen; [|done]. simpl in Hlen. lia.
  - cbn [climb]. change (chain (S (S fuel)) id_lookup c)
      with (c :: match next_current id_lookup c with
                 | Some p => chain (S fuel) id_lookup p
                 | None => []
                 end).
    change (chain (S fuel) id_lookup c)
      with (c :: match next_current id_lookup c with
                 | Some p => chain fuel id_lookup p
                 | None => []
                 end).
    destruct (next_current id_lookup c) as [p|].
    + rewrite IH. cbn [length].
      repeat case_decide; try lia; [|done]. by rewrite <-app_assoc.
    + cbn [length]. case_decide; [by destruct fuel|lia].
Qed.

Lemma chain_keys id_lookup n c x :
  is_Some (id_lookup !! c) → x ∈ chain n id_lookup c → is_Some (id_lookup !! x).
Proof.
  revert c. induction n as [|n IH]; intros c Hc; simpl.
  - by intros ?%elem_of_nil.
  - intros [->|Hx]%elem_of_cons; [done|].
    destruct (next_current id_lookup c) as [p|] eqn:Hp;
      [|by apply elem_of_nil in Hx].
    apply (IH p); [|done]. unfold next_current in Hp.
    destruct (parent (id_lookup !!! c)) as [q|]; [|done]. simpl in Hp.
    case_decide; [|done]. by injection Hp as <-.
Qed.

(** A chain that stopped stays as it is with more iterations. *)
Lemma chain_stopped id_lookup n m c :
  (length (chain n id_lookup c) < n)%nat → (n ≤ m)%nat →
  chain m id_lookup c = chain n id_lookup c.
Proof.
  revert m c. induction n as [|n IH]; intros m c; [simpl; lia|].
  destruct m as [|m]; [lia|]. simpl.
  destruct (next_current id_lookup c) as [p|]; [|done].
  intros Hlen Hm. f_equal. apply IH; simpl in *; lia.
Qed.

(** Ids without repetition among the keys are no more than the keys. *)
Lemma keys_pigeonhole id_lookup (l : list string) :
  NoDup l → (∀ x, x ∈ l → is_Some (id_lookup !! x)) →
  (length l ≤ size id_lookup)%nat.
Proof.
  intros Hnd Hin. rewrite <-(size_list_to_set (C := gset string)) by done.
  rewrite <-size_dom. apply subseteq_size.
  intros x Hx%elem_of_list_to_set. apply elem_of_dom. by apply Hin.
Qed.

Lemma build_id_lookup_size h d :
  (size (build_id_lookup h d) ≤ length (items d))%nat.
Proof.
  unfold build_id_lookup. generalize (items d). intros l.
  assert (∀ m : gmap string SelectionData,
            size (foldl (λ id_lookup l0, <[id_ (data h l0) := data h l0]> id_lookup)
                        m l) ≤ size m + length l)%nat as H.
  { induction l as [|x l IH]; intros m; simpl; [lia|].
    etrans; [apply IH|].
    destruct (m !! id_ (data h x)) eqn:Hm.
    - rewrite map_size_insert_Some by done. lia.
    - rewrite map_size_insert_None by done. lia. }
  specialize (H ∅). by rewrite map_size_empty in H.
Qed.

(** C8 fails as stated: with A the parent of B and B the parent of A, the
    loop of [get_selection_path_str] has not ended after any number of
    iterations. Nothing bounds the walk and nothing detects the cycle. *)
Lemma path_walk_cycle_never_ends :
  ¬ ∃ fuel, is_Some (get_selection_path_str fuel cyclic_store "A" true).
Proof.
  intros [fuel Hsome].
  set (id_lookup := build_id_lookup (heap cyclic_store) (model cyclic_store)).
  assert (next_current id_lookup "A" = Some "B") as HA by (by vm_compute).
  assert (next_current id_lookup "B" = Some "A") as HB by (by vm_compute).
  assert (∀ n path_ids,
            climb n id_lookup (Some "A") path_ids = None
            ∧ climb n id_lookup (Some "B") path_ids = None) as Hloop.
  { induction n as [|n IH]; intros path_ids; [done|].
    cbn [climb]. rewrite HA, HB. split; apply IH. }
  unfold get_selection_path_str in Hsome. fold id_lookup in Hsome.
  rewrite decide_True in Hsome by (vm_compute; eauto).
  rewrite (proj1 (Hloop fuel [])) in Hsome. by destruct Hsome.
Qed.

(** C8, as the code has it. When the ids met from the starting id by
    following the parents that resolve are all different, the walk ends,
    within as many iterations as there are ids in the store, which are no
    more than its records. *)
Theorem path_walk_terminates_acyclic st selection_id include_last :
  let id_lookup := build_id_lookup (heap st) (model st) in
  NoDup (chain (S (size id_lookup)) id_lookup selection_id) →
  (size id_lookup ≤ length (items (model st)))%nat
  ∧ ∀ fuel, (size id_lookup ≤ fuel)%nat →
      is_Some (get_selection_path_str fuel st selection_id include_last).
Proof.
  intros id_lookup Hnd. split; [apply build_id_lookup_size|].
  intros fuel Hfuel. unfold get_selection_path_str. fold id_lookup.
  case_decide as Hkey; [|by eauto].
  assert (length (chain (S (size id_lookup)) id_lookup selection_id)
          ≤ size id_lookup)%nat as Hlen.
  { apply keys_pigeonhole; [done|]. intros x Hx. by eapply chain_keys. }
  rewrite climb_chain.
  rewrite (chain_stopped _ (S (size id_lookup)) (S fuel)) by lia.
  rewrite decide_True by lia. simpl. by eauto.
Qed.

Lemma path_walk_terminates_acyclic_witness :
  is_Some (get_selection_path_str 3 family "B" true).
Proof.
  destruct (path_walk_terminates_acyclic family "B" true) as [_ H].
  - apply (bool_decide_unpack _). by vm_compute.
  - apply H. by vm_compute.
Defined.
End path_to_root.

(** ** Uniqueness of ids *)

Section uniqueness.
Implicit Types (st : state) (h : list SelectionData) (d : list (Z * list loc))
  (l : list loc).

(** C5 fails as stated: the engine does not look for the id of the record
    it inserts. *)
Lemma insert_duplicates_id :
  uniqueness duplicate_id
  ∧ ids (push duplicate_id (Insert 1%nat)).1 = ["Ann"; "Ann"]
  ∧ ¬ uniqueness (push duplicate_id (Insert 1%nat)).1.
Proof.
  split_and!.
  - apply (bool_decide_unpack _). by vm_compute.
  - by vm_compute.
  - intros H. apply (bool_decide_pack _) in H. by vm_compute in H.
Qed.

Lemma stable_refl h : stable h h.
Proof. by split. Qed.

Lemma stable_trans h1 h2 h3 : stable h1 h2 → stable h2 h3 → stable h1 h3.
Proof.
  intros [Hl1 H1] [Hl2 H2]. split; [lia|].
  intros x Hx. rewrite H2 by lia. by apply H1.
Qed.

Lemma stable_update_from h p cnt l : stable h (update_from h p cnt l).
Proof.
  split; [by rewrite update_from_length|]. intros. apply id_update_from.
Qed.

Lemma stable_write_parent h q x : stable h (write (set_parent q) x h).
Proof.
  split; [by rewrite length_write|]. intros. apply id_write_parent.
Qed.

Lemma stable_app h h' : stable h (h ++ h').
Proof.
  split; [rewrite length_app; lia|]. intros. by rewrite data_app_l.
Qed.

Lemma stable_update_page_indexes st p :
  stable (heap st) (heap (_update_page_indexes st p)).
Proof. apply stable_update_from. Qed.

Lemma ids_of_stable h h' l :
  stable h h' → Forall (λ x, (x < length h)%nat) l → ids_of h' l = ids_of h l.
Proof.
  intros [_ Hid] Hl. apply list_fmap_ext. intros i x Hx. apply Hid.
  rewrite Forall_forall in Hl. apply Hl. by eapply list_elem_of_lookup_2.
Qed.

(** The pattern of every command: what is left of the items, and what is
    put in. *)
Lemma NoDup_ids_after h h' l l0 news l' :
  stable h h' →
  Forall (λ x, (x < length h)%nat) l →
  Forall (λ x, (x < length h)%nat) news →
  l0 `sublist_of` l →
  l' ≡ₚ news ++ l0 →
  NoDup (ids_of h l) →
  NoDup (ids_of h news) →
  (∀ x, x ∈ news → id_ (data h x) ∉ ids_of h l0) →
  NoDup (ids_of h' l').
Proof.
  intros Hst Hl Hnews Hsub Hperm Hnd Hndn Hfresh.
  unfold ids_of at 1. rewrite Hperm. fold (ids_of h' (news ++ l0)).
  assert (Forall (λ x, (x < length h)%nat) (news ++ l0)) as Hall.
  { apply Forall_app. split; [done|]. apply Forall_forall. intros x Hx.
    rewrite Forall_forall in Hl. apply Hl. by eapply elem_of_sublist. }
  rewrite (ids_of_stable h h') by done.
  unfold ids_of. rewrite fmap_app. apply NoDup_app. split_and!; [done| |].
  - intros s (x & -> & Hx)%list_elem_of_fmap. by apply Hfresh.
  - eapply sublist_NoDup; [exact Hnd|]. by apply fmap_sublist.
Qed.

Lemma items_Permutation d d' : d ≡ₚ d' → items d ≡ₚ items d'.
Proof.
  induction 1 as [|[k v] d1 d2 _ IH|[k1 v1] [k2 v2] d1|d1 d2 d3 _ IH1 _ IH2].
  - done.
  - rewrite !items_cons. by rewrite IH.
  - rewrite !items_cons. by rewrite Permutation_app_swap_app.
  - by etrans.
Qed.

Lemma items_set_sublist d k sels sels' :
  OD.get k d = Some sels → sels' `sublist_of` sels →
  items (OD.set k sels' d) `sublist_of` items d.
Proof.
  intros (d1 & d2 & -> & Hk)%ODFacts.get_Some_split Hsub.
  rewrite ODFacts.set_middle, !items_middle by done.
  apply sublist_app; [done|]. by apply sublist_app.
Qed.

Lemma items_del_sublist d k : items (OD.del k d) `sublist_of` items d.
Proof.
  destruct (OD.get k d) as [sels|] eqn:Hg.
  - apply ODFacts.get_Some_split in Hg as (d1 & d2 & -> & Hk).
    rewrite ODFacts.del_middle, items_middle, items_app by done.
    apply sublist_app; [done|]. by apply sublist_inserts_l.
  - apply ODFacts.get_None in Hg. by rewrite ODFacts.del_fresh.
Qed.

Lemma items_set_present_perm d k sels sels' :
  OD.get k d = Some sels →
  items (OD.set k sels' d) ≡ₚ sels' ++ items (OD.set k [] d).
Proof.
  intros (d1 & d2 & -> & Hk)%ODFacts.get_Some_split.
  rewrite !ODFacts.set_middle, !items_middle by done. simpl.
  by rewrite Permutation_app_swap_app.
Qed.

Lemma inserted_perm l (i : Z) value :
  (inserted l i value).1 ≡ₚ value :: l.
Proof.
  unfold inserted. destruct (decide (i < 0)); cbn [fst].
  - by rewrite <-Permutation_cons_append.
  - unfold PyList.insert_at. rewrite <-Permutation_middle.
    by rewrite take_drop.
Qed.

Lemma insert_perm l (i : Z) value : PyList.insert_at l i value ≡ₚ value :: l.
Proof.
  unfold PyList.insert_at. rewrite <-Permutation_middle. by rewrite take_drop.
Qed.

(** [insert_ordered], when it returns, adds the value to the items of the
    store, and writes no id. *)
Lemma insert_ordered_spec st value o_key o_idx st' ki :
  NoDup (OD.keys (model st)) →
  insert_ordered st value o_key o_idx = (st', inl ki) →
  stable (heap st) (heap st')
  ∧ items (model st') ≡ₚ value :: items (model st)
  ∧ NoDup (OD.keys (model st')).
Proof.
  intros Hnd. destruct st as [h d]. cbn [heap model] in *.
  set (key := default (page (data h value)) o_key).
  destruct (OD.get key d) as [page_items|] eqn:Hget.
  - destruct (decide (insertable page_items
                        (default (idx (data h value)) o_idx))) as [Hins|Hins].
    2:{ rewrite (insert_ordered_present (State h d) value o_key o_idx
                   page_items) by done.
        by rewrite decide_False. }
    destruct (ODFacts.get_Some_split _ _ _ Hget) as (d1 & d2 & -> & Hk1).
    pose proof (insert_ordered_middle h d1 d2 value o_key o_idx page_items) as Hio.
    fold key in Hio. simpl in Hio. rewrite (Hio Hk1 Hins). intros [= <- _].
    cbn [fst heap model].
    split_and!.
    + apply stable_update_from.
    + rewrite !items_middle, inserted_perm. simpl.
      by rewrite <-Permutation_middle.
    + by rewrite ODFacts.keys_app in *.
  - pose proof (insert_ordered_new_key (State h d) value o_key o_idx Hnd) as Hio.
    cbn [heap model] in Hio. fold key in Hio. rewrite (Hio Hget).
    intros [= <- _].
    cbn [fst heap model]. apply ODFacts.get_None in Hget.
    assert (d ≡ₚ filter (λ kv : Z * list loc, kv.1 < key) d
               ++ filter (λ kv : Z * list loc, key < kv.1) d) as Hperm.
    { assert (filter (λ kv : Z * list loc, key < kv.1) d
              = filter (λ kv : Z * list loc, ¬ kv.1 < key) d) as Hf.
      { apply list_filter_ext_in.
        intros [k v] Hin. simpl. assert (k ≠ key); [|lia].
        intros ->. apply Hget. apply list_elem_of_fmap. by exists (key, v). }
      rewrite Hf. symmetry.
      apply (filter_app_complement (λ kv : Z * list loc, kv.1 < key)). }
    split_and!.
    + apply stable_refl.
    + rewrite items_middle. simpl. rewrite <-Permutation_middle.
      constructor. rewrite <-items_app. symmetry. by apply items_Permutation.
    + unfold OD.keys in *. rewrite fmap_app, fmap_cons. simpl.
      eapply NoDup_Permutation_proper; [symmetry; apply Permutation_middle|].
      apply NoDup_cons. split.
      * rewrite <-fmap_app, <-Hperm. done.
      * by rewrite <-fmap_app, <-Hperm.
Qed.
(** *** Removals *)

Lemma remove_sublist (a : loc) l : PyList.remove a l `sublist_of` l.
Proof.
  induction l as [|x l IH]; simpl; [done|].
  case_decide; [by apply sublist_cons|by apply sublist_skip].
Qed.

Lemma relink_stable h d q child_ids acc :
  stable h (RemoveCmd.relink h d q child_ids acc).1.
Proof.
  revert h acc. induction child_ids as [|s child_ids IH]; intros h acc.
  - apply stable_refl.
  - simpl. destruct (find_selection_by_id h d s) as [[[k i] child]|]; [|apply IH].
    eapply stable_trans; [apply stable_write_parent|apply IH].
Qed.

Lemma pages_of_self d : NoDup (OD.keys d) → pages_of d d.
Proof. intros Hnd. split; [done|]. intros k sels. by apply ODFacts.get_elem. Qed.

Lemma pages_of_tail k sels pages d d' :
  pages_of ((k, sels) :: pages) d →
  (∀ k', k' ≠ k → OD.get k' d' = OD.get k' d) →
  pages_of pages d'.
Proof.
  intros [[Hk Hnd]%NoDup_cons Hget] Hsame. split; [done|].
  intros k' sels' Hin. rewrite Hsame; [apply Hget; by right|].
  intros ->. apply Hk. apply list_elem_of_fmap. by exists (k, sels').
Qed.

Lemma remove_scan_spec h s pages d :
  NoDup (OD.keys d) → pages_of pages d →
  items (RemoveCmd.remove_scan h s pages d).1 `sublist_of` items d.
Proof.
  revert d. induction pages as [|[k sels] pages IH]; intros d Hnd Hpages;
    [done|].
  simpl. destruct (find_in_page h s sels 0) as [[i sel]|].
  - assert (OD.get k d = Some sels) as Hk by (apply Hpages; left).
    case_decide.
    + etrans; [|apply (items_del_sublist d k)].
      apply IH; [by apply ODFacts.NoDup_keys_del|].
      eapply pages_of_tail; [done|]. intros. by apply ODFacts.get_del_ne.
    + cbn [fst]. eapply items_set_sublist; [done|apply remove_sublist].
  - apply IH; [done|]. by eapply pages_of_tail.
Qed.

Lemma remove_spec st value :
  NoDup (OD.keys (model st)) →
  let st' := (RemoveCmd.redo st value).1 in
  stable (heap st) (heap st')
  ∧ items (model st') `sublist_of` items (model st).
Proof.
  intros Hnd. unfold RemoveCmd.redo, RemoveCmd.remove_and_relink_children.
  pose proof (relink_stable (heap st) (model st) (parent (data (heap st) value))
                (children (data (heap st) value)) []) as Hrel.
  destruct (RemoveCmd.relink _ _ _ _ _) as [h' ch]. cbn [fst] in Hrel.
  pose proof (remove_scan_spec h' (id_ (data (heap st) value)) (model st)
                (model st) Hnd (pages_of_self _ Hnd)) as Hscan.
  destruct (RemoveCmd.remove_scan _ _ _ _) as [d' edited]. cbn [fst] in Hscan.
  destruct edited as [p|]; cbn [fst heap model]; split; try done.
  eapply stable_trans; [exact Hrel|apply stable_update_from].
Qed.

Lemma page_loop_spec h page snapshot page_items d to_remove removed :
  NoDup (OD.keys d) →
  OD.get page d = Some page_items
  ∨ (page_items = [] ∧ OD.get page d = None) →
  let d' := match RemoveAllCmd.page_loop h page snapshot page_items d
                    to_remove removed with
            | inl d' => d'
            | inr (d', _, _) => d'
            end in
  items d' `sublist_of` items d
  ∧ NoDup (OD.keys d')
  ∧ ∀ k, k ≠ page → OD.get k d' = OD.get k d.
Proof.
  revert page_items d to_remove removed.
  induction snapshot as [|sel snapshot IH];
    intros page_items d to_remove removed Hnd Hinv; [done|].
  cbn [RemoveAllCmd.page_loop]. cbv zeta.
  destruct (decide (id_ (data h sel) ∈ to_remove)); [|by apply IH].
  set (page_items' := PyList.remove sel page_items).
  set (d1 := if decide (page_items' = []) then OD.del page d
             else OD.set page page_items' d).
  assert (items d1 `sublist_of` items d
          ∧ NoDup (OD.keys d1)
          ∧ (∀ k, k ≠ page → OD.get k d1 = OD.get k d)
          ∧ (OD.get page d1 = Some page_items'
             ∨ (page_items' = [] ∧ OD.get page d1 = None)))
    as (Hsub & Hnd1 & Hsame & Hinv1).
  { unfold d1. destruct (decide (page_items' = [])) as [Hnil|Hnn].
    - split_and!.
      + apply items_del_sublist.
      + by apply ODFacts.NoDup_keys_del.
      + intros. by apply ODFacts.get_del_ne.
      + right. split; [done|]. by apply ODFacts.get_del_eq.
    - destruct Hinv as [Hget|[-> _]]; [|done].
      split_and!.
      + eapply items_set_sublist; [done|apply remove_sublist].
      + by apply ODFacts.NoDup_keys_set.
      + intros. by apply ODFacts.get_set_ne.
      + left. apply ODFacts.get_set_eq. }
  destruct (decide (size (to_remove ∖ {[id_ (data h sel)]}) ≤ 0)%nat); [done|].
  destruct (IH page_items' d1 (to_remove ∖ {[id_ (data h sel)]}) true Hnd1 Hinv1)
    as (Hsub2 & Hnd2 & Hsame2).
  split_and!; [by etrans|done|].
  intros k Hk. rewrite Hsame2 by done. by apply Hsame.
Qed.

Lemma pages_loop_spec st pages to_remove :
  NoDup (OD.keys (model st)) → pages_of pages (model st) →
  let st' := RemoveAllCmd.pages_loop st pages to_remove in
  stable (heap st) (heap st')
  ∧ items (model st') `sublist_of` items (model st).
Proof.
  revert st to_remove. induction pages as [|[k sels] pages IH];
    intros st to_remove Hnd Hpages; [split; [apply stable_refl|done]|].
  cbn [RemoveAllCmd.pages_loop].
  assert (OD.get k (model st) = Some sels) as Hk by (apply Hpages; left).
  pose proof (page_loop_spec (heap st) k sels sels (model st) to_remove false
                Hnd (or_introl Hk)) as Hloop.
  destruct (RemoveAllCmd.page_loop _ _ _ _ _ _ _) as [d'|[[d' to_remove'] removed]];
    cbv zeta in Hloop; destruct Hloop as (Hsub & Hnd' & Hsame).
  - split; [apply stable_refl|done].
  - set (st1 := if removed
                then _update_page_indexes (State (heap st) d') k
                else State (heap st) d').
    assert (stable (heap st) (heap st1) ∧ model st1 = d') as [Hst1 Hm1].
    { unfold st1. destruct removed; (split; [|done]);
        [apply (stable_update_page_indexes (State (heap st) d'))
        |apply stable_refl]. }
    destruct (IH st1 to_remove') as [Hst2 Hsub2].
    + by rewrite Hm1.
    + rewrite Hm1. by eapply pages_of_tail.
    + split; [by eapply stable_trans|]. rewrite Hm1 in Hsub2. by etrans.
Qed.
(** *** Insertions in sequence *)

(** The loop of [InsertAllCmd.redo] inserts the values it reaches: all of
    them, or those before the one for which [insert_ordered] raises. *)
Lemma redo_loop_spec st values append acc :
  NoDup (OD.keys (model st)) →
  let r := InsertAllCmd.redo_loop st values append acc in
  ∃ news,
    news `sublist_of` values
    ∧ (is_Some (maybe inl r.2) → news = values)
    ∧ stable (heap st) (heap r.1)
    ∧ items (model r.1) ≡ₚ news ++ items (model st)
    ∧ NoDup (OD.keys (model r.1)).
Proof.
  revert st acc. induction values as [|v values IH]; intros st acc Hnd.
  - exists []. split_and!; [done|done|apply stable_refl|done|done].
  - cbn [InsertAllCmd.redo_loop].
    set (i := if append then -1 else idx (data (heap st) v)).
    destruct (insert_ordered st v None (Some i)) as [st1 [ki|e]] eqn:Hio.
    + destruct (insert_ordered_spec st v None (Some i) st1 ki Hnd Hio)
        as (Hst & Hperm & Hnd1).
      destruct (IH st1 (acc ++ [ki]) Hnd1)
        as (news & Hsub & Hall & Hst2 & Hperm2 & Hnd2).
      exists (v :: news). split_and!.
      * by apply sublist_skip.
      * intros Hr. by rewrite Hall.
      * by eapply stable_trans.
      * rewrite Hperm2, Hperm. simpl. by rewrite <-Permutation_middle.
      * done.
    + apply insert_ordered_raises in Hio as (-> & _).
      exists []. split_and!; [apply sublist_nil_l| |apply stable_refl|done|done].
      simpl. by intros [? [=]].
Qed.

(** *** Replacement *)

Lemma items_set_nil d k sels :
  OD.get k d = Some sels → items (OD.set k [] d) = items (OD.del k d).
Proof.
  intros (d1 & d2 & -> & Hk)%ODFacts.get_Some_split.
  by rewrite ODFacts.set_middle, ODFacts.del_middle, items_middle, items_app.
Qed.

(** What [edit_selection] is once the position to edit resolves: the
    dictionary without the popped item, then the insertion. *)
Lemma edit_selection_resolved st k i value page_items pos :
  OD.get k (model st) = Some page_items →
  PyList.index page_items i = Some pos →
  let d1 := if decide (delete pos page_items = [])
            then OD.del k (model st)
            else OD.set k (delete pos page_items) (model st) in
  EditCmd.edit_selection st k i value true
  = match insert_ordered (State (heap st) d1) value None None with
    | (st1, inl _) =>
        let target_key := page (data (heap st1) value) in
        let st2 := _update_page_indexes st1 target_key in
        if decide (target_key ≠ k) then _update_page_indexes st2 k else st2
    | (st1, inr _) => st1
    end.
Proof.
  intros Hget Hpos. unfold EditCmd.edit_selection, PyList.pop.
  rewrite Hget. cbn [mbind option_bind]. rewrite Hpos. cbv beta iota zeta.
  assert ((if decide (Z.of_nat (length (delete pos page_items)) ≤ 0)
           then OD.del k (model st)
           else OD.set k (delete pos page_items) (model st))
          = (if decide (delete pos page_items = [])
             then OD.del k (model st)
             else OD.set k (delete pos page_items) (model st))) as ->; [|done].
  by destruct (delete pos page_items) as [|a l].
Qed.

(** [edit_selection] puts the replacement in the place of the popped
    item, or, when [insert_ordered] raises, only takes the item out. *)
Lemma edit_selection_spec st k i value page_items pos :
  NoDup (OD.keys (model st)) →
  OD.get k (model st) = Some page_items →
  PyList.index page_items i = Some pos →
  let st' := EditCmd.edit_selection st k i value true in
  stable (heap st) (heap st')
  ∧ ∃ news,
      news `sublist_of` [value]
      ∧ items (model st')
        ≡ₚ news ++ items (OD.set k (delete pos page_items) (model st)).
Proof.
  intros Hnd Hget Hpos.
  rewrite (edit_selection_resolved st k i value page_items pos) by done.
  set (d1 := if decide (delete pos page_items = [])
             then OD.del k (model st)
             else OD.set k (delete pos page_items) (model st)).
  assert (NoDup (OD.keys d1)
          ∧ items d1 = items (OD.set k (delete pos page_items) (model st)))
    as [Hnd1 Hitems].
  { unfold d1. case_decide as Hlen.
    - split; [by apply ODFacts.NoDup_keys_del|].
      rewrite Hlen. symmetry. by eapply items_set_nil.
    - split; [by apply ODFacts.NoDup_keys_set|done]. }
  destruct (insert_ordered (State (heap st) d1) value None None)
    as [st1 [ki|e]] eqn:Hio.
  - destruct (insert_ordered_spec (State (heap st) d1) _ _ _ _ _ Hnd1 Hio)
      as (Hst & Hperm & _).
    cbn [fst heap model] in *. rewrite Hitems in Hperm. cbv zeta.
    case_decide; cbn [heap model _update_page_indexes];
      (split; [|by exists [value]]).
    + eapply stable_trans; [exact Hst|].
      eapply stable_trans; [apply stable_update_from|].
      apply stable_update_from.
    + eapply stable_trans; [exact Hst|]. apply stable_update_from.
  - apply insert_ordered_raises in Hio as (-> & _). cbn [heap model].
    split; [apply stable_refl|]. exists []. split; [apply sublist_nil_l|].
    by rewrite Hitems.
Qed.

(** When the index of the replacement is one that [list.insert] takes on
    the page it goes to, the replacement is in the store afterwards. *)
Lemma edit_selection_inserts st k i value page_items pos :
  NoDup (OD.keys (model st)) →
  OD.get k (model st) = Some page_items →
  PyList.index page_items i = Some pos →
  (∀ sels, OD.get (page (data (heap st) value))
                  (if decide (delete pos page_items = [])
                   then OD.del k (model st)
                   else OD.set k (delete pos page_items) (model st))
           = Some sels →
           insertable sels (idx (data (heap st) value))) →
  let st' := EditCmd.edit_selection st k i value true in
  stable (heap st) (heap st')
  ∧ items (model st')
    ≡ₚ value :: items (OD.set k (delete pos page_items) (model st)).
Proof.
  intros Hnd Hget Hpos Hins.
  rewrite (edit_selection_resolved st k i value page_items pos) by done.
  set (d1 := if decide (delete pos page_items = [])
             then OD.del k (model st)
             else OD.set k (delete pos page_items) (model st)) in *.
  assert (NoDup (OD.keys d1)
          ∧ items d1 = items (OD.set k (delete pos page_items) (model st)))
    as [Hnd1 Hitems].
  { unfold d1. case_decide as Hlen.
    - split; [by apply ODFacts.NoDup_keys_del|].
      rewrite Hlen. symmetry. by eapply items_set_nil.
    - split; [by apply ODFacts.NoDup_keys_set|done]. }
  destruct (insert_ordered_returns (State (heap st) d1) value None None)
    as (st1 & ki & Hio); [done|].
  rewrite Hio.
  destruct (insert_ordered_spec (State (heap st) d1) _ _ _ _ _ Hnd1 Hio)
    as (Hst & Hperm & _).
  cbn [fst heap model] in *. rewrite Hitems in Hperm. cbv zeta.
  case_decide; cbn [heap model _update_page_indexes]; (split; [|done]).
  - eapply stable_trans; [exact Hst|].
    eapply stable_trans; [apply stable_update_from|].
    apply stable_update_from.
  - eapply stable_trans; [exact Hst|]. apply stable_update_from.
Qed.

Lemma getitem_Some {A} (l : list A) (i : Z) x :
  PyList.getitem l i = Some x → ∃ pos, PyList.index l i = Some pos.
Proof.
  unfold PyList.getitem. destruct (PyList.index l i) as [pos|]; [eauto|done].
Qed.

(** *** Moves *)

Lemma compute_inverse_stable h d editing inverse :
  stable h (MoveAllCmd._compute_inverse h d editing inverse).1.
Proof.
  revert h inverse. induction editing as [|e editing IH]; intros h inverse.
  - apply stable_refl.
  - cbn [MoveAllCmd._compute_inverse]. cbv zeta. case_decide; [|apply IH].
    unfold copy. rewrite write_app_new.
    eapply stable_trans; [apply stable_app|apply IH].
Qed.

Lemma pop_by_id_Some h s arr arr' :
  MoveAllCmd.pop_by_id h s arr = Some arr' →
  ∃ pre x post, arr = pre ++ x :: post ∧ arr' = pre ++ post
                ∧ id_ (data h x) = s.
Proof.
  revert arr'. induction arr as [|y arr IH]; intros arr'; simpl; [done|].
  case_decide as Hy.
  - intros [= <-]. by exists [], y, arr.
  - destruct (MoveAllCmd.pop_by_id h s arr) as [arr0|]; [|done].
    simpl. intros [= <-]. destruct (IH arr0) as (pre & x & post & -> & -> & Hx);
      [done|].
    by exists (y :: pre), x, post.
Qed.

Lemma pop_by_id_None h s arr :
  MoveAllCmd.pop_by_id h s arr = None → ∀ x, x ∈ arr → id_ (data h x) ≠ s.
Proof.
  induction arr as [|y arr IH]; simpl; [by intros _ x ?%elem_of_nil|].
  case_decide as Hy; [done|].
  destruct (MoveAllCmd.pop_by_id h s arr); [done|].
  intros _ x [->|Hx]%elem_of_cons; [done|]. by apply IH.
Qed.

Lemma foldl_update_page_indexes_spec st pages :
  stable (heap st) (heap (foldl _update_page_indexes st pages))
  ∧ model (foldl _update_page_indexes st pages) = model st.
Proof.
  revert st. induction pages as [|p pages IH]; intros st.
  - split; [apply stable_refl|done].
  - simpl. destruct (IH (_update_page_indexes st p)) as [Hst Hm].
    split; [|done]. eapply stable_trans; [|exact Hst].
    apply stable_update_page_indexes.
Qed.

Lemma insertions_spec h editing d pages :
  items (MoveAllCmd.insertions h editing d pages).1
  ≡ₚ (new_selection <$> editing) ++ items d.
Proof.
  revert d pages. induction editing as [|e editing IH]; intros d pages; [done|].
  cbn [MoveAllCmd.insertions]. cbv zeta.
  set (tgt := page (data h (new_selection e))).
  set (d1 := if OD.mem tgt d then d else OD.set tgt [] d).
  assert (items d1 = items d ∧ is_Some (OD.get tgt d1)) as [Hitems [arr Harr]].
  { unfold d1, OD.mem. case_bool_decide as Hm; [done|].
    assert (OD.get tgt d = None) as Hnone
      by (destruct (OD.get tgt d); [exfalso; eauto|done]).
    apply ODFacts.get_None in Hnone. rewrite ODFacts.set_fresh by done.
    split; [by rewrite items_app, (items_cons [] tgt []), app_nil_r|].
    rewrite ODFacts.get_app_fresh by done. simpl. rewrite decide_True by done.
    eauto. }
  rewrite IH, Harr. cbn [default from_option id fmap list_fmap].
  rewrite (items_set_present_perm d1 tgt arr) by done.
  assert (items d1 ≡ₚ arr ++ items (OD.set tgt [] d1)) as Hd1.
  { rewrite <-(items_set_present_perm d1 tgt arr arr) by done.
    by rewrite ODFacts.set_get_id. }
  rewrite insert_perm, <-Hitems, Hd1.
  simpl. by rewrite <-Permutation_middle.
Qed.
Lemma not_elem_of_ids_sublist h (s : string) l l' :
  l' `sublist_of` l → s ∉ ids_of h l → s ∉ ids_of h l'.
Proof.
  intros Hsub Hs Hin. apply Hs. eapply elem_of_sublist; [done|].
  by apply fmap_sublist.
Qed.

(** After the first loop of [_apply_edit] no record of the store carries
    the id of a replacement. *)
Lemma removals_spec h editing d pages :
  NoDup (ids_of h (items d)) →
  NoDup (ids_of h (new_selection <$> editing)) →
  (∀ e x, e ∈ editing → x ∈ items d →
     id_ (data h x) = id_ (data h (new_selection e)) →
     x ∈ default [] (OD.get (editing_page e) d)) →
  let d1 := (MoveAllCmd.removals h editing d pages).1 in
  items d1 `sublist_of` items d
  ∧ ∀ e, e ∈ editing → id_ (data h (new_selection e)) ∉ ids_of h (items d1).
Proof.
  revert d pages. induction editing as [|e editing IH];
    intros d pages Hnd Hnew Hpage.
  - split; [done|]. by intros e ?%elem_of_nil.
  - cbn [MoveAllCmd.removals]. cbv zeta.
    unfold ids_of in Hnew. rewrite !fmap_cons in Hnew.
    apply NoDup_cons in Hnew as [Hfresh Hnew'].
    destruct (MoveAllCmd.pop_by_id h (id_ (data h (new_selection e)))
                (default [] (OD.get (editing_page e) d))) as [arr'|] eqn:Hpop.
    + apply pop_by_id_Some in Hpop as (pre & x0 & post & Harr & -> & Hx0).
      assert (OD.get (editing_page e) d = Some (pre ++ x0 :: post)) as Hget.
      { destruct (OD.get (editing_page e) d); simpl in Harr;
          [by subst|by destruct pre]. }
      set (d' := OD.set (editing_page e) (pre ++ post) d).
      assert (items d' `sublist_of` items d) as Hsub.
      { eapply items_set_sublist; [done|].
        apply sublist_app; [done|]. by apply sublist_cons. }
      assert (id_ (data h x0) ∉ ids_of h (items d')) as Hx0fresh.
      { destruct (ODFacts.get_Some_split _ _ _ Hget) as (da & db & Hd & Hk).
        unfold d'. rewrite Hd in Hnd |- *.
        rewrite ODFacts.set_middle, items_middle by done.
        intros (x & Hx & Hin)%list_elem_of_fmap.
        eapply (unique_split _ _ _ _ _ _ _ Hnd); [|done].
        by rewrite <-!app_assoc in Hin. }
      destruct (IH d' (MoveAllCmd.add_page (editing_page e) pages))
        as [Hsub2 Hfresh2].
      * eapply sublist_NoDup; [exact Hnd|]. by apply fmap_sublist.
      * done.
      * intros e2 x He2 Hx Hid.
        assert (x ∈ default [] (OD.get (editing_page e2) d)) as Hin.
        { apply Hpage; [by right| |done]. by eapply elem_of_sublist. }
        unfold d'. destruct (decide (editing_page e2 = editing_page e)) as [Heq|Hne].
        -- rewrite Heq, ODFacts.get_set_eq. rewrite Heq, Hget in Hin.
           simpl in *. rewrite elem_of_app, elem_of_cons in Hin.
           rewrite elem_of_app. destruct Hin as [?|[->|?]]; [by left| |by right].
           exfalso. apply Hfresh. rewrite <-Hx0, Hid.
           apply list_elem_of_fmap. exists (new_selection e2). split; [done|].
           apply list_elem_of_fmap. by exists e2.
        -- by rewrite ODFacts.get_set_ne.
      * split; [by etrans|]. intros e1 [->|He1]%elem_of_cons; [|by apply Hfresh2].
        rewrite <-Hx0. by eapply not_elem_of_ids_sublist.
    + destruct (IH d pages) as [Hsub2 Hfresh2]; [done|done| |].
      * intros e2 x He2. apply Hpage. by right.
      * split; [done|]. intros e1 [->|He1]%elem_of_cons; [|by apply Hfresh2].
        eapply not_elem_of_ids_sublist; [done|].
        intros (x & Hx & Hin)%list_elem_of_fmap.
        eapply pop_by_id_None; [done| |done].
        apply Hpage; [by left|done|done].
Qed.
Lemma apply_edit_spec st editing :
  NoDup (ids_of (heap st) (items (model st))) →
  NoDup (ids_of (heap st) (new_selection <$> editing)) →
  (∀ e x, e ∈ editing → x ∈ items (model st) →
     id_ (data (heap st) x) = id_ (data (heap st) (new_selection e)) →
     x ∈ default [] (OD.get (editing_page e) (model st))) →
  let st' := MoveAllCmd._apply_edit st editing in
  ∃ l0,
    stable (heap st) (heap st')
    ∧ l0 `sublist_of` items (model st)
    ∧ items (model st') ≡ₚ (new_selection <$> editing) ++ l0
    ∧ ∀ x, x ∈ new_selection <$> editing →
           id_ (data (heap st) x) ∉ ids_of (heap st) l0.
Proof.
  intros Hnd Hnew Hpage. unfold MoveAllCmd._apply_edit.
  pose proof (removals_spec (heap st) editing (model st) [] Hnd Hnew Hpage)
    as Hrem.
  destruct (MoveAllCmd.removals (heap st) editing (model st) []) as [d1 pages1].
  cbn [fst] in Hrem. destruct Hrem as [Hsub Hfresh].
  pose proof (insertions_spec (heap st) editing d1 pages1) as Hins.
  destruct (MoveAllCmd.insertions (heap st) editing d1 pages1) as [d2 pages2].
  cbn [fst] in Hins. cbv zeta.
  destruct (foldl_update_page_indexes_spec (State (heap st) d2) pages2)
    as [Hst Hm].
  exists (items d1). split_and!; [done|done|by rewrite Hm|].
  intros x (e & -> & He)%list_elem_of_fmap. by apply Hfresh.
Qed.

(** C5, as the code has it. On a store with unique ids, whose items are
    allocated objects, a command leaves the ids unique when the ids of the
    records it inserts are new in the sense of [inserts_fresh_ids]. *)
Theorem push_keeps_ids_unique st c :
  uniqueness st →
  NoDup (OD.keys (model st)) →
  allocated st →
  Forall (λ x, (x < length (heap st))%nat) (cmd_items c) →
  inserts_fresh_ids st c →
  uniqueness (push st c).1.
Proof.
  unfold uniqueness, ids, allocated. fold (ids_of (heap st) (items (model st))).
  intros Hnd Hkeys Hal Hcmd Hfresh.
  assert (∀ st', ids_of (heap st') (items (model st'))
                 = (λ x, id_ (data (heap st') x)) <$> items (model st')) as Hids
    by done.
  destruct c as [v|vs append|v|vs|k i v|es];
    cbn [push cmd_items inserts_fresh_ids] in *; unfold ids in Hfresh;
    cbn [heap model] in Hfresh.
  - unfold InsertCmd.redo.
    destruct (insert_ordered st v None None) as [st' [ki|e]] eqn:Hio.
    + destruct (insert_ordered_spec _ _ _ _ _ _ Hkeys Hio) as (Hst & Hperm & _).
      cbn [fst] in *. rewrite <-Hids.
      eapply (NoDup_ids_after (heap st) _ (items (model st))
                (items (model st)) [v]); try done.
      * apply NoDup_singleton.
      * by intros x ->%list_elem_of_singleton.
    + by apply insert_ordered_raises in Hio as (-> & _).
  - destruct Hfresh as [Hnew Hfresh].
    pose proof (redo_loop_spec st vs append [] Hkeys) as Hio.
    unfold InsertAllCmd.redo.
    assert ((match InsertAllCmd.redo_loop st vs append [] with
             | (st', inl kis) => (st', inl (PInsertBatch kis))
             | (st', inr e) => (st', inr e)
             end).1 = (InsertAllCmd.redo_loop st vs append []).1) as ->
      by (by destruct (InsertAllCmd.redo_loop st vs append []) as [? [?|?]]).
    cbv zeta in Hio. destruct Hio as (news & Hsub & _ & Hst & Hperm & _).
    rewrite <-Hids.
    eapply (NoDup_ids_after (heap st) _ (items (model st))
              (items (model st)) news); try done.
    + rewrite Forall_forall in Hcmd |- *. intros x Hx. apply Hcmd.
      by eapply elem_of_sublist.
    + eapply sublist_NoDup; [exact Hnew|]. by apply fmap_sublist.
    + intros x Hx. apply Hfresh. by eapply elem_of_sublist.
  - pose proof (remove_spec st v Hkeys) as Hrm.
    destruct (RemoveCmd.redo st v) as [st' ch]. cbn [fst] in *.
    destruct Hrm as [Hst Hsub]. rewrite <-Hids.
    eapply (NoDup_ids_after (heap st) _ (items (model st))
              (items (model st')) []); try done.
    + constructor.
    + by intros x ?%elem_of_nil.
  - unfold RemoveAllCmd.redo, RemoveAllCmd.remove_selections. cbn [fst].
    destruct (pages_loop_spec st (model st)
                (list_to_set ((λ s, id_ (data (heap st) s)) <$> vs)) Hkeys
                (pages_of_self _ Hkeys)) as [Hst Hsub].
    rewrite <-Hids.
    eapply (NoDup_ids_after (heap st) _ (items (model st)) _ []);
      [done|done|done|exact Hsub|done|done|constructor|].
    by intros x ?%elem_of_nil.
  - unfold EditCmd.redo.
    destruct (OD.get k (model st)) as [page_items|] eqn:Hget; [|done].
    destruct (PyList.getitem page_items i) as [old|] eqn:Hold; [|done].
    destruct (getitem_Some _ _ _ Hold) as [pos Hpos].
    unfold copy. cbn [fst].
    set (st1 := State (heap st ++ [data (heap st) old]) (model st)).
    destruct (edit_selection_spec st1 k i v page_items pos Hkeys Hget Hpos)
      as (Hst & news & Hnews & Hperm).
    destruct (EditCmd.edit_selection st1 k i v true) as [h' d'] eqn:Hedit.
    cbn [fst heap model] in *.
    eapply (NoDup_ids_after (heap st) _ (items (model st))
              (items (OD.set k (delete pos page_items) (model st))) news);
      try done.
    + eapply stable_trans; [apply stable_app|exact Hst].
    + rewrite Forall_forall in Hcmd |- *. intros x Hx. apply Hcmd.
      by eapply elem_of_sublist.
    + eapply items_set_sublist; [done|apply sublist_delete].
    + eapply sublist_NoDup; [apply NoDup_singleton|].
      apply (fmap_sublist (λ x, id_ (data (heap st) x))) in Hnews.
      exact Hnews.
    + intros x Hx. apply (elem_of_sublist _ _ _ Hx) in Hnews.
      apply list_elem_of_singleton in Hnews as ->. by eapply Hfresh.
  - destruct Hfresh as [Hnew Hpage].
    unfold MoveAllCmd.init, MoveAllCmd.redo.
    pose proof (compute_inverse_stable (heap st) (model st) es []) as Hinv.
    destruct (MoveAllCmd._compute_inverse (heap st) (model st) es [])
      as [h1 inverse].
    cbn [fst] in *.
    assert (Forall (λ x, (x < length h1)%nat) (items (model st))) as Hal1.
    { eapply Forall_impl; [exact Hal|]. intros x Hx. destruct Hinv. simpl in *. lia. }
    assert (Forall (λ x, (x < length h1)%nat) (new_selection <$> es)) as Hcmd1.
    { eapply Forall_impl; [exact Hcmd|]. intros x Hx. destruct Hinv. simpl in *. lia. }
    assert (∀ x, (x < length (heap st))%nat →
                 id_ (data h1 x) = id_ (data (heap st) x)) as Hid1
      by (by destruct Hinv).
    destruct (apply_edit_spec (State h1 (model st)) es)
      as (l0 & Hst & Hsub & Hperm & Hfr); cbn [heap model].
    + by rewrite (ids_of_stable (heap st) h1).
    + by rewrite (ids_of_stable (heap st) h1).
    + intros e x He Hx. rewrite !Hid1.
      * by apply Hpage.
      * rewrite Forall_forall in Hcmd. apply Hcmd.
        apply list_elem_of_fmap. by exists e.
      * rewrite Forall_forall in Hal. by apply Hal.
    + cbn [heap model] in *.
      eapply (NoDup_ids_after h1 _ (items (model st)) l0 (new_selection <$> es));
        try done.
      * by rewrite (ids_of_stable (heap st) h1).
      * by rewrite (ids_of_stable (heap st) h1).
Qed.

Lemma push_keeps_ids_unique_witness :
  uniqueness (push orphan_store (Insert 0%nat)).1.
Proof.
  apply push_keeps_ids_unique.
  - apply (bool_decide_unpack _). by vm_compute.
  - apply (bool_decide_unpack _). by vm_compute.
  - apply (bool_decide_unpack _). by vm_compute.
  - apply (bool_decide_unpack _). by vm_compute.
  - apply (bool_decide_unpack _). by vm_compute.
Defined.
End uniqueness.

(** ** What a lookup by id returns *)

Section lookup.
Implicit Types (h : list SelectionData) (d : list (Z * list loc))
  (sels : list loc) (s : string).

Lemma find_in_page_Some h s sels n i l :
  find_in_page h s sels n = Some (i, l) →
  ∃ j, i = (n + j)%nat ∧ sels !! j = Some l ∧ id_ (data h l) = s
       ∧ ∀ x, x ∈ take j sels → id_ (data h x) ≠ s.
Proof.
  revert n. induction sels as [|a sels IH]; intros n; simpl; [done|].
  destruct (decide (id_ (data h a) = s)) as [Ha|Ha].
  - intros [= <- <-]. exists 0%nat. split_and!; [lia|done|done|].
    simpl. by intros x ?%elem_of_nil.
  - intros (j & -> & Hj & Hid & Hfirst)%IH. exists (S j).
    split_and!; [lia|done|done|].
    simpl. intros x [->|Hx]%elem_of_cons; auto.
Qed.

(** X1. [find_selection_by_id] returns the first item with the id, pages
    taken in dictionary order, with the page and the position it is at in
    the dictionary; it returns [None] exactly when no item of the store has
    the id. *)
Theorem find_selection_by_id_first h d s :
  match find_selection_by_id h d s with
  | Some (p, i, l) =>
      ∃ d1 sels d2,
        d = d1 ++ (p, sels) :: d2 ∧ sels !! i = Some l ∧ id_ (data h l) = s
        ∧ ∀ x, x ∈ (items d1 ++ take i sels) → id_ (data h x) ≠ s
  | None => s ∉ ids (State h d)
  end.
Proof.
  induction d as [|[k sels] d IH]; simpl.
  - unfold ids. simpl. apply not_elem_of_nil.
  - destruct (find_in_page h s sels 0) as [[i l]|] eqn:Hpage.
    + apply find_in_page_Some in Hpage as (j & -> & Hj & Hid & Hfirst).
      exists [], sels, d. split_and!; try done.
    + pose proof (find_in_page_None_inv _ _ _ _ Hpage) as Hnone.
      destruct (find_selection_by_id h d s) as [[[p i] l]|] eqn:Hrest.
      * destruct IH as (d1 & sels' & d2 & -> & Hi & Hid & Hfirst).
        exists ((k, sels) :: d1), sels', d2. split_and!; try done.
        intros x. rewrite items_cons, <-(assoc_L (++)).
        intros [Hx|Hx]%elem_of_app; auto.
      * unfold ids in *. simpl in *. rewrite items_cons, fmap_app.
        intros [(x & Hx & Hin)%list_elem_of_fmap|Hx]%elem_of_app; [|done].
        by apply (Hnone x).
Qed.
End lookup.

(** ** The dictionary from ids to data *)

Section id_lookup.
Implicit Types (h : list SelectionData) (d : list (Z * list loc))
  (l : loc) (s : string) (m : gmap string SelectionData).

Lemma foldl_lookup_fresh h m (ls : list loc) s :
  (∀ x, x ∈ ls → id_ (data h x) ≠ s) →
  foldl (λ id_lookup x, <[id_ (data h x) := data h x]> id_lookup) m ls !! s
  = m !! s.
Proof.
  revert m. induction ls as [|a ls IH]; intros m Hfresh; simpl; [done|].
  rewrite IH by (intros x Hx; apply Hfresh; by right).
  apply lookup_insert_ne. apply Hfresh. by left.
Qed.

Lemma foldl_lookup_dom h m (ls : list loc) s :
  is_Some (foldl (λ id_lookup x, <[id_ (data h x) := data h x]> id_lookup) m ls
           !! s)
  ↔ is_Some (m !! s) ∨ s ∈ (λ x, id_ (data h x)) <$> ls.
Proof.
  revert m. induction ls as [|a ls IH]; intros m; simpl.
  - rewrite elem_of_nil. tauto.
  - rewrite IH, elem_of_cons.
    destruct (decide (id_ (data h a) = s)) as [<-|Hne].
    + rewrite lookup_insert_eq. split; [tauto|]. intros _. left. by eexists.
    + rewrite lookup_insert_ne by done. split; intros; intuition congruence.
Qed.

(** X2. The keys of [build_id_lookup] are the ids of the store, and an id
    is mapped to the data of the last item that carries it, in dictionary
    order. *)
Theorem build_id_lookup_last h d :
  (∀ s, is_Some (build_id_lookup h d !! s) ↔ s ∈ ids (State h d))
  ∧ ∀ pre l post,
      items d = pre ++ l :: post →
      (∀ x, x ∈ post → id_ (data h x) ≠ id_ (data h l)) →
      build_id_lookup h d !! id_ (data h l) = Some (data h l).
Proof.
  unfold build_id_lookup, ids. simpl. split.
  - intros s. rewrite foldl_lookup_dom, lookup_empty.
    split; [intros [[? [=]]|]; done|auto].
  - intros pre l post -> Hpost.
    rewrite foldl_app. simpl. rewrite foldl_lookup_fresh by done.
    apply lookup_insert_eq.
Qed.

Lemma build_id_lookup_last_witness :
  build_id_lookup (heap duplicate_id) [(1, [0%nat; 1%nat])] !! "Ann"
  = Some (selection "Ann" 1 1 None []).
Proof.
  apply (proj2 (build_id_lookup_last (heap duplicate_id) [(1, [0%nat; 1%nat])])
           [0%nat] 1%nat []); [reflexivity|].
  intros x Hx. by apply elem_of_nil in Hx.
Defined.

(** X3. When no two items of the store have the same id, the item that
    [find_selection_by_id] returns is the one whose data [build_id_lookup]
    holds under that id. *)
Theorem find_selection_by_id_agrees_with_lookup h d s p i l :
  NoDup (ids (State h d)) →
  find_selection_by_id h d s = Some (p, i, l) →
  build_id_lookup h d !! s = Some (data h l).
Proof.
  intros Hnodup Hfind.
  pose proof (find_selection_by_id_first h d s) as Hfirst.
  rewrite Hfind in Hfirst.
  destruct Hfirst as (d1 & sels & d2 & -> & Hi & <- & _).
  apply take_drop_middle in Hi.
  apply (proj2 (build_id_lookup_last h (d1 ++ (p, sels) :: d2))
           (items d1 ++ take i sels) l (drop (S i) sels ++ items d2)).
  - rewrite items_middle, <-Hi at 1. by rewrite <-!(assoc_L (++)).
  - intros x Hx. revert Hnodup. unfold ids. simpl.
    rewrite items_middle, <-Hi, <-!(assoc_L (++)), (assoc_L (++) (items d1)).
    rewrite fmap_app. simpl. intros [_ [_ Hnd]]%NoDup_app.
    apply NoDup_cons in Hnd as [Hnotin _]. intros Heq. apply Hnotin.
    rewrite <-Heq. apply list_elem_of_fmap. eauto.
Qed.

Lemma find_selection_by_id_agrees_with_lookup_witness :
  build_id_lookup (heap family) (model family) !! "C"
  = Some (data (heap family) 2%nat).
Proof.
  apply (find_selection_by_id_agrees_with_lookup _ _ "C" 2 0%nat 2%nat).
  - apply (bool_decide_unpack _). vm_compute. reflexivity.
  - reflexivity.
Defined.
End id_lookup.

(** ** Re-indexing a page *)

Section reindex.
Implicit Types (st : state) (h : list SelectionData) (d : list (Z * list loc))
  (l : loc) (sels : list loc).

Lemma indexed_from_intro h p cnt sels :
  (∀ j l, sels !! j = Some l →
          page (data h l) = p ∧ idx (data h l) = Z.of_nat (cnt + j)) →
  indexed_from h p cnt sels.
Proof.
  revert cnt. induction sels as [|a sels IH]; intros cnt H; simpl; [done|].
  destruct (H 0%nat a eq_refl) as [Hp Hi]. rewrite Nat.add_0_r in Hi.
  split_and!; [done|done|]. apply IH. intros j l Hj.
  destruct (H (S j) l Hj) as [? Hi']. split; [done|]. rewrite Hi'. f_equal. lia.
Qed.

Lemma indexed_from_ext h h' p cnt sels :
  (∀ l, l ∈ sels → data h' l = data h l) →
  indexed_from h p cnt sels → indexed_from h' p cnt sels.
Proof.
  revert cnt. induction sels as [|a sels IH]; intros cnt Hext; simpl; [done|].
  intros (Hp & Hi & Hrest). rewrite Hext by (by left).
  split_and!; [done|done|]. apply IH; [|done]. intros l Hl. apply Hext. by right.
Qed.

Lemma update_from_indexed h p cnt sels :
  NoDup sels → Forall (λ l, (l < length h)%nat) sels →
  indexed_from (update_from h p cnt sels) p cnt sels.
Proof.
  intros Hnd Halloc. apply indexed_from_intro. intros j l Hj.
  rewrite (update_from_lookup h p cnt sels j l); [done|done|done|].
  rewrite Forall_forall in Halloc. apply Halloc. by eapply list_elem_of_lookup_2.
Qed.

(** X4. [_update_page_indexes] leaves the dictionary as it is and, on a
    page that holds allocated items, none of them twice, makes every item
    of the page carry the page number and its position; it writes nothing
    but the [page] and [idx] fields, and nothing at all into an item that
    is not on the page. A page without key is no page to update. *)
Theorem update_page_indexes_indexes_page st p :
  let st' := _update_page_indexes st p in
  model st' = model st
  ∧ (∀ l k i, set_idx i (set_page k (data (heap st') l))
              = set_idx i (set_page k (data (heap st) l)))
  ∧ match OD.get p (model st) with
    | None => st' = st
    | Some sels =>
        (∀ l, l ∉ sels → data (heap st') l = data (heap st) l)
        ∧ (NoDup sels → Forall (λ l, (l < length (heap st))%nat) sels →
           indexed_from (heap st') p 0 sels)
    end.
Proof.
  intros st'. subst st'. unfold _update_page_indexes. simpl.
  split_and!; [done|intros; apply update_from_mod_pos|].
  destruct (OD.get p (model st)) as [sels|]; simpl.
  - split; [intros; by apply update_from_other|apply update_from_indexed].
  - by destruct st.
Qed.

Lemma update_page_indexes_indexes_page_witness :
  indexed_from
    (heap (_update_page_indexes
             (State [selection "B" 1 1 None []; selection "C" 4 (-1) None []]
                    [(1, [0%nat; 1%nat])]) 1))
    1 0 [0%nat; 1%nat].
Proof.
  apply (proj2 (proj2 (proj2 (update_page_indexes_indexes_page
           (State [selection "B" 1 1 None []; selection "C" 4 (-1) None []]
                  [(1, [0%nat; 1%nat])]) 1)))).
  - apply (bool_decide_unpack _). vm_compute. reflexivity.
  - apply (bool_decide_unpack _). vm_compute. reflexivity.
Defined.

Lemma items_disjoint d k sels k' sels' x :
  NoDup (OD.keys d) → NoDup (items d) →
  (k, sels) ∈ d → (k', sels') ∈ d → k ≠ k' → x ∈ sels → x ∉ sels'.
Proof.
  intros Hkeys Hnd Hk Hk' Hne Hx Hx'.
  apply list_elem_of_split in Hk as (d1 & d2 & ->).
  rewrite items_middle in Hnd.
  apply NoDup_app in Hnd as (_ & Hd1 & Hnd).
  apply NoDup_app in Hnd as (_ & Hd2 & _).
  apply elem_of_app in Hk' as [Hk'|Hk'].
  - apply (Hd1 x); [|apply elem_of_app; by left].
    apply elem_of_items. eauto.
  - apply elem_of_cons in Hk' as [[=]|Hk']; [done|].
    apply (Hd2 x); [done|]. apply elem_of_items. eauto.
Qed.

Lemma foldl_update_page_indexes_indexed st (ks : list Z) :
  NoDup (OD.keys (model st)) → NoDup (items (model st)) → allocated st →
  let st' := foldl _update_page_indexes st ks in
  model st' = model st
  ∧ length (heap st') = length (heap st)
  ∧ ∀ k sels, k ∈ ks → (k, sels) ∈ model st →
              indexed_from (heap st') k 0 sels.
Proof.
  intros Hkeys Hnd Halloc. induction ks as [|k ks IH] using rev_ind; simpl.
  - split_and!; [done|done|]. by intros k sels ?%elem_of_nil.
  - rewrite foldl_app. simpl. destruct IH as (Hmodel & Hlen & IH).
    set (st1 := foldl _update_page_indexes st ks) in *.
    rewrite Hmodel.
    split_and!; [done|by rewrite update_from_length|].
    intros k' sels' [Hk'|Hk']%elem_of_app Hin;
      [|apply list_elem_of_singleton in Hk' as ->].
    + destruct (decide (k' = k)) as [->|Hne].
      * rewrite (ODFacts.get_elem _ _ _ Hkeys Hin). simpl.
        apply update_from_indexed.
        -- apply list_elem_of_split in Hin as (d1 & d2 & Hd).
           rewrite Hd, items_middle in Hnd.
           by apply NoDup_app in Hnd as (_ & _ & [? _]%NoDup_app).
        -- rewrite Hlen. unfold allocated in Halloc.
           rewrite Forall_forall in Halloc |- *. intros x Hx. apply Halloc.
           apply elem_of_items. eauto.
      * apply (indexed_from_ext (heap st1)); [|by apply IH].
        intros l Hl. apply update_from_other.
        destruct (OD.get k (model st)) as [sels|] eqn:Hget; simpl;
          [|apply not_elem_of_nil].
        apply ODFacts.get_Some_elem in Hget.
        by apply (items_disjoint (model st) k' sels' k sels l).
    + rewrite (ODFacts.get_elem _ _ _ Hkeys Hin). simpl.
      apply update_from_indexed.
      * apply list_elem_of_split in Hin as (d1 & d2 & Hd).
        rewrite Hd, items_middle in Hnd.
        by apply NoDup_app in Hnd as (_ & _ & [? _]%NoDup_app).
      * rewrite Hlen. unfold allocated in Halloc.
        rewrite Forall_forall in Halloc |- *. intros x Hx. apply Halloc.
        apply elem_of_items. eauto.
Qed.

(** X5. [_update_all_indexes] makes the store contiguous: when its items
    are allocated objects and no object is at two positions, afterwards
    every item carries its page and its position. The dictionary is left as
    it is. *)
Theorem update_all_indexes_contiguity st :
  NoDup (OD.keys (model st)) → NoDup (items (model st)) → allocated st →
  model (_update_all_indexes st) = model st
  ∧ contiguity (_update_all_indexes st).
Proof.
  intros Hkeys Hnd Halloc. unfold _update_all_indexes, contiguity.
  destruct (foldl_update_page_indexes_indexed st (OD.keys (model st)))
    as (Hmodel & _ & Hind); [done..|].
  split; [done|]. rewrite Hmodel. apply Forall_forall. intros [k sels] Hin.
  apply Hind; [|done]. unfold OD.keys. apply list_elem_of_fmap. by exists (k, sels).
Qed.

Lemma update_all_indexes_contiguity_witness :
  contiguity
    (_update_all_indexes
       (State [selection "B" 1 1 None []; selection "C" 4 (-1) None []]
              [(1, [1%nat]); (2, [0%nat])])).
Proof.
  apply update_all_indexes_contiguity.
  - apply (bool_decide_unpack _). vm_compute. reflexivity.
  - apply (bool_decide_unpack _). vm_compute. reflexivity.
  - apply (bool_decide_unpack _). vm_compute. reflexivity.
Defined.
End reindex.

(** ** Invariants of the dictionary kept by every command but [MoveAllCmd]

    Apart from [MoveAllCmd._apply_edit], the commands change the dictionary
    in three ways only: a present key gets a list that is not empty, a key
    is deleted, or a new key with one item is put in sorted position. A
    property of dictionaries that these three steps keep is kept by the
    commands and by their undos. *)

Section dictionary_invariant.
Implicit Types (st : state) (h : list SelectionData) (d : list (Z * list loc)).
Variable Q : list (Z * list loc) → Prop.
Hypothesis Q_keys : ∀ d, Q d → NoDup (OD.keys d).
Hypothesis Q_set :
  ∀ d k v, Q d → is_Some (OD.get k d) → v ≠ [] → Q (OD.set k v d).
Hypothesis Q_del : ∀ d k, Q d → Q (OD.del k d).
Hypothesis Q_new :
  ∀ d k x, Q d → OD.get k d = None →
    Q (filter (λ kv, kv.1 < k) d ++ (k, [x]) :: filter (λ kv, k < kv.1) d).

Lemma kept_insert_ordered st value o_key o_idx :
  Q (model st) → Q (model (insert_ordered st value o_key o_idx).1).
Proof.
  intros HQ.
  destruct (OD.get (default (page (data (heap st) value)) o_key) (model st))
    as [page_items|] eqn:Hget.
  - rewrite (insert_ordered_present st value o_key o_idx page_items Hget).
    destruct (decide _); [|done]. simpl.
    apply Q_set; [done|by rewrite Hget|].
    intros Hnil.
    pose proof (inserted_perm page_items
                  (default (idx (data (heap st) value)) o_idx) value) as Hperm.
    rewrite Hnil in Hperm. by apply Permutation_nil_cons in Hperm.
  - rewrite insert_ordered_new_key by auto. simpl. by apply Q_new.
Qed.

Lemma kept_undo_insert_ordered st k i :
  Q (model st) → Q (model (undo_insert_ordered st k i).1).
Proof.
  intros HQ. unfold undo_insert_ordered.
  destruct (OD.get k (model st)) as [page_items|] eqn:Hget; [|done].
  destruct (PyList.pop page_items i) as [page_items'|e]; [|by destruct e].
  simpl.
  destruct (decide (page_items' = [])); [by apply Q_del|].
  apply Q_set; [done|by rewrite Hget|done].
Qed.

Lemma kept_redo_loop st values append acc :
  Q (model st) → Q (model (InsertAllCmd.redo_loop st values append acc).1).
Proof.
  revert st acc. induction values as [|v values IH]; intros st acc HQ; [done|].
  simpl.
  pose proof (kept_insert_ordered st v None
                (Some (if append then -1 else idx (data (heap st) v))) HQ)
    as HQ'.
  destruct (insert_ordered st v None
              (Some (if append then -1 else idx (data (heap st) v))))
    as [st' [ki|e]]; [|done].
  by apply IH.
Qed.

Lemma kept_undo_loop st kis :
  Q (model st) → Q (model (InsertAllCmd.undo_loop st kis).1).
Proof.
  revert st. induction kis as [|[k i] kis IH]; intros st HQ; [done|]. simpl.
  pose proof (kept_undo_insert_ordered st k i HQ) as HQ'.
  destruct (undo_insert_ordered st k i) as [st' [e|]]; [done|]. by apply IH.
Qed.

Lemma kept_remove_scan h s pages d :
  Q d → pages_of pages d → Q (RemoveCmd.remove_scan h s pages d).1.
Proof.
  revert d. induction pages as [|[page page_items] pages IH]; intros d HQ Hpages;
    [done|].
  simpl. destruct (find_in_page h s page_items 0) as [[i sel]|].
  - destruct (decide (PyList.remove sel page_items = [])).
    + apply IH; [by apply Q_del|]. eapply pages_of_tail; [done|].
      intros k' Hk'. by apply ODFacts.get_del_ne.
    + simpl. apply Q_set; [done| |done].
      destruct Hpages as [_ Hpages]. rewrite (Hpages page page_items); [done|].
      by left.
  - apply IH; [done|]. by eapply pages_of_tail.
Qed.

Lemma kept_remove st value :
  Q (model st) → Q (model (RemoveCmd.redo st value).1).
Proof.
  intros HQ. unfold RemoveCmd.redo, RemoveCmd.remove_and_relink_children.
  destruct (RemoveCmd.relink _ _ _ _ _) as [h relinked].
  pose proof (kept_remove_scan h (id_ (data (heap st) value)) (model st)
                (model st) HQ (pages_of_self _ (Q_keys _ HQ))) as HQ'.
  destruct (RemoveCmd.remove_scan _ _ _ _) as [d [p|]]; done.
Qed.

Lemma kept_page_loop h page snapshot page_items d to_remove removed :
  Q d →
  OD.get page d = Some page_items
  ∨ (page_items = [] ∧ OD.get page d = None) →
  Q match RemoveAllCmd.page_loop h page snapshot page_items d
            to_remove removed with
    | inl d' => d'
    | inr (d', _, _) => d'
    end.
Proof.
  revert page_items d to_remove removed.
  induction snapshot as [|sel snapshot IH];
    intros page_items d to_remove removed HQ Hpage; [done|].
  simpl. destruct (decide (id_ (data h sel) ∈ to_remove)); [|by apply IH].
  assert (Q (if decide (PyList.remove sel page_items = [])
             then OD.del page d
             else OD.set page (PyList.remove sel page_items) d)) as HQ'.
  { destruct (decide (PyList.remove sel page_items = [])) as [|Hne];
      [by apply Q_del|].
    apply Q_set; [done| |done].
    destruct Hpage as [->|[-> _]]; [done|]. by destruct Hne. }
  destruct (decide (size (to_remove ∖ {[id_ (data h sel)]}) ≤ 0)%nat); [done|].
  apply IH; [done|].
  destruct (decide (PyList.remove sel page_items = [])) as [Hnil|Hne].
  - right. split; [done|]. apply ODFacts.get_del_eq. by apply Q_keys.
  - left. apply ODFacts.get_set_eq.
Qed.

Lemma kept_pages_loop st pages to_remove :
  Q (model st) → pages_of pages (model st) →
  Q (model (RemoveAllCmd.pages_loop st pages to_remove)).
Proof.
  revert st to_remove.
  induction pages as [|[page page_items] pages IH];
    intros st to_remove HQ Hpages; [done|].
  simpl.
  assert (OD.get page (model st) = Some page_items) as Hget.
  { destruct Hpages as [_ Hpages]. apply Hpages. by left. }
  pose proof (kept_page_loop (heap st) page page_items page_items (model st)
                to_remove false HQ (or_introl Hget)) as HQ'.
  pose proof (page_loop_spec (heap st) page page_items page_items (model st)
                to_remove false (Q_keys _ HQ) (or_introl Hget))
    as (_ & _ & Hother).
  destruct (RemoveAllCmd.page_loop _ _ _ _ _ _ _) as [d'|[[d' to_remove'] removed]];
    [done|].
  apply IH.
  - by destruct removed.
  - assert (pages_of pages d') by (by eapply pages_of_tail).
    by destruct removed.
Qed.

Lemma kept_edit_selection st k i value replace :
  Q (model st) → Q (model (EditCmd.edit_selection st k i value replace)).
Proof.
  intros HQ. unfold EditCmd.edit_selection.
  assert (∀ d, Q d →
            Q (model
                 match insert_ordered (State (heap st) d) value None None with
                 | (st1, inl _) =>
                     let target_key := page (data (heap st1) value) in
                     let st2 := _update_page_indexes st1 target_key in
                     if decide (target_key ≠ k)
                     then _update_page_indexes st2 k else st2
                 | (st1, inr _) => st1
                 end)) as Hins.
  { intros d Hd.
    pose proof (kept_insert_ordered (State (heap st) d) value None None Hd).
    destruct (insert_ordered (State (heap st) d) value None None)
      as [st1 [ki|e]]; [|done].
    simpl. by destruct (decide _). }
  destruct replace; [|by apply Hins].
  destruct (OD.get k (model st)) as [page_items|] eqn:Hget; [|done]. simpl.
  destruct (PyList.pop page_items i) as [page_items'|e]; [|done].
  apply Hins. destruct (decide (Z.of_nat (length page_items') ≤ 0));
    [by apply Q_del|].
  apply Q_set; [done|by rewrite Hget|]. intros ->. simpl in *. lia.
Qed.

Lemma kept_remove_undo st value node_children :
  Q (model st) → Q (model (RemoveCmd.undo st value node_children).1).
Proof.
  intros HQ. unfold RemoveCmd.undo.
  pose proof (kept_insert_ordered st value None None HQ) as HQ'.
  by destruct (insert_ordered st value None None) as [st' [ki|e]].
Qed.

Lemma kept_remove_all_undo st (values : list loc) :
  Q (model st) → Q (model (RemoveAllCmd.undo st values).1).
Proof.
  revert st. induction values as [|v values IH]; intros st HQ; [done|].
  simpl. pose proof (kept_insert_ordered st v None None HQ) as HQ'.
  destruct (insert_ordered st v None None) as [st' [ki|e]]; [|done].
  by apply IH.
Qed.

Lemma kept_push st c :
  ¬ is_move c → Q (model st) → Q (model (push st c).1).
Proof.
  intros Hc HQ. destruct c as [v|vs a|v|vs|k i v|e]; simpl.
  - pose proof (kept_insert_ordered st v None None HQ).
    unfold InsertCmd.redo.
    by destruct (insert_ordered st v None None) as [? [?|?]].
  - pose proof (kept_redo_loop st vs a [] HQ).
    unfold InsertAllCmd.redo.
    by destruct (InsertAllCmd.redo_loop st vs a []) as [? [?|?]].
  - pose proof (kept_remove st v HQ). by destruct (RemoveCmd.redo st v).
  - apply kept_pages_loop; [done|]. apply pages_of_self. by apply Q_keys.
  - unfold EditCmd.redo. destruct (OD.get k (model st)) as [page_items|]; [|done].
    destruct (PyList.getitem page_items i) as [old|]; [|done]. simpl.
    by apply kept_edit_selection.
  - by destruct Hc.
Qed.

Lemma kept_undo st p :
  ¬ is_move_pushed p → Q (model st) → Q (model (undo st p).1).
Proof.
  intros Hp HQ. destruct p as [ki|kis|v ch|vs|v old|inv]; simpl.
  - by apply kept_undo_insert_ordered.
  - by apply kept_undo_loop.
  - by apply kept_remove_undo.
  - by apply kept_remove_all_undo.
  - by apply kept_edit_selection.
  - by destruct Hp.
Qed.

Lemma push_not_move st c :
  ¬ is_move c →
  match (push st c).2 with inl p => ¬ is_move_pushed p | inr _ => True end.
Proof.
  intros Hc. destruct c as [v|vs a|v|vs|k i v|e]; simpl.
  - by destruct (InsertCmd.redo st v) as [? [?|?]]; [intros []|].
  - by destruct (InsertAllCmd.redo st vs a) as [? [?|?]]; [intros []|].
  - by destruct (RemoveCmd.redo st v).
  - by intros [].
  - by destruct (EditCmd.redo st k i v) as [? [?|?]]; [intros []|].
  - by destruct Hc.
Qed.

Lemma kept_run h ops :
  Q [] → pushes_no_move ops → Q (model (run h ops)).
Proof.
  intros Hnil Hops. unfold run.
  assert (∀ s : state * list Pushed,
            Q (model s.1) → Forall (λ p, ¬ is_move_pushed p) s.2 →
            Q (model (foldl step s ops).1)) as Hinv.
  { induction Hops as [|o ops Ho Hops IH]; intros [st stack] HQ Hstack; [done|].
    simpl foldl. apply IH.
    - destruct o as [c|]; simpl in *.
      + pose proof (kept_push st c Ho HQ).
        by destruct (push st c) as [st' [p|e]].
      + destruct stack as [|p stack]; [done|]. simpl.
        apply kept_undo; [|done]. by apply Forall_cons in Hstack as [? _].
    - destruct o as [c|]; simpl in *.
      + pose proof (push_not_move st c Ho).
        destruct (push st c) as [st' [p|e]]; simpl in *; [|done].
        by apply Forall_cons.
      + destruct stack as [|p stack]; [done|]. simpl.
        by apply Forall_cons in Hstack as [_ ?]. }
  by apply (Hinv (State h [], [])).
Qed.
End dictionary_invariant.

Section kept_invariants.
Implicit Types (st : state) (d : list (Z * list loc)).

Lemma Forall_OD_set {V} (P : Z * V → Prop) k v (d : list (Z * V)) :
  Forall P d → P (k, v) → Forall P (OD.set k v d).
Proof.
  intros Hd Hv. induction Hd as [|[k' v'] d Hkv Hd IH]; simpl.
  - by constructor.
  - destruct (decide (k = k')); by constructor.
Qed.

Lemma Forall_OD_del {V} (P : Z * V → Prop) k (d : list (Z * V)) :
  Forall P d → Forall P (OD.del k d).
Proof.
  intros Hd. induction Hd as [|[k' v'] d Hkv Hd IH]; simpl; [done|].
  destruct (decide (k = k')); [done|by constructor].
Qed.

Lemma StronglySorted_sublist {A} (R : relation A) (l l' : list A) :
  l' `sublist_of` l → StronglySorted R l → StronglySorted R l'.
Proof.
  induction 1 as [|x l1 l2 Hsub IH|x l1 l2 Hsub IH];
    rewrite ?StronglySorted_cons; [done| |].
  - intros [Hall Hsorted]. split; [|by apply IH].
    rewrite Forall_forall in Hall |- *. intros y Hy. apply Hall.
    by eapply elem_of_sublist.
  - intros [_ Hsorted]. by apply IH.
Qed.

Lemma NoDup_keys_new {V} k (v : V) (d : list (Z * V)) :
  NoDup (OD.keys d) → OD.get k d = None →
  NoDup (OD.keys (filter (λ kv, kv.1 < k) d ++ (k, v) :: filter (λ kv, k < kv.1) d)).
Proof.
  intros Hnd Hget%ODFacts.get_None.
  rewrite ODFacts.keys_app. unfold OD.keys in *. simpl.
  rewrite keys_filter_below, keys_filter_above.
  apply NoDup_app. split_and!.
  - by apply NoDup_filter.
  - intros x [Hx _]%list_elem_of_filter [->|[? _]%list_elem_of_filter]%elem_of_cons;
      lia.
  - apply NoDup_cons. split; [|by apply NoDup_filter].
    intros [Hlt _]%list_elem_of_filter. lia.
Qed.

(** X6. A key of the dictionary never holds an empty list after a command
    other than [MoveAllCmd], nor after its undo: whatever the store was,
    [InsertCmd], [InsertAllCmd], [RemoveCmd], [RemoveAllCmd] and [EditCmd]
    keep the invariant, and so every session that starts from the empty
    store and pushes no [MoveAllCmd] ends in a store that satisfies it. *)
Theorem page_key_presence_kept :
  (∀ st c, ¬ is_move c → NoDup (OD.keys (model st)) → page_key_presence st →
           page_key_presence (push st c).1)
  ∧ (∀ st p, ¬ is_move_pushed p → NoDup (OD.keys (model st)) →
             page_key_presence st → page_key_presence (undo st p).1)
  ∧ ∀ h ops, pushes_no_move ops → page_key_presence (run h ops).
Proof.
  set (Q := λ d : list (Z * list loc),
              NoDup (OD.keys d) ∧ Forall (λ kv : Z * list loc, kv.2 ≠ []) d).
  assert (∀ d, Q d → NoDup (OD.keys d)) as Q_keys by (by intros d [? _]).
  assert (∀ d k v, Q d → is_Some (OD.get k d) → v ≠ [] → Q (OD.set k v d))
    as Q_set.
  { intros d k v [Hnd Hall] _ Hv. split; [by apply ODFacts.NoDup_keys_set|].
    by apply Forall_OD_set. }
  assert (∀ d k, Q d → Q (OD.del k d)) as Q_del.
  { intros d k [Hnd Hall]. split; [by apply ODFacts.NoDup_keys_del|].
    by apply Forall_OD_del. }
  assert (∀ d k (x : loc), Q d → OD.get k d = None →
            Q (filter (λ kv, kv.1 < k) d ++ (k, [x]) :: filter (λ kv, k < kv.1) d))
    as Q_new.
  { intros d k x [Hnd Hall] Hget. split; [by apply NoDup_keys_new|].
    apply Forall_app. split; [by apply Forall_filter_of|].
    constructor; [done|by apply Forall_filter_of]. }
  split_and!.
  - intros st c Hc Hnd Hall.
    by apply (kept_push Q Q_keys Q_set Q_del Q_new st c Hc (conj Hnd Hall)).
  - intros st p Hp Hnd Hall.
    by apply (kept_undo Q Q_keys Q_set Q_del Q_new st p Hp (conj Hnd Hall)).
  - intros h ops Hops.
    apply (kept_run Q Q_keys Q_set Q_del Q_new h ops); [|done].
    split; constructor.
Qed.

Lemma page_key_presence_kept_witness :
  page_key_presence (push drag_to_page_2 (Edit 1 0 2%nat)).1
  ∧ page_key_presence
      (run two_on_page_1 [Do (Insert 0%nat); Do (Remove 0%nat); Undo]).
Proof.
  split.
  - apply (proj1 page_key_presence_kept).
    + simpl. tauto.
    + apply (bool_decide_unpack _). vm_compute. reflexivity.
    + apply (bool_decide_unpack _). vm_compute. reflexivity.
  - apply (proj2 (proj2 page_key_presence_kept)).
    repeat (apply Forall_cons; split; [simpl; tauto|]). apply Forall_nil_2.
Defined.

(** X7. The page keys stay in ascending order through every command other
    than [MoveAllCmd] and through its undo, and so they are ascending at
    the end of every session that starts from the empty store and pushes
    no [MoveAllCmd]. *)
Theorem sorted_keys_kept :
  (∀ st c, ¬ is_move c → StronglySorted Z.lt (OD.keys (model st)) →
           StronglySorted Z.lt (OD.keys (model (push st c).1)))
  ∧ (∀ st p, ¬ is_move_pushed p → StronglySorted Z.lt (OD.keys (model st)) →
             StronglySorted Z.lt (OD.keys (model (undo st p).1)))
  ∧ ∀ h ops, pushes_no_move ops →
             StronglySorted Z.lt (OD.keys (model (run h ops))).
Proof.
  set (Q := λ d : list (Z * list loc), StronglySorted Z.lt (OD.keys d)).
  assert (∀ d, Q d → NoDup (OD.keys d)) as Q_keys
    by (intros d; apply StronglySorted_lt_NoDup).
  assert (∀ d k v, Q d → is_Some (OD.get k d) → v ≠ [] → Q (OD.set k v d))
    as Q_set.
  { intros d k v Hd Hk _. unfold Q. by rewrite ODFacts.keys_set_present. }
  assert (∀ d k, Q d → Q (OD.del k d)) as Q_del.
  { intros d k Hd. eapply StronglySorted_sublist; [|exact Hd].
    apply ODFacts.keys_del_sublist. }
  assert (∀ d k (x : loc), Q d → OD.get k d = None →
            Q (filter (λ kv, kv.1 < k) d ++ (k, [x]) :: filter (λ kv, k < kv.1) d))
    as Q_new.
  { intros d k x Hd Hget%ODFacts.get_None. unfold Q.
    rewrite ODFacts.keys_app. unfold OD.keys in *. simpl.
    rewrite keys_filter_below, keys_filter_above.
    by apply StronglySorted_lt_splice. }
  split_and!.
  - intros st c. apply (kept_push Q Q_keys Q_set Q_del Q_new).
  - intros st p. apply (kept_undo Q Q_keys Q_set Q_del Q_new).
  - intros h ops. apply (kept_run Q Q_keys Q_set Q_del Q_new). constructor.
Qed.

Lemma sorted_keys_kept_witness :
  StronglySorted Z.lt (OD.keys (model (push family (Remove 2%nat)).1))
  ∧ StronglySorted Z.lt
      (OD.keys (model (run drag_to_new_page
                         [Do (Insert 0%nat); Do (Insert 2%nat); Undo]))).
Proof.
  split.
  - apply (proj1 sorted_keys_kept).
    + simpl. tauto.
    + vm_compute. repeat constructor.
  - apply (proj2 (proj2 sorted_keys_kept)).
    repeat (apply Forall_cons; split; [simpl; tauto|]). apply Forall_nil_2.
Defined.
End kept_invariants.

(** ** The page keys through [MoveAllCmd._apply_edit] *)

Section apply_edit_keys.
Implicit Types (st : state) (h : list SelectionData) (d : list (Z * list loc)).

Lemma keys_set_absent {V} k (v : V) (d : list (Z * V)) :
  OD.get k d = None → OD.keys (OD.set k v d) = OD.keys d ++ [k].
Proof.
  intros Hget%ODFacts.get_None. rewrite ODFacts.set_fresh by done.
  by rewrite ODFacts.keys_app.
Qed.

Lemma mem_false {V} k (d : list (Z * V)) :
  OD.mem k d = false → OD.get k d = None.
Proof.
  unfold OD.mem. intros H%bool_decide_eq_false.
  destruct (OD.get k d); [|done]. destruct H. by eexists.
Qed.

Lemma removals_keys h editing d pages :
  OD.keys (MoveAllCmd.removals h editing d pages).1 = OD.keys d.
Proof.
  revert d pages. induction editing as [|e editing IH]; intros d pages; [done|].
  simpl. destruct (OD.get (editing_page e) d) as [arr|] eqn:Hget; simpl.
  - destruct (MoveAllCmd.pop_by_id h _ arr) as [arr'|]; [|apply IH].
    rewrite IH. apply ODFacts.keys_set_present. by rewrite Hget.
  - apply IH.
Qed.

Lemma insertions_keys h editing d pages :
  ∃ new_keys,
    OD.keys (MoveAllCmd.insertions h editing d pages).1 = OD.keys d ++ new_keys
    ∧ ∀ k, k ∈ new_keys →
           OD.get k d = None
           ∧ ∃ e, e ∈ editing ∧ page (data h (new_selection e)) = k.
Proof.
  revert d pages. induction editing as [|e editing IH]; intros d pages; simpl.
  - exists []. split; [by rewrite (right_id_L [] (++))|]. by intros k ?%elem_of_nil.
  - set (tgt_page := page (data h (new_selection e))).
    destruct (OD.mem tgt_page d) eqn:Hmem.
    + match goal with
      | |- context [MoveAllCmd.insertions h editing ?d' ?pages'] =>
          destruct (IH d' pages') as (new_keys & Hkeys & Hnew)
      end.
      rewrite ODFacts.keys_set_present in Hkeys
        by (by apply bool_decide_eq_true in Hmem).
      exists new_keys. split; [done|]. intros k Hk.
      destruct (Hnew k Hk) as [Hget (e' & He' & Hpage)]. split.
      * destruct (decide (k = tgt_page)) as [->|Hne];
          [by rewrite ODFacts.get_set_eq in Hget|].
        by rewrite ODFacts.get_set_ne in Hget.
      * exists e'. split; [by right|done].
    + match goal with
      | |- context [MoveAllCmd.insertions h editing ?d' ?pages'] =>
          destruct (IH d' pages') as (new_keys & Hkeys & Hnew)
      end.
      rewrite ODFacts.keys_set_present, keys_set_absent in Hkeys
        by (rewrite ?ODFacts.get_set_eq; by eauto using mem_false).
      exists (tgt_page :: new_keys). rewrite Hkeys, <-(assoc_L (++)).
      split; [done|]. intros k [->|Hk]%elem_of_cons.
      * split; [by apply mem_false|]. exists e. split; [by left|done].
      * destruct (Hnew k Hk) as [Hget (e' & He' & Hpage)]. split.
        -- destruct (decide (k = tgt_page)) as [->|Hne];
             [by rewrite ODFacts.get_set_eq in Hget|].
           by rewrite !ODFacts.get_set_ne in Hget.
        -- exists e'. split; [by right|done].
Qed.

(** X8. [MoveAllCmd._apply_edit] deletes no page key and moves none: the
    keys of the dictionary afterwards are the keys before, in the same
    order, followed by the new ones, each of them the page carried by a
    replacement of the edit list. *)
Theorem apply_edit_keeps_keys st editing :
  ∃ new_keys,
    OD.keys (model (MoveAllCmd._apply_edit st editing))
    = OD.keys (model st) ++ new_keys
    ∧ ∀ k, k ∈ new_keys →
           OD.get k (model st) = None
           ∧ ∃ e, e ∈ editing ∧ page (data (heap st) (new_selection e)) = k.
Proof.
  unfold MoveAllCmd._apply_edit.
  pose proof (removals_keys (heap st) editing (model st) []) as Hrem.
  destruct (MoveAllCmd.removals (heap st) editing (model st) [])
    as [d1 pages1] eqn:Hremovals. simpl in Hrem.
  destruct (insertions_keys (heap st) editing d1 pages1)
    as (new_keys & Hkeys & Hnew).
  destruct (MoveAllCmd.insertions (heap st) editing d1 pages1)
    as [d2 pages2]. simpl in Hkeys.
  destruct (foldl_update_page_indexes_spec (State (heap st) d2) pages2)
    as [_ Hmodel].
  exists new_keys. rewrite Hmodel. simpl. rewrite Hkeys, Hrem. split; [done|].
  intros k Hk. destruct (Hnew k Hk) as [Hget He]. split; [|done].
  apply ODFacts.get_None. rewrite <-Hrem. by apply ODFacts.get_None.
Qed.
End apply_edit_keys.

(** ** Contiguity through the commands

    A command changes some pages and re-indexes them. When it re-indexes
    every page it has changed, and no object is at two positions, the
    store is contiguous again. *)

Section contiguity_kept.
Implicit Types (st : state) (h : list SelectionData) (d : list (Z * list loc))
  (l value : loc) (sels : list loc).

Lemma foldl_update_page_indexes_other st (ks : list Z) l :
  (∀ k sels, k ∈ ks → OD.get k (model st) = Some sels → l ∉ sels) →
  data (heap (foldl _update_page_indexes st ks)) l = data (heap st) l.
Proof.
  induction ks as [|k ks IH] using rev_ind; intros Hl; [done|].
  rewrite foldl_app. simpl.
  destruct (foldl_update_page_indexes_spec st ks) as [_ Hmodel].
  rewrite Hmodel, update_from_other.
  - apply IH. intros k' sels Hk'. apply Hl. apply elem_of_app. by left.
  - destruct (OD.get k (model st)) as [sels|] eqn:Hget; simpl;
      [|apply not_elem_of_nil].
    apply (Hl k); [|done]. apply elem_of_app. right. by left.
Qed.

Lemma contiguity_NoDup_items h d :
  NoDup (OD.keys d) → Forall (indexed_page h) d → NoDup (items d).
Proof.
  induction d as [|[k sels] d IH]; [intros; apply NoDup_nil_2|].
  intros [Hk Hkeys]%NoDup_cons [Hpage Hd]%Forall_cons. rewrite items_cons.
  apply NoDup_app. split_and!; [by eapply indexed_from_NoDup| |by apply IH].
  intros x Hx (k' & sels' & Hin & Hx')%elem_of_items.
  apply Hk. replace k with k'; [apply list_elem_of_fmap; by exists (k', sels')|].
  rewrite <-(contiguity_page h d k' sels' x) by done.
  apply list_elem_of_lookup_1 in Hx as [i Hi].
  by destruct (indexed_from_lookup _ _ _ _ _ _ Hpage Hi).
Qed.

Lemma contiguity_allocated st : contiguity st → allocated st.
Proof.
  unfold contiguity, allocated. intros Hd. apply Forall_forall.
  intros x (k & sels & Hin & Hx)%elem_of_items.
  rewrite Forall_forall in Hd. specialize (Hd _ Hin).
  apply indexed_from_allocated in Hd. rewrite Forall_forall in Hd. by apply Hd.
Qed.

Lemma contiguity_restored h d (pages : list Z) :
  NoDup (OD.keys d) → NoDup (items d) →
  Forall (λ l, (l < length h)%nat) (items d) →
  (∀ k sels, OD.get k d = Some sels → k ∉ pages → indexed_from h k 0 sels) →
  contiguity (foldl _update_page_indexes (State h d) pages).
Proof.
  intros Hkeys Hnd Halloc Hclean.
  destruct (foldl_update_page_indexes_indexed (State h d) pages)
    as (Hmodel & _ & Hind); [done..|].
  unfold contiguity. rewrite Hmodel. simpl in *. apply Forall_forall.
  intros [k sels] Hin. unfold indexed_page. simpl.
  destruct (decide (k ∈ pages)) as [Hk|Hk]; [by apply Hind|].
  apply (indexed_from_ext h).
  - intros l Hl. apply (foldl_update_page_indexes_other (State h d)).
    simpl. intros k' sels' Hk' Hget' Hl'.
    apply ODFacts.get_Some_elem in Hget'.
    apply (items_disjoint d k sels k' sels' l); try done. by intros ->.
  - apply Hclean; [|done]. by apply ODFacts.get_elem.
Qed.

Lemma contiguity_get h d k sels :
  Forall (indexed_page h) d → OD.get k d = Some sels → indexed_from h k 0 sels.
Proof.
  intros Hd Hget%ODFacts.get_Some_elem. rewrite Forall_forall in Hd.
  apply (Hd _ Hget).
Qed.

Lemma Forall_sublist {A} (P : A → Prop) (l l' : list A) :
  l' `sublist_of` l → Forall P l → Forall P l'.
Proof.
  rewrite !Forall_forall. intros Hsub Hl x Hx. apply Hl.
  by eapply elem_of_sublist.
Qed.

Lemma NoDup_items_set d k sels sels' :
  NoDup (items d) → OD.get k d = Some sels → sels' `sublist_of` sels →
  NoDup (items (OD.set k sels' d)).
Proof.
  intros Hnd Hget Hsub.
  apply (sublist_NoDup _ (items d)); [done|]. by eapply items_set_sublist.
Qed.

Lemma insert_ordered_contiguity st value o_idx :
  NoDup (OD.keys (model st)) → contiguity st →
  value ∉ items (model st) → (value < length (heap st))%nat →
  (OD.get (page (data (heap st) value)) (model st) = None →
   idx (data (heap st) value) = 0) →
  contiguity (insert_ordered st value None o_idx).1.
Proof.
  intros Hkeys Hcont Hfresh Hvalue Hidx.
  pose proof (contiguity_allocated _ Hcont) as Halloc.
  pose proof (contiguity_NoDup_items _ _ Hkeys Hcont) as Hnd.
  destruct (OD.get (page (data (heap st) value)) (model st))
    as [page_items|] eqn:Hget.
  - destruct (insert_ordered st value None o_idx) as [st' [ki|e]] eqn:Hio.
    2:{ by apply insert_ordered_raises in Hio as (-> & _). }
    destruct (insert_ordered_spec st value None o_idx st' ki Hkeys Hio)
      as (_ & Hperm & Hkeys').
    apply (insert_ordered_returned st value None o_idx page_items) in Hio
      as (_ & -> & _); [|done].
    revert Hperm Hkeys'. simpl. intros Hperm Hkeys'.
    apply (contiguity_restored _ _ [page (data (heap st) value)]);
      [done|by rewrite Hperm; apply NoDup_cons| |].
    + rewrite Hperm. apply Forall_cons. by split.
    + intros k sels Hk Hne. apply not_elem_of_cons in Hne as [Hne _].
      rewrite ODFacts.get_set_ne in Hk by done.
      by eapply contiguity_get.
  - rewrite insert_ordered_new_key by done. unfold contiguity. simpl.
    apply Forall_app. split; [by apply Forall_filter_of|].
    apply Forall_cons. split; [|by apply Forall_filter_of].
    unfold indexed_page. simpl. by rewrite Hidx.
Qed.

Lemma undo_insert_ordered_contiguity st key i :
  NoDup (OD.keys (model st)) → contiguity st →
  contiguity (undo_insert_ordered st key i).1.
Proof.
  intros Hkeys Hcont. pose proof (contiguity_allocated _ Hcont) as Halloc.
  pose proof (contiguity_NoDup_items _ _ Hkeys Hcont) as Hnd.
  unfold undo_insert_ordered.
  destruct (OD.get key (model st)) as [page_items|] eqn:Hget; [|done].
  destruct (PyList.pop page_items i) as [page_items'|e] eqn:Hpop;
    [|by destruct e].
  simpl. unfold PyList.pop in Hpop.
  destruct (PyList.index page_items i) as [pos|]; [|done].
  injection Hpop as <-.
  destruct (decide (delete pos page_items = [])).
  - rewrite update_page_indexes_absent
      by (by apply ODFacts.get_del_eq).
    by apply Forall_OD_del.
  - apply (contiguity_restored _ _ [key]).
    + by apply ODFacts.NoDup_keys_set.
    + eapply NoDup_items_set; [done..|apply sublist_delete].
    + eapply Forall_sublist; [|exact Halloc].
      eapply items_set_sublist; [done|apply sublist_delete].
    + intros k sels Hk Hne. apply not_elem_of_cons in Hne as [Hne _].
      rewrite ODFacts.get_set_ne in Hk by done. by eapply contiguity_get.
Qed.

(** X9. [InsertCmd] keeps the store contiguous when the selection is an
    object that is not yet in the store and, should its page have no key,
    carries the index 0: the list of a present page is re-indexed after the
    insertion, whatever index the selection declared. The undo keeps
    contiguity on every store, whatever position it is given. *)
Theorem insert_keeps_contiguity st value key i :
  NoDup (OD.keys (model st)) → contiguity st →
  (value ∉ items (model st) → (value < length (heap st))%nat →
   (OD.get (page (data (heap st) value)) (model st) = None →
    idx (data (heap st) value) = 0) →
   contiguity (InsertCmd.redo st value).1)
  ∧ contiguity (InsertCmd.undo st (key, i)).1.
Proof.
  intros Hkeys Hcont. split.
  - by apply insert_ordered_contiguity.
  - by apply undo_insert_ordered_contiguity.
Qed.

Lemma insert_keeps_contiguity_witness :
  contiguity (InsertCmd.redo swap_store 2%nat).1
  ∧ contiguity (InsertCmd.undo swap_store (1, 0)).1.
Proof.
  assert (NoDup (OD.keys (model swap_store))) as Hkeys
    by (apply (bool_decide_unpack _); vm_compute; reflexivity).
  assert (contiguity swap_store) as Hcont
    by (apply (bool_decide_unpack _); vm_compute; reflexivity).
  split.
  - apply (proj1 (insert_keeps_contiguity swap_store 2%nat 1 0 Hkeys Hcont)).
    + apply (bool_decide_unpack _). vm_compute. reflexivity.
    + simpl. lia.
    + vm_compute. discriminate.
  - apply (proj2 (insert_keeps_contiguity swap_store 2%nat 1 0 Hkeys Hcont)).
Defined.

Lemma get_ext_elem {V} k (d d' : list (Z * V)) :
  NoDup (OD.keys d) → NoDup (OD.keys d') →
  (∀ v, (k, v) ∈ d ↔ (k, v) ∈ d') → OD.get k d = OD.get k d'.
Proof.
  intros Hd Hd' Hiff. destruct (OD.get k d) as [v|] eqn:Hget.
  - symmetry. apply ODFacts.get_elem; [done|]. apply Hiff.
    by apply ODFacts.get_Some_elem.
  - destruct (OD.get k d') as [v'|] eqn:Hget'; [|done].
    apply ODFacts.get_Some_elem, Hiff, (ODFacts.get_elem _ _ _ Hd) in Hget'.
    congruence.
Qed.

Lemma insert_ordered_get_ne st value o_key o_idx k :
  NoDup (OD.keys (model st)) →
  k ≠ default (page (data (heap st) value)) o_key →
  OD.get k (model (insert_ordered st value o_key o_idx).1) = OD.get k (model st).
Proof.
  intros Hkeys Hne.
  destruct (OD.get (default (page (data (heap st) value)) o_key) (model st))
    as [page_items|] eqn:Hget.
  - rewrite (insert_ordered_present st value o_key o_idx page_items Hget).
    destruct (decide _); [|done]. simpl. by rewrite ODFacts.get_set_ne.
  - rewrite insert_ordered_new_key by done. simpl. symmetry.
    apply get_ext_elem; [done|by apply NoDup_keys_new|].
    intros v. rewrite elem_of_app, elem_of_cons, !list_elem_of_filter. simpl.
    split.
    + intros Hin. destruct (Z.lt_trichotomy k (default (page (data (heap st) value)) o_key))
        as [?|[?|?]]; [by left|done|by right; right].
    + intros [[_ ?]|[[= ? _]|[_ ?]]]; done.
Qed.

Lemma page_update_from h p cnt sels l :
  l ∈ sels → (l < length h)%nat → page (data (update_from h p cnt sels) l) = p.
Proof.
  revert h cnt. induction sels as [|a sels IH]; intros h cnt Hl Halloc;
    [by apply elem_of_nil in Hl|].
  simpl. destruct (decide (l ∈ sels)) as [Hin|Hnotin].
  - apply IH; [done|]. unfold _update_indexes. by rewrite length_write.
  - apply elem_of_cons in Hl as [->|?]; [|done].
    rewrite update_from_other by done. unfold _update_indexes.
    by rewrite data_write_eq.
Qed.

(** The re-indexing that ends [edit_selection], once [insert_ordered] has
    returned, restores contiguity on a dictionary that differs from a
    contiguous one on the page left only. *)
Lemma edit_reindexed_contiguity st k value d1 st1 ki :
  NoDup (OD.keys (model st)) → contiguity st →
  value ∉ items (model st) → (value < length (heap st))%nat →
  NoDup (OD.keys d1) → items d1 `sublist_of` items (model st) →
  (∀ k' sels, OD.get k' d1 = Some sels → k' ≠ k →
              OD.get k' (model st) = Some sels) →
  insert_ordered (State (heap st) d1) value None None = (st1, inl ki) →
  contiguity
    (let target_key := page (data (heap st1) value) in
     let st2 := _update_page_indexes st1 target_key in
     if decide (target_key ≠ k) then _update_page_indexes st2 k else st2).
Proof.
  intros Hkeys Hcont Hfresh Hvalue Hkeys1 Hsub Hother Hio.
  pose proof (contiguity_allocated _ Hcont) as Halloc.
  pose proof (contiguity_NoDup_items _ _ Hkeys Hcont) as Hnd.
  set (key := page (data (heap st) value)).
  destruct (insert_ordered_spec (State (heap st) d1) value None None st1 ki
              Hkeys1 Hio) as (_ & Hperm & Hkeys').
  assert (∀ k', k' ≠ key → OD.get k' (model st1) = OD.get k' d1) as Hget_ne.
  { intros k' Hk'.
    pose proof (insert_ordered_get_ne (State (heap st) d1) value None None
                  k' Hkeys1 Hk') as Hne.
    by rewrite Hio in Hne. }
  revert Hperm Hkeys' Hget_ne. simpl.
  assert (NoDup (value :: items d1)) as Hnd1.
  { apply NoDup_cons. split; [|by apply (sublist_NoDup _ (items (model st)))].
    intros Hin. apply Hfresh. by eapply elem_of_sublist. }
  assert (Forall (λ l, (l < length (heap st))%nat) (value :: items d1))
    as Halloc1.
  { apply Forall_cons. split; [done|]. by eapply Forall_sublist. }
  assert (∀ d2 k' sels,
            (∀ k', k' ≠ key → OD.get k' d2 = OD.get k' d1) →
            OD.get k' d2 = Some sels → k' ≠ key → k' ≠ k →
            indexed_from (heap st) k' 0 sels) as Hclean.
  { intros d2 k' sels Hd2 Hget Hne1 Hne2. rewrite Hd2 in Hget by done.
    eapply contiguity_get; [exact Hcont|]. by apply Hother. }
  destruct (OD.get key d1) as [page_items|] eqn:Hget.
  - apply (insert_ordered_returned (State (heap st) d1) value None None
             page_items) in Hio as (_ & -> & _); [|done].
    cbn [default heap model]. fold key.
    set (page_items' := (inserted page_items (idx (data (heap st) value))
                           value).1).
    assert (value ∈ page_items') as Hin.
    { unfold page_items'. rewrite inserted_perm. by left. }
    clearbody page_items'. simpl.
    rewrite ODFacts.get_set_eq. simpl.
    rewrite page_update_from by done.
    intros Hperm Hkeys' Hget_ne.
    destruct (decide (key ≠ k)).
    + apply (contiguity_restored _ _ [key; key; k]);
        [done|by rewrite Hperm|by rewrite Hperm|].
      intros k' sels Hk' Hnotin. apply (Hclean _ k' sels Hget_ne Hk').
      * intros ->. apply Hnotin. by left.
      * intros ->. apply Hnotin. do 2 right. by left.
    + apply (contiguity_restored _ _ [key; key]);
        [done|by rewrite Hperm|by rewrite Hperm|].
      intros k' sels Hk' Hnotin. apply (Hclean _ k' sels Hget_ne Hk').
      * intros ->. apply Hnotin. by left.
      * intros ->. apply Hnotin.
        destruct (decide (key = k)) as [Heq|Hne];
          [rewrite Heq; by left|by destruct n].
  - rewrite insert_ordered_new_key in Hio by done. injection Hio as <- _.
    cbn [default heap model]. fold key.
    intros Hperm Hkeys' Hget_ne.
    destruct (decide (key ≠ k)).
    + apply (contiguity_restored _ _ [key; k]);
        [done|by rewrite Hperm|by rewrite Hperm|].
      intros k' sels Hk' Hnotin. apply (Hclean _ k' sels Hget_ne Hk').
      * intros ->. apply Hnotin. by left.
      * intros ->. apply Hnotin. right. by left.
    + apply (contiguity_restored _ _ [key]);
        [done|by rewrite Hperm|by rewrite Hperm|].
      intros k' sels Hk' Hnotin. apply (Hclean _ k' sels Hget_ne Hk').
      * intros ->. apply Hnotin. by left.
      * intros ->. apply Hnotin.
        destruct (decide (key = k)) as [Heq|Hne];
          [rewrite Heq; by left|by destruct n].
Qed.

(** [edit_selection] keeps contiguity when [insert_ordered] returns in
    it; the replacement is an object that is not in the store. *)
Lemma edit_selection_resolved_contiguity st k i value page_items pos :
  NoDup (OD.keys (model st)) → contiguity st →
  value ∉ items (model st) → (value < length (heap st))%nat →
  OD.get k (model st) = Some page_items →
  PyList.index page_items i = Some pos →
  (∀ sels, OD.get (page (data (heap st) value))
                  (if decide (delete pos page_items = [])
                   then OD.del k (model st)
                   else OD.set k (delete pos page_items) (model st))
           = Some sels →
           insertable sels (idx (data (heap st) value))) →
  contiguity (EditCmd.edit_selection st k i value true).
Proof.
  intros Hkeys Hcont Hfresh Hvalue Hget Hpos Hins.
  rewrite (edit_selection_resolved st k i value page_items pos) by done.
  cbv zeta.
  set (d1 := if decide (delete pos page_items = [])
             then OD.del k (model st)
             else OD.set k (delete pos page_items) (model st)) in *.
  destruct (insert_ordered_returns (State (heap st) d1) value None None)
    as (st1 & ki & Hio); [done|].
  rewrite Hio.
  apply (edit_reindexed_contiguity st k value d1 st1 ki); try done.
  - unfold d1. destruct (decide _); [by apply ODFacts.NoDup_keys_del|
                                     by apply ODFacts.NoDup_keys_set].
  - unfold d1. destruct (decide _); [apply items_del_sublist|].
    eapply items_set_sublist; [done|apply sublist_delete].
  - intros k' sels Hk' Hne. unfold d1 in Hk'. destruct (decide _).
    + by rewrite ODFacts.get_del_ne in Hk'.
    + by rewrite ODFacts.get_set_ne in Hk'.
Qed.

Lemma edit_selection_keeps_contiguity st k i value replace :
  NoDup (OD.keys (model st)) → contiguity st →
  value ∉ items (model st) → (value < length (heap st))%nat →
  idx (data (heap st) value) < 2 ^ 63 →
  contiguity (EditCmd.edit_selection st k i value replace).
Proof.
  intros Hkeys Hcont Hfresh Hvalue Hidx.
  destruct replace.
  - destruct (OD.get k (model st)) as [page_items|] eqn:Hget.
    2:{ unfold EditCmd.edit_selection. by rewrite Hget. }
    destruct (PyList.index page_items i) as [pos|] eqn:Hpos.
    2:{ unfold EditCmd.edit_selection, PyList.pop. rewrite Hget. simpl.
        by rewrite Hpos. }
    apply (edit_selection_resolved_contiguity st k i value page_items pos);
      try done.
    intros sels _. by apply insertable_ssize.
  - unfold EditCmd.edit_selection.
    destruct (insert_ordered_returns (State (heap st) (model st)) value
                None None) as (st1 & ki & Hio).
    { intros sels _. by apply insertable_ssize. }
    rewrite Hio.
    by apply (edit_reindexed_contiguity st k value (model st) st1 ki).
Qed.

Lemma write_parent_pos h l q x :
  page (data (write (set_parent q) l h) x) = page (data h x)
  ∧ idx (data (write (set_parent q) l h) x) = idx (data h x).
Proof.
  destruct (decide (l = x)) as [->|]; [|by rewrite data_write_ne].
  destruct (decide (x < length h)%nat).
  - by rewrite data_write_eq.
  - by rewrite data_write_unallocated by lia.
Qed.

Lemma relink_pos h d q child_ids acc x :
  page (data (RemoveCmd.relink h d q child_ids acc).1 x) = page (data h x)
  ∧ idx (data (RemoveCmd.relink h d q child_ids acc).1 x) = idx (data h x).
Proof.
  revert h acc. induction child_ids as [|s child_ids IH]; intros h acc; [done|].
  simpl. destruct (find_selection_by_id h d s) as [[[k i] child]|]; [|apply IH].
  destruct (IH (write (set_parent q) child h) (acc ++ [child])) as [-> ->].
  apply write_parent_pos.
Qed.

Lemma foldl_write_parent_pos h q (ls : list loc) x :
  page (data (foldl (λ h child, write (set_parent q) child h) h ls) x)
  = page (data h x)
  ∧ idx (data (foldl (λ h child, write (set_parent q) child h) h ls) x)
    = idx (data h x).
Proof.
  revert h. induction ls as [|a ls IH]; intros h; [done|]. simpl.
  destruct (IH (write (set_parent q) a h)) as [-> ->]. apply write_parent_pos.
Qed.

Lemma indexed_from_pos h h' p cnt sels :
  (∀ x, page (data h' x) = page (data h x) ∧ idx (data h' x) = idx (data h x)) →
  indexed_from h p cnt sels → indexed_from h' p cnt sels.
Proof.
  intros Hpos. revert cnt. induction sels as [|a sels IH]; intros cnt; [done|].
  simpl. destruct (Hpos a) as [-> ->]. intros (? & ? & ?). auto.
Qed.

Lemma contiguity_pos h h' d :
  (∀ x, page (data h' x) = page (data h x) ∧ idx (data h' x) = idx (data h x)) →
  contiguity (State h d) → contiguity (State h' d).
Proof.
  intros Hpos. unfold contiguity. simpl. intros Hd.
  eapply Forall_impl; [exact Hd|]. intros [k sels]. by apply indexed_from_pos.
Qed.

Lemma remove_scan_inv h s pages d :
  NoDup (OD.keys d) → pages_of pages d →
  NoDup (OD.keys (RemoveCmd.remove_scan h s pages d).1)
  ∧ ∀ k sels,
      OD.get k (RemoveCmd.remove_scan h s pages d).1 = Some sels →
      (RemoveCmd.remove_scan h s pages d).2 ≠ Some k →
      OD.get k d = Some sels.
Proof.
  revert d. induction pages as [|[page page_items] pages IH]; intros d Hnd Hpages;
    [done|].
  simpl. destruct (find_in_page h s page_items 0) as [[i sel]|].
  - destruct (decide (PyList.remove sel page_items = [])).
    + destruct (IH (OD.del page d)) as [Hkeys Hother].
      * by apply ODFacts.NoDup_keys_del.
      * eapply pages_of_tail; [done|]. intros. by apply ODFacts.get_del_ne.
      * split; [done|]. intros k sels Hk Hne.
        specialize (Hother k sels Hk Hne).
        destruct (decide (k = page)) as [->|Hkp].
        -- by rewrite ODFacts.get_del_eq in Hother.
        -- by rewrite ODFacts.get_del_ne in Hother.
    + simpl. split; [by apply ODFacts.NoDup_keys_set|].
      intros k sels Hk Hne. rewrite ODFacts.get_set_ne in Hk; [done|congruence].
  - apply IH; [done|]. by eapply pages_of_tail.
Qed.

Lemma remove_redo_contiguity st value :
  NoDup (OD.keys (model st)) → contiguity st →
  contiguity (RemoveCmd.redo st value).1.
Proof.
  intros Hkeys Hcont. pose proof (contiguity_allocated _ Hcont) as Halloc.
  pose proof (contiguity_NoDup_items _ _ Hkeys Hcont) as Hnd.
  unfold RemoveCmd.redo, RemoveCmd.remove_and_relink_children.
  pose proof (relink_pos (heap st) (model st)
                (parent (data (heap st) value))
                (children (data (heap st) value)) []) as Hpos.
  pose proof (relink_stable (heap st) (model st)
                (parent (data (heap st) value))
                (children (data (heap st) value)) []) as [Hlen _].
  destruct (RemoveCmd.relink _ _ _ _ _) as [h relinked]. simpl in Hpos, Hlen.
  pose proof (remove_scan_inv h (id_ (data (heap st) value)) (model st)
                (model st) Hkeys (pages_of_self _ Hkeys)) as [Hkeys' Hother].
  pose proof (remove_scan_spec h (id_ (data (heap st) value)) (model st)
                (model st) Hkeys (pages_of_self _ Hkeys)) as Hsub.
  destruct (RemoveCmd.remove_scan _ _ _ _) as [d edited_page].
  simpl in *.
  assert (contiguity
            (foldl _update_page_indexes (State h d)
               (match edited_page with Some p => [p] | None => [] end)))
    as Hgoal; [|by destruct edited_page].
  apply contiguity_restored; [done|by apply (sublist_NoDup _ (items (model st)))| |].
  - eapply Forall_sublist; [done|]. eapply Forall_impl; [exact Halloc|].
    simpl. intros x Hx. lia.
  - intros k sels Hk Hnotin. apply (indexed_from_pos (heap st)); [done|].
    eapply contiguity_get; [exact Hcont|]. apply Hother; [done|].
    intros ->. apply Hnotin. by left.
Qed.
Lemma elem_of_items_split d x :
  x ∈ items d →
  ∃ d1 d2 k sels1 sels2, d = d1 ++ (k, sels1 ++ x :: sels2) :: d2.
Proof.
  intros (k & sels & (d1 & d2 & ->)%list_elem_of_split
          & (sels1 & sels2 & ->)%list_elem_of_split)%elem_of_items.
  by exists d1, d2, k, sels1, sels2.
Qed.

Lemma remove_redo_unique st d1 d2 k sels1 value sels2 :
  NoDup (OD.keys (model st)) → uniqueness st →
  model st = d1 ++ (k, sels1 ++ value :: sels2) :: d2 →
  let h := (RemoveCmd.relink (heap st) (model st)
              (parent (data (heap st) value))
              (children (data (heap st) value)) []).1 in
  (RemoveCmd.redo st value).1
  = if decide (sels1 ++ sels2 = []) then State h (d1 ++ d2)
    else State (update_from h k 0 (sels1 ++ sels2))
               (d1 ++ (k, sels1 ++ sels2) :: d2).
Proof.
  intros Hkeys Huniq Hmodel h.
  unfold RemoveCmd.redo, RemoveCmd.remove_and_relink_children.
  pose proof (relink_ids (heap st) (model st) (parent (data (heap st) value))
                (children (data (heap st) value)) []) as Hids.
  fold h in Hids. subst h.
  destruct (RemoveCmd.relink _ _ _ _ _) as [h relinked]. simpl in *.
  rewrite <-(Hids value). rewrite Hmodel at 1.
  assert (k ∉ OD.keys d1) as Hk.
  { rewrite Hmodel, ODFacts.keys_app in Hkeys.
    apply NoDup_app in Hkeys as (_ & Hkeys & _). intros Hin.
    apply (Hkeys k Hin). by left. }
  rewrite remove_scan_middle.
  - rewrite Hmodel. destruct (decide (sels1 ++ sels2 = [])).
    + by rewrite ODFacts.del_middle.
    + rewrite ODFacts.set_middle by done. by apply update_page_indexes_middle.
  - apply (unique_split h d1 d2 sels1 value sels2 k).
    unfold uniqueness, ids in Huniq. rewrite <-Hmodel.
    erewrite list_fmap_ext; [exact Huniq|]. intros _ x _. apply Hids.
Qed.

Lemma NoDup_keys_remove st value :
  NoDup (OD.keys (model st)) → NoDup (OD.keys (model (RemoveCmd.redo st value).1)).
Proof.
  apply (kept_remove (λ d, NoDup (OD.keys d))); try done.
  - intros. by apply ODFacts.NoDup_keys_set.
  - intros. by apply ODFacts.NoDup_keys_del.
Qed.

Lemma remove_undo_contiguity st value :
  NoDup (OD.keys (model st)) → contiguity st → uniqueness st →
  value ∈ items (model st) →
  let u := RemoveCmd.undo (RemoveCmd.redo st value).1 value
             (RemoveCmd.redo st value).2 in
  u.2 = None ∧ contiguity u.1.
Proof.
  intros Hkeys Hcont Huniq Hin.
  pose proof (contiguity_allocated _ Hcont) as Halloc.
  pose proof (contiguity_NoDup_items _ _ Hkeys Hcont) as Hnd.
  pose proof (remove_redo_contiguity st value Hkeys Hcont) as Hcont'.
  pose proof (NoDup_keys_remove st value Hkeys) as Hkeys'.
  destruct (elem_of_items_split _ _ Hin) as (d1 & d2 & k & sels1 & sels2 & Hmodel).
  pose proof (remove_redo_unique st d1 d2 k sels1 value sels2 Hkeys Huniq Hmodel)
    as Hredo.
  pose proof (relink_pos (heap st) (model st) (parent (data (heap st) value))
                (children (data (heap st) value)) []) as Hpos.
  pose proof (relink_stable (heap st) (model st) (parent (data (heap st) value))
                (children (data (heap st) value)) []) as [Hlen _].
  set (h := (RemoveCmd.relink (heap st) (model st)
               (parent (data (heap st) value))
               (children (data (heap st) value)) []).1) in *.
  assert (value < length (heap st))%nat as Hvalue.
  { unfold allocated in Halloc. rewrite Forall_forall in Halloc. by apply Halloc. }
  assert (value ∉ items d1 ++ sels1 ++ sels2 ++ items d2) as Hfresh.
  { rewrite Hmodel, items_middle in Hnd.
    assert (items d1 ++ (sels1 ++ value :: sels2) ++ items d2
            ≡ₚ value :: items d1 ++ sels1 ++ sels2 ++ items d2) as Hperm.
    { rewrite <-!(assoc_L (++)). simpl.
      by rewrite !(assoc_L (++) (items d1)), <-Permutation_middle,
                 <-!(assoc_L (++)). }
    rewrite Hperm in Hnd. by apply NoDup_cons in Hnd as [? _]. }
  assert (page (data (heap st) value) = k
          ∧ idx (data (heap st) value) = Z.of_nat (length sels1)) as [Hpage Hidx].
  { assert (indexed_from (heap st) k 0 (sels1 ++ value :: sels2)) as Hind.
    { unfold contiguity in Hcont. rewrite Forall_forall in Hcont.
      apply (Hcont (k, sels1 ++ value :: sels2)). rewrite Hmodel.
      apply elem_of_app. right. by left. }
    apply (indexed_from_lookup _ _ _ _ (length sels1) value) in Hind; [done|].
    by rewrite lookup_app_r, Nat.sub_diag. }
  assert (k ∉ OD.keys d1) as Hk.
  { rewrite Hmodel, ODFacts.keys_app in Hkeys.
    apply NoDup_app in Hkeys as (_ & Hkeys & _). intros Hin'.
    apply (Hkeys k Hin'). by left. }
  set (r := RemoveCmd.redo st value) in *.
  assert (contiguity (insert_ordered r.1 value None None).1) as Hc.
  { apply insert_ordered_contiguity; [done|done|..].
    - rewrite Hredo. destruct (decide (sels1 ++ sels2 = [])) as [Hnil|Hne]; simpl.
      + rewrite items_app. intros Hx. apply Hfresh.
        apply elem_of_app in Hx as [?|?]; rewrite !elem_of_app; auto.
      + rewrite items_middle, <-(assoc_L (++)). done.
    - rewrite Hredo. destruct (decide (sels1 ++ sels2 = [])); simpl;
        rewrite ?update_from_length; lia.
    - rewrite Hredo. destruct (decide (sels1 ++ sels2 = [])) as [Hnil|Hne]; simpl.
      + intros _. destruct (Hpos value) as [_ ->]. rewrite Hidx.
        apply app_eq_nil in Hnil as [-> _]. done.
      + rewrite update_from_other.
        2:{ intros Hx. apply Hfresh. rewrite !elem_of_app.
            apply elem_of_app in Hx as [?|?]; auto. }
        destruct (Hpos value) as [-> _]. rewrite Hpage.
        by rewrite ODFacts.get_middle. }
  unfold RemoveCmd.undo.
  destruct (insert_ordered r.1 value None None) as [st' [ki|e]] eqn:Hio.
  - split; [done|]. cbn [fst]. simpl in Hc.
    apply contiguity_pos with (h := heap st').
    { intros x. apply foldl_write_parent_pos. }
    by destruct st'.
  - exfalso.
    apply insert_ordered_raises in Hio as (_ & _ & page_items & Hget & Hno).
    cbn [default] in Hget, Hno. rewrite Hredo in Hget, Hno.
    destruct (decide (sels1 ++ sels2 = [])) as [Hnil|Hne]; cbn [heap model] in *.
    + destruct (Hpos value) as [Hp _]. rewrite Hp, Hpage in Hget.
      rewrite ODFacts.get_app_fresh in Hget by done.
      assert (OD.get k d2 = None) as Hnone; [|by rewrite Hnone in Hget].
      apply ODFacts.get_None.
      rewrite Hmodel, ODFacts.keys_app in Hkeys.
      apply NoDup_app in Hkeys as (_ & _ & Hkeys).
      change (OD.keys ((k, sels1 ++ value :: sels2) :: d2))
        with (k :: OD.keys d2) in Hkeys.
      by apply NoDup_cons in Hkeys as [? _].
    + rewrite update_from_other in Hget, Hno.
      2,3: intros Hx; apply Hfresh; rewrite !elem_of_app;
           apply elem_of_app in Hx as [?|?]; auto.
      destruct (Hpos value) as [Hp Hi]. rewrite Hp, Hpage in Hget.
      rewrite Hi, Hidx in Hno.
      rewrite ODFacts.get_middle in Hget by done. injection Hget as <-.
      apply Hno, insertable_position. rewrite length_app. lia.
Qed.

(** X11. [RemoveCmd] keeps the store contiguous: the page that lost the
    selection is re-indexed unless it became empty and its key was
    deleted. When no two items share an id and the selection is in the
    store, the undo returns and keeps contiguity too: the selection goes
    back to the page and the position it carries. *)
Theorem remove_keeps_contiguity st value :
  NoDup (OD.keys (model st)) → contiguity st →
  let r := RemoveCmd.redo st value in
  contiguity r.1
  ∧ (uniqueness st → value ∈ items (model st) →
     (RemoveCmd.undo r.1 value r.2).2 = None
     ∧ contiguity (RemoveCmd.undo r.1 value r.2).1).
Proof.
  intros Hkeys Hcont r. split.
  - by apply remove_redo_contiguity.
  - intros Huniq Hin. by apply remove_undo_contiguity.
Qed.

Lemma remove_keeps_contiguity_witness :
  contiguity (RemoveCmd.redo family 0%nat).1
  ∧ (RemoveCmd.undo (RemoveCmd.redo family 0%nat).1 0%nat
       (RemoveCmd.redo family 0%nat).2).2 = None
  ∧ contiguity (RemoveCmd.undo (RemoveCmd.redo family 0%nat).1 0%nat
                  (RemoveCmd.redo family 0%nat).2).1.
Proof.
  assert (NoDup (OD.keys (model family))) as Hkeys
    by (apply (bool_decide_unpack _); vm_compute; reflexivity).
  assert (contiguity family) as Hcont
    by (apply (bool_decide_unpack _); vm_compute; reflexivity).
  split.
  - apply (remove_keeps_contiguity family 0%nat Hkeys Hcont).
  - apply (remove_keeps_contiguity family 0%nat Hkeys Hcont).
    + apply (bool_decide_unpack _). vm_compute. reflexivity.
    + apply (bool_decide_unpack _). vm_compute. reflexivity.
Defined.
Lemma add_page_elem p q (pages : list Z) :
  q ∈ MoveAllCmd.add_page p pages ↔ q = p ∨ q ∈ pages.
Proof.
  unfold MoveAllCmd.add_page. destruct (decide (p ∈ pages)).
  - split; [auto|]. by intros [->|?].
  - rewrite elem_of_app, list_elem_of_singleton. tauto.
Qed.

Lemma removals_inv h editing d pages :
  NoDup (OD.keys d) →
  NoDup (OD.keys (MoveAllCmd.removals h editing d pages).1)
  ∧ items (MoveAllCmd.removals h editing d pages).1 `sublist_of` items d
  ∧ (∀ k, k ∈ pages → k ∈ (MoveAllCmd.removals h editing d pages).2)
  ∧ ∀ k, k ∉ (MoveAllCmd.removals h editing d pages).2 →
         OD.get k (MoveAllCmd.removals h editing d pages).1 = OD.get k d.
Proof.
  revert d pages. induction editing as [|e editing IH]; intros d pages Hkeys;
    [done|].
  cbn [MoveAllCmd.removals]. cbv zeta.
  destruct (MoveAllCmd.pop_by_id h (id_ (data h (new_selection e)))
              (default [] (OD.get (editing_page e) d))) as [arr'|] eqn:Hpop;
    [|by apply IH].
  apply pop_by_id_Some in Hpop as (pre & x0 & post & Harr & -> & Hx0).
  assert (OD.get (editing_page e) d = Some (pre ++ x0 :: post)) as Hget.
  { destruct (OD.get (editing_page e) d); simpl in Harr;
      [by subst|by destruct pre]. }
  destruct (IH (OD.set (editing_page e) (pre ++ post) d)
              (MoveAllCmd.add_page (editing_page e) pages))
    as (Hkeys' & Hsub & Hmono & Hother); [by apply ODFacts.NoDup_keys_set|].
  split_and!; [done| | |].
  - etrans; [exact Hsub|]. eapply items_set_sublist; [done|].
    apply sublist_app; [done|]. by apply sublist_cons.
  - intros k Hk. apply Hmono, add_page_elem. by right.
  - intros k Hk. rewrite Hother by done. apply ODFacts.get_set_ne.
    intros ->. apply Hk, Hmono, add_page_elem. by left.
Qed.

Lemma insertions_inv h editing d pages :
  NoDup (OD.keys d) →
  NoDup (OD.keys (MoveAllCmd.insertions h editing d pages).1)
  ∧ (∀ k, k ∈ pages → k ∈ (MoveAllCmd.insertions h editing d pages).2)
  ∧ ∀ k, k ∉ (MoveAllCmd.insertions h editing d pages).2 →
         OD.get k (MoveAllCmd.insertions h editing d pages).1 = OD.get k d.
Proof.
  revert d pages. induction editing as [|e editing IH]; intros d pages Hkeys;
    [done|].
  cbn [MoveAllCmd.insertions]. cbv zeta.
  set (tgt := page (data h (new_selection e))).
  set (d1 := if OD.mem tgt d then d else OD.set tgt [] d).
  assert (NoDup (OD.keys d1) ∧ ∀ k, k ≠ tgt → OD.get k d1 = OD.get k d)
    as [Hkeys1 Hd1].
  { unfold d1. destruct (OD.mem tgt d); [done|].
    split; [by apply ODFacts.NoDup_keys_set|].
    intros k Hk. by apply ODFacts.get_set_ne. }
  match goal with
  | |- context [MoveAllCmd.insertions h editing ?d' ?pages'] =>
      destruct (IH d' pages') as (Hkeys' & Hmono & Hother);
        [by apply ODFacts.NoDup_keys_set|]
  end.
  split_and!; [done| |].
  - intros k Hk. apply Hmono, add_page_elem. by right.
  - intros k Hk. rewrite Hother by done.
    assert (k ≠ tgt) as Hne.
    { intros ->. apply Hk, Hmono, add_page_elem. by left. }
    rewrite ODFacts.get_set_ne by done. by apply Hd1.
Qed.

Lemma apply_edit_contiguity st editing :
  NoDup (OD.keys (model st)) → contiguity st →
  NoDup (new_selection <$> editing) →
  (∀ x, x ∈ new_selection <$> editing →
        (x ∉ items (model st)) ∧ (x < length (heap st))%nat) →
  let st' := MoveAllCmd._apply_edit st editing in
  contiguity st' ∧ NoDup (OD.keys (model st'))
  ∧ length (heap st') = length (heap st)
  ∧ ∀ x, x ∈ items (model st') →
         x ∈ new_selection <$> editing ∨ x ∈ items (model st).
Proof.
  intros Hkeys Hcont Hnews Hfresh.
  pose proof (contiguity_allocated _ Hcont) as Halloc.
  pose proof (contiguity_NoDup_items _ _ Hkeys Hcont) as Hnd.
  unfold MoveAllCmd._apply_edit.
  pose proof (removals_inv (heap st) editing (model st) [] Hkeys)
    as (Hkeys1 & Hsub1 & _ & Hother1).
  destruct (MoveAllCmd.removals (heap st) editing (model st) [])
    as [d1 pages1]. simpl in *.
  pose proof (insertions_inv (heap st) editing d1 pages1 Hkeys1)
    as (Hkeys2 & Hmono2 & Hother2).
  pose proof (insertions_spec (heap st) editing d1 pages1) as Hperm.
  destruct (MoveAllCmd.insertions (heap st) editing d1 pages1)
    as [d2 pages2]. simpl in *.
  destruct (foldl_update_page_indexes_spec (State (heap st) d2) pages2)
    as [_ Hmodel].
  assert (NoDup (items d2)) as Hnd2.
  { rewrite Hperm. apply NoDup_app. split_and!; [done| |].
    - intros x Hx Hin. destruct (Hfresh x Hx) as [Hnotin _]. apply Hnotin.
      by eapply elem_of_sublist.
    - by apply (sublist_NoDup _ (items (model st))). }
  assert (Forall (λ l, (l < length (heap st))%nat) (items d2)) as Halloc2.
  { rewrite Hperm. apply Forall_app. split.
    - apply Forall_forall. intros x Hx. by apply Hfresh.
    - by eapply Forall_sublist. }
  destruct (foldl_update_page_indexes_indexed (State (heap st) d2) pages2)
    as (_ & Hlen & _); [done..|].
  split_and!.
  - apply contiguity_restored; [done..|].
    intros k sels Hk Hnotin. eapply contiguity_get; [exact Hcont|].
    rewrite <-Hother1, <-Hother2; [done|done|].
    intros Hin. by apply Hnotin, Hmono2.
  - by rewrite Hmodel.
  - done.
  - rewrite Hmodel. simpl. intros x. rewrite Hperm, elem_of_app.
    intros [?|Hin]; [by left|right]. by eapply elem_of_sublist.
Qed.

Lemma compute_inverse_copies h d editing inverse :
  ∃ copies,
    (MoveAllCmd._compute_inverse h d editing inverse).1 = h ++ copies
    ∧ new_selection <$> (MoveAllCmd._compute_inverse h d editing inverse).2
      = (new_selection <$> inverse) ++ seq (length h) (length copies).
Proof.
  revert h inverse. induction editing as [|e editing IH]; intros h inverse.
  - exists []. simpl. by rewrite !(right_id_L [] (++)).
  - cbn [MoveAllCmd._compute_inverse]. cbv zeta. case_decide; [|apply IH].
    unfold copy. rewrite write_app_new.
    match goal with
    | |- context [MoveAllCmd._compute_inverse (h ++ [?c]) d editing ?inv] =>
        destruct (IH (h ++ [c]) inv) as (copies & Hheap & Hlocs);
          exists (c :: copies)
    end.
    rewrite Hheap, Hlocs, <-!(assoc_L (++)), fmap_app, <-(assoc_L (++)).
    simpl. rewrite length_app. simpl. split; [done|].
    do 3 f_equal. lia.
Qed.

(** X13. [MoveAllCmd] keeps the store contiguous: when the replacements of
    the edit list are distinct objects that are not in the store, every
    page that the command takes an item from or puts one on is re-indexed,
    so the store is contiguous after the command, and it is again after its
    undo. *)
Theorem move_keeps_contiguity st editing :
  NoDup (OD.keys (model st)) → contiguity st →
  NoDup (new_selection <$> editing) →
  (∀ x, x ∈ new_selection <$> editing →
        (x ∉ items (model st)) ∧ (x < length (heap st))%nat) →
  let c := MoveAllCmd.init st editing in
  let r := MoveAllCmd.redo c.1 editing in
  contiguity r ∧ contiguity (MoveAllCmd.undo r c.2).
Proof.
  intros Hkeys Hcont Hnews Hfresh. cbv zeta.
  pose proof (contiguity_allocated _ Hcont) as Halloc.
  unfold MoveAllCmd.init, MoveAllCmd.redo, MoveAllCmd.undo.
  destruct (compute_inverse_copies (heap st) (model st) editing [])
    as (copies & Hheap & Hlocs).
  destruct (MoveAllCmd._compute_inverse (heap st) (model st) editing [])
    as [h inverse]. simpl in *. subst h.
  assert (contiguity (State (heap st ++ copies) (model st))) as Hcont1.
  { unfold contiguity in *. simpl. eapply Forall_impl; [exact Hcont|].
    intros [k sels]. apply indexed_from_app_heap. }
  destruct (apply_edit_contiguity (State (heap st ++ copies) (model st)) editing)
    as (Hcont2 & Hkeys2 & Hlen2 & Hitems2); [done..| |].
  { simpl. intros x Hx. destruct (Hfresh x Hx). split; [done|].
    rewrite length_app. lia. }
  simpl in *. split; [done|].
  apply apply_edit_contiguity; [done|done| |].
  - rewrite Hlocs. apply NoDup_seq.
  - intros x. rewrite Hlocs. intros [Hge Hlt]%elem_of_seq. split.
    + intros [Hin|Hin]%Hitems2.
      * apply Hfresh in Hin as [_ ?]. lia.
      * unfold allocated in Halloc. rewrite Forall_forall in Halloc.
        apply Halloc in Hin. lia.
    + rewrite Hlen2, length_app. lia.
Qed.

Lemma move_keeps_contiguity_witness :
  contiguity
    (MoveAllCmd.undo
       (MoveAllCmd.redo (MoveAllCmd.init swap_store swap_edits).1 swap_edits)
       (MoveAllCmd.init swap_store swap_edits).2).
Proof.
  apply (move_keeps_contiguity swap_store swap_edits).
  - apply (bool_decide_unpack _). vm_compute. reflexivity.
  - apply (bool_decide_unpack _). vm_compute. reflexivity.
  - apply (bool_decide_unpack _). vm_compute. reflexivity.
  - intros x Hx. simpl in Hx. rewrite !elem_of_cons in Hx.
    destruct Hx as [->|[->|Hx]]; [| |by apply elem_of_nil in Hx];
      (split; [apply (bool_decide_unpack _); vm_compute; reflexivity|simpl; lia]).
Defined.
End contiguity_kept.

(** ** What [RemoveCmd] removes and what it re-parents *)

Section remove_effect.
Implicit Types (st : state) (h : list SelectionData) (d : list (Z * list loc))
  (value x : loc).

Lemma found_ext h h' d s :
  (∀ l, id_ (data h' l) = id_ (data h l)) → found h' d s = found h d s.
Proof. intros Hids. unfold found. by rewrite (find_selection_by_id_ext h h'). Qed.

Lemma omap_found_ext h h' d (child_ids : list string) :
  (∀ l, id_ (data h' l) = id_ (data h l)) →
  omap (found h' d) child_ids = omap (found h d) child_ids.
Proof.
  intros Hids. induction child_ids as [|s child_ids IH]; [done|].
  cbn [omap list_omap]. rewrite (found_ext h h' d s Hids).
  destruct (found h d s); [f_equal|]; apply IH.
Qed.

Lemma relink_found h d q child_ids acc :
  (RemoveCmd.relink h d q child_ids acc).2 = acc ++ omap (found h d) child_ids.
Proof.
  revert h acc. induction child_ids as [|s child_ids IH]; intros h acc; simpl.
  - by rewrite (right_id_L [] (++)).
  - unfold found at 1.
    destruct (find_selection_by_id h d s) as [[[k i] child]|]; simpl; [|apply IH].
    rewrite IH, <-(assoc_L (++)). simpl. do 2 f_equal.
    apply omap_found_ext. intros l. apply id_write_parent.
Qed.

Lemma relink_parent h d q child_ids acc x :
  (x < length h)%nat →
  (x ∈ omap (found h d) child_ids →
   parent (data (RemoveCmd.relink h d q child_ids acc).1 x) = q)
  ∧ (x ∉ omap (found h d) child_ids →
     parent (data (RemoveCmd.relink h d q child_ids acc).1 x)
     = parent (data h x)).
Proof.
  revert h acc. induction child_ids as [|s child_ids IH]; intros h acc Hx.
  - split; [by intros ?%elem_of_nil|done].
  - cbn [RemoveCmd.relink omap list_omap].
    pose proof (eq_refl : found h d s
                          = (λ r : Z * nat * loc, r.2)
                              <$> find_selection_by_id h d s) as Hf.
    destruct (find_selection_by_id h d s) as [[[k i] child]|];
      cbn [fmap option_fmap option_map snd] in Hf; rewrite Hf;
      [|by apply IH].
    destruct (IH (write (set_parent q) child h) (acc ++ [child]))
      as [IH1 IH2]; [by rewrite length_write|].
    rewrite (omap_found_ext h (write (set_parent q) child h)) in IH1, IH2
      by (intros l; apply id_write_parent).
    split.
    + intros Hin. destruct (decide (x ∈ omap (found h d) child_ids));
        [by apply IH1|].
      apply elem_of_cons in Hin as [->|?]; [|done].
      rewrite IH2 by done. by rewrite data_write_eq.
    + intros [Hne Hnotin]%not_elem_of_cons.
      rewrite IH2 by done. by rewrite data_write_ne.
Qed.

(** X12. On a store without two items of the same id, [RemoveCmd] takes
    out the selection and nothing else: the list of its page loses it, the
    key of the page is deleted if the list becomes empty, the other pages
    and the order of the keys are as before, and no item changes its
    id. *)
Theorem remove_takes_selection_out st d1 d2 k sels1 value sels2 :
  NoDup (OD.keys (model st)) → uniqueness st →
  model st = d1 ++ (k, sels1 ++ value :: sels2) :: d2 →
  let r := RemoveCmd.redo st value in
  model r.1 = (if decide (sels1 ++ sels2 = []) then d1 ++ d2
               else d1 ++ (k, sels1 ++ sels2) :: d2)
  ∧ ids r.1 = ids_of (heap st) (items d1 ++ sels1 ++ sels2 ++ items d2)
  ∧ id_ (data (heap st) value) ∉ ids r.1.
Proof.
  intros Hkeys Huniq Hmodel r.
  pose proof (remove_redo_unique st d1 d2 k sels1 value sels2 Hkeys Huniq Hmodel)
    as Hredo.
  pose proof (relink_ids (heap st) (model st) (parent (data (heap st) value))
                (children (data (heap st) value)) []) as Hids.
  assert (model r.1 = (if decide (sels1 ++ sels2 = []) then d1 ++ d2
                       else d1 ++ (k, sels1 ++ sels2) :: d2)
          ∧ ∀ x, id_ (data (heap r.1) x) = id_ (data (heap st) x))
    as [Hmodel' Hids'].
  { subst r. rewrite Hredo. destruct (decide (sels1 ++ sels2 = [])); simpl;
      (split; [done|]); intros x; by rewrite ?id_update_from. }
  assert (ids r.1 = ids_of (heap st) (items d1 ++ sels1 ++ sels2 ++ items d2))
    as Hids_r.
  { unfold ids, ids_of. rewrite Hmodel'.
    destruct (decide (sels1 ++ sels2 = [])) as [Hnil|Hne].
    - rewrite items_app. apply app_eq_nil in Hnil as [-> ->]. simpl.
      apply list_fmap_ext. intros _ x _. apply Hids'.
    - rewrite items_middle, <-(assoc_L (++)).
      apply list_fmap_ext. intros _ x _. apply Hids'. }
  split_and!; [done|done|]. rewrite Hids_r.
  intros (x & Hid & Hx)%list_elem_of_fmap.
  apply (unique_split (heap st) d1 d2 sels1 value sels2 k) in Hx; [done|].
  by rewrite <-Hmodel.
Qed.

Lemma remove_takes_selection_out_witness :
  model (RemoveCmd.redo family 0%nat).1 = [(1, [1%nat]); (2, [2%nat])]
  ∧ ids (RemoveCmd.redo family 0%nat).1 = ["B"; "C"].
Proof.
  destruct (remove_takes_selection_out family [] [(2, [2%nat])] 1 [] 0%nat [1%nat])
    as (Hmodel & Hids & _).
  - apply (bool_decide_unpack _). vm_compute. reflexivity.
  - apply (bool_decide_unpack _). vm_compute. reflexivity.
  - reflexivity.
  - split; [exact Hmodel|exact Hids].
Defined.

(** X14. [RemoveCmd] re-parents the children that the selection lists:
    the items it returns are, in the order of the list, the items found
    for the listed ids, the ids without item being skipped; each of them
    gets the parent of the selection, and no other item of the heap gets
    another parent. *)
Theorem remove_reparents_listed_children st value :
  let r := RemoveCmd.redo st value in
  r.2 = omap (found (heap st) (model st)) (children (data (heap st) value))
  ∧ ∀ x, (x < length (heap st))%nat →
         parent (data (heap r.1) x)
         = if decide (x ∈ r.2) then parent (data (heap st) value)
           else parent (data (heap st) x).
Proof.
  intros r. subst r. unfold RemoveCmd.redo, RemoveCmd.remove_and_relink_children.
  pose proof (relink_found (heap st) (model st) (parent (data (heap st) value))
                (children (data (heap st) value)) []) as Hfound.
  pose proof (λ x, relink_parent (heap st) (model st)
                     (parent (data (heap st) value))
                     (children (data (heap st) value)) [] x) as Hparent.
  destruct (RemoveCmd.relink _ _ _ _ _) as [h relinked]. simpl in *.
  destruct (RemoveCmd.remove_scan _ _ _ _) as [d [p|]]; simpl;
    (split; [done|]); intros x Hx; rewrite ?parent_update_from, Hfound;
    destruct (Hparent x Hx); by case_decide; auto.
Qed.

Lemma remove_reparents_listed_children_witness :
  (RemoveCmd.redo family 0%nat).2 = [1%nat; 2%nat]
  ∧ parent (data (heap (RemoveCmd.redo family 0%nat).1) 2%nat) = None.
Proof.
  destruct (remove_reparents_listed_children family 0%nat) as [Hfound Hparent].
  split; [exact Hfound|]. rewrite (Hparent 2%nat); [reflexivity|simpl; lia].
Defined.
End remove_effect.

(** ** Moving one selection *)

Section move_one.
Implicit Types (st : state) (h : list SelectionData) (d : list (Z * list loc))
  (value : loc).

Lemma insert_ordered_get_eq st value o_idx st' ki :
  NoDup (OD.keys (model st)) →
  insert_ordered st value None o_idx = (st', inl ki) →
  OD.get (page (data (heap st) value)) (model st')
  = Some match OD.get (page (data (heap st) value)) (model st) with
         | Some page_items =>
             (inserted page_items (default (idx (data (heap st) value)) o_idx)
                       value).1
         | None => [value]
         end.
Proof.
  intros Hkeys Hio.
  destruct (OD.get (page (data (heap st) value)) (model st))
    as [page_items|] eqn:Hget.
  - pose proof (insert_ordered_returned st value None o_idx page_items st' ki
                  Hget Hio) as (_ & Hst' & _).
    rewrite Hst'.
    cbn [default _update_page_indexes model]. apply ODFacts.get_set_eq.
  - rewrite insert_ordered_new_key in Hio by done. injection Hio as <- _.
    cbn [default model].
    apply ODFacts.get_middle. unfold OD.keys. rewrite keys_filter_below.
    intros [? _]%list_elem_of_filter. lia.
Qed.

Lemma insert_ordered_mod_pos st value o_key o_idx l q j :
  set_idx j (set_page q (data (heap (insert_ordered st value o_key o_idx).1) l))
  = set_idx j (set_page q (data (heap st) l)).
Proof.
  destruct (insert_ordered st value o_key o_idx) as [st' [ki|e]] eqn:Hio.
  2:{ by apply insert_ordered_raises in Hio as (-> & _). }
  destruct (OD.get (default (page (data (heap st) value)) o_key) (model st))
    as [page_items|] eqn:Hget.
  - pose proof (insert_ordered_returned st value o_key o_idx page_items st' ki
                  Hget Hio) as (_ & Hst' & _).
    rewrite Hst'.
    cbn [fst _update_page_indexes heap]. apply update_from_mod_pos.
  - unfold insert_ordered in Hio. rewrite Hget in Hio.
    by injection Hio as <- _.
Qed.

Lemma edit_selection_mod_pos st k i value replace l q j :
  set_idx j (set_page q (data (heap (EditCmd.edit_selection st k i value replace)) l))
  = set_idx j (set_page q (data (heap st) l)).
Proof.
  unfold EditCmd.edit_selection.
  assert (∀ d1,
            set_idx j (set_page q (data (heap
              match insert_ordered (State (heap st) d1) value None None with
              | (st1, inl _) =>
                  let target_key := page (data (heap st1) value) in
                  let st2 := _update_page_indexes st1 target_key in
                  if decide (target_key ≠ k)
                  then _update_page_indexes st2 k else st2
              | (st1, inr _) => st1
              end) l))
            = set_idx j (set_page q (data (heap st) l))) as Hins.
  { intros d1.
    pose proof (insert_ordered_mod_pos (State (heap st) d1) value None None
                  l q j) as Hio.
    destruct (insert_ordered (State (heap st) d1) value None None)
      as [st1 [ki|e]]; [|done].
    cbv zeta. destruct (decide _); simpl; by rewrite !update_from_mod_pos. }
  destruct replace; [|apply Hins].
  destruct (OD.get k (model st)) as [page_items|]; [|done]. simpl.
  destruct (PyList.pop page_items i) as [page_items'|]; [|done]. apply Hins.
Qed.

Lemma insert_ordered_other st value o_key o_idx l :
  l ∉ items (model st) → l ≠ value →
  data (heap (insert_ordered st value o_key o_idx).1) l = data (heap st) l.
Proof.
  intros Hl Hne.
  destruct (insert_ordered st value o_key o_idx) as [st' [ki|e]] eqn:Hio.
  2:{ by apply insert_ordered_raises in Hio as (-> & _). }
  destruct (OD.get (default (page (data (heap st) value)) o_key) (model st))
    as [page_items|] eqn:Hget.
  - assert (l ∉ page_items) as Hnotin.
    { intros Hin. apply Hl. apply elem_of_items. eexists _, page_items.
      split; [|done]. by eapply ODFacts.get_Some_elem. }
    pose proof (insert_ordered_returned st value o_key o_idx page_items st' ki
                  Hget Hio) as (_ & Hst' & _).
    rewrite Hst'. cbn [fst _update_page_indexes heap model].
    rewrite ODFacts.get_set_eq. cbn [default from_option id].
    apply update_from_other. rewrite inserted_perm, elem_of_cons. tauto.
  - unfold insert_ordered in Hio. rewrite Hget in Hio.
    by injection Hio as <- _.
Qed.

(** [edit_selection] leaves alone the objects that are neither in the
    store nor the replacement. *)
Lemma edit_selection_other st k i value replace l :
  NoDup (OD.keys (model st)) →
  l ∉ items (model st) → l ≠ value →
  data (heap (EditCmd.edit_selection st k i value replace)) l = data (heap st) l.
Proof.
  intros Hkeys Hl Hne. unfold EditCmd.edit_selection.
  assert (∀ d1, NoDup (OD.keys d1) → items d1 `sublist_of` items (model st) →
            data (heap
              match insert_ordered (State (heap st) d1) value None None with
              | (st1, inl _) =>
                  let target_key := page (data (heap st1) value) in
                  let st2 := _update_page_indexes st1 target_key in
                  if decide (target_key ≠ k)
                  then _update_page_indexes st2 k else st2
              | (st1, inr _) => st1
              end) l
            = data (heap st) l) as Hins.
  { intros d1 Hkeys1 Hsub.
    assert (l ∉ items d1) as Hl1 by (intros Hin; by eapply Hl, elem_of_sublist).
    pose proof (insert_ordered_other (State (heap st) d1) value None None l
                  Hl1 Hne) as Hother.
    destruct (insert_ordered (State (heap st) d1) value None None)
      as [st1 [ki|e]] eqn:Hio; [|done].
    destruct (insert_ordered_spec (State (heap st) d1) value None None st1 ki
                Hkeys1 Hio) as (_ & Hperm & _).
    cbn [heap model fst] in Hperm, Hother.
    assert (∀ key, l ∉ default [] (OD.get key (model st1))) as Hnotin.
    { intros key Hin. destruct (OD.get key (model st1)) as [sels|] eqn:Hget;
        [|by apply elem_of_nil in Hin]. simpl in Hin.
      assert (l ∈ items (model st1)) as Hin'.
      { apply elem_of_items. exists key, sels. split; [|done].
        by apply ODFacts.get_Some_elem. }
      rewrite Hperm in Hin'. apply elem_of_cons in Hin' as [?|?]; done. }
    cbv zeta.
    destruct (decide _); simpl; by rewrite !update_from_other by apply Hnotin. }
  destruct replace; [|by apply Hins].
  destruct (OD.get k (model st)) as [page_items|] eqn:Hget; [|done]. simpl.
  destruct (PyList.pop page_items i) as [page_items'|] eqn:Hpop; [|done].
  unfold PyList.pop in Hpop.
  destruct (PyList.index page_items i) as [pos|]; [|done].
  injection Hpop as <-. apply Hins.
  - destruct (decide _); [by apply ODFacts.NoDup_keys_del|
                          by apply ODFacts.NoDup_keys_set].
  - destruct (decide _); [apply items_del_sublist|].
    eapply items_set_sublist; [done|apply sublist_delete].
Qed.

Lemma edit_selection_model st k i value page_items pos :
  OD.get k (model st) = Some page_items →
  PyList.index page_items i = Some pos →
  model (EditCmd.edit_selection st k i value true)
  = model (insert_ordered
             (State (heap st)
                (if decide (delete pos page_items = [])
                 then OD.del k (model st)
                 else OD.set k (delete pos page_items) (model st)))
             value None None).1.
Proof.
  intros Hget Hpos.
  rewrite (edit_selection_resolved st k i value page_items pos) by done.
  cbv zeta.
  destruct (insert_ordered _ value None None) as [st1 [ki|e]]; [|done].
  by destruct (decide _).
Qed.

Lemma inserted_at_end (page_items : list loc) (i : Z) value :
  i < 0 ∨ Z.of_nat (length page_items) ≤ i →
  (inserted page_items i value).1 = page_items ++ [value].
Proof.
  intros Hi. unfold inserted. destruct (decide (i < 0)); [done|]. simpl.
  unfold PyList.insert_at, PyList.insert_pos. rewrite decide_False by done.
  rewrite Z.min_r, Nat2Z.id by lia. by rewrite take_ge, drop_ge.
Qed.

Lemma index_lookup {A} (l : list A) (i : Z) pos :
  PyList.index l i = Some pos → (pos < length l)%nat.
Proof.
  unfold PyList.index. intros H.
  destruct (decide (0 ≤ i < Z.of_nat (length l))); [injection H as <-; lia|].
  destruct (decide (- Z.of_nat (length l) ≤ i < 0)); [|done].
  injection H as <-. lia.
Qed.

Lemma getitem_index {A} (l : list A) (i : Z) pos :
  PyList.index l i = Some pos → PyList.getitem l i = l !! pos.
Proof. unfold PyList.getitem. by intros ->. Qed.

(** X15. [move_section] raises, with the store as it was, exactly when
    the source position does not resolve. Otherwise it pushes an [EditCmd]
    whose replacement is a fresh copy of the item found there; afterwards
    the store is contiguous, it holds the same ids as before, the item
    itself is no longer in it, and the copy, which differs from the item
    at most in [page] and [idx], is on the target page, at the end of the
    list when no target index is given. The target index, given or
    computed, is below 2^63: [list.insert] raises [OverflowError] for a
    larger one. *)
Theorem move_section_moves st p i tp ti :
  NoDup (OD.keys (model st)) → contiguity st →
  default (Z.of_nat (length (default [] (OD.get (default p tp) (model st)))))
          ti < 2 ^ 63 →
  let r := move_section st p i tp ti in
  let new := length (heap st) in
  match r.2 with
  | inr _ => r.1 = st ∧ ¬ resolves st p i
  | inl pushed =>
      pushed = PEdit new (S new)
      ∧ contiguity r.1
      ∧ ids r.1 ≡ₚ ids st
      ∧ ∃ page_items old sels,
          OD.get p (model st) = Some page_items
          ∧ PyList.getitem page_items i = Some old
          ∧ (old ∉ items (model r.1))
          ∧ (∀ q j, set_idx j (set_page q (data (heap r.1) new))
                    = set_idx j (set_page q (data (heap st) old)))
          ∧ OD.get (default p tp) (model r.1) = Some sels
          ∧ new ∈ sels
          ∧ (ti = None → ∃ rest, sels = rest ++ [new])
  end.
Proof.
  intros Hkeys Hcont Hti r new.
  pose proof (contiguity_allocated _ Hcont) as Halloc.
  pose proof (contiguity_NoDup_items _ _ Hkeys Hcont) as Hnd.
  subst r. unfold move_section.
  destruct (OD.get p (model st)) as [page_items|] eqn:Hget; simpl.
  2:{ split; [done|]. intros (page_items & Hp & _). congruence. }
  destruct (PyList.getitem page_items i) as [old|] eqn:Hold; simpl.
  2:{ split; [done|]. intros (page_items' & Hp & Hsome).
      rewrite Hget in Hp. injection Hp as <-. rewrite Hold in Hsome.
      by destruct Hsome. }
  set (target := default p tp).
  set (target_idx := match ti with
                     | Some target_idx => target_idx
                     | None => match OD.get target (model st) with
                               | Some page_items0 => Z.of_nat (length page_items0)
                               | None => 0
                               end
                     end).
  assert (target_idx < 2 ^ 63) as Hbound.
  { unfold target_idx. destruct ti as [t|]; [done|]. fold target in Hti.
    by destruct (OD.get target (model st)). }
  clear Hti.
  unfold copy. rewrite write_app_new. unfold EditCmd.redo. simpl.
  rewrite Hget, Hold. simpl. unfold copy. simpl. fold new.
  set (moved := set_idx target_idx (set_page target (data (heap st) old))).
  set (h1 := (heap st ++ [moved]) ++ [data (heap st ++ [moved]) old]).
  destruct (getitem_Some _ _ _ Hold) as [pos Hpos].
  pose proof (index_lookup _ _ _ Hpos) as Hlt.
  assert (page_items !! pos = Some old) as Hlookup
    by (by rewrite <-(getitem_index _ i)).
  assert (old ∈ page_items) as Hold_in by (by eapply list_elem_of_lookup_2).
  assert (old ∈ items (model st)) as Hold_items.
  { apply elem_of_items. exists p, page_items. split; [|done].
    by apply ODFacts.get_Some_elem. }
  assert (old < length (heap st))%nat as Hold_alloc.
  { unfold allocated in Halloc. rewrite Forall_forall in Halloc. by apply Halloc. }
  assert (∀ x, (x < length (heap st))%nat → data h1 x = data (heap st) x) as Hh1.
  { intros x Hx. unfold h1. rewrite !data_app_l; [done|done|].
    rewrite length_app. lia. }
  assert (data h1 new = moved) as Hnew.
  { unfold h1, new. rewrite data_app_l by (rewrite length_app; simpl; lia).
    apply data_app_new. }
  assert (contiguity (State h1 (model st))) as Hcont1.
  { unfold contiguity in *. simpl. eapply Forall_impl; [exact Hcont|].
    intros [k sels] Hind. unfold h1. by do 2 apply indexed_from_app_heap. }
  assert (new ∉ items (model st)) as Hfresh.
  { intros Hin. unfold allocated in Halloc. rewrite Forall_forall in Halloc.
    apply Halloc in Hin. unfold new in Hin. lia. }
  assert (length h1 = S (S (length (heap st)))) as Hlen1.
  { unfold h1. rewrite !length_app. simpl. lia. }
  assert (page (data h1 new) = target) as Hpage_new.
  { rewrite Hnew. unfold moved. by destruct (data (heap st) old). }
  assert (idx (data h1 new) = target_idx) as Hidx_new.
  { rewrite Hnew. unfold moved. by destruct (data (heap st) old). }
  set (st' := EditCmd.edit_selection (State h1 (model st)) p i new true).
  destruct (edit_selection_inserts (State h1 (model st)) p i new page_items pos)
    as [Hstable Hperm]; [done|done|done| |].
  { intros sels _. apply insertable_ssize. cbn [heap]. by rewrite Hidx_new. }
  fold st' in Hstable, Hperm. simpl in Hperm.
  assert (items (model st)
          ≡ₚ old :: items (OD.set p (delete pos page_items) (model st)))
    as Hperm0.
  { rewrite (items_set_present_perm _ _ page_items) by done.
    rewrite <-(ODFacts.set_get_id p page_items (model st)) at 1 by done.
    rewrite (items_set_present_perm _ _ page_items page_items) by done.
    rewrite (delete_Permutation page_items pos old) at 1 by done. done. }
  assert (pos_free :
            ∀ q j, set_idx j (set_page q (data (heap st') new))
                   = set_idx j (set_page q (data (heap st) old))).
  { intros q j. unfold st'. rewrite edit_selection_mod_pos. simpl.
    rewrite Hnew. unfold moved. by destruct (data (heap st) old). }
  split_and!.
  - unfold new. rewrite length_app. simpl. f_equal. lia.
  - apply edit_selection_keeps_contiguity; cbn [heap model];
      [done|done|done|lia|by rewrite Hidx_new].
  - unfold ids. rewrite Hperm, Hperm0. simpl. apply Permutation_cons.
    + pose proof (pos_free 0 0) as Hid.
      apply (f_equal id_) in Hid. by destruct (data (heap st') new),
        (data (heap st) old).
    + set (rest := items (OD.set p (delete pos page_items) (model st))).
      change (ids_of (heap st') rest ≡ₚ ids_of (heap st) rest).
      assert (ids_of (heap st') rest = ids_of (heap st) rest) as ->; [|done].
      etrans; [apply (ids_of_stable h1 (heap st'))|]; [done| |].
      * eapply Forall_sublist;
          [eapply items_set_sublist; [done|apply sublist_delete]|].
        eapply Forall_impl; [exact Halloc|]. simpl. intros x Hx. lia.
      * apply list_fmap_ext. intros _ x Hx%list_elem_of_lookup_2. f_equal.
        apply Hh1. unfold allocated in Halloc. rewrite Forall_forall in Halloc.
        apply Halloc. eapply elem_of_sublist; [exact Hx|].
        eapply items_set_sublist; [done|apply sublist_delete].
  - exists page_items, old.
    set (d1 := if decide (delete pos page_items = [])
               then OD.del p (model st)
               else OD.set p (delete pos page_items) (model st)).
    assert (NoDup (OD.keys d1)) as Hkeys1.
    { unfold d1. destruct (decide _);
        [by apply ODFacts.NoDup_keys_del|by apply ODFacts.NoDup_keys_set]. }
    assert (model st' = model (insert_ordered (State h1 d1) new None None).1)
      as Hmodel'
        by (by apply (edit_selection_model (State h1 (model st)) p i new
                        page_items pos)).
    destruct (insert_ordered_returns (State h1 d1) new None None)
      as (st1 & ki & Hio).
    { intros sels _. apply insertable_ssize. cbn [heap default].
      by rewrite Hidx_new. }
    rewrite Hio in Hmodel'. cbn [fst] in Hmodel'.
    pose proof (insert_ordered_get_eq (State h1 d1) new None st1 ki Hkeys1 Hio)
      as Hget'.
    simpl in Hget'. rewrite Hpage_new, Hidx_new, <-Hmodel' in Hget'.
    eexists. split_and!; [done|done| |done|exact Hget'| |].
    + rewrite Hperm. intros [->|Hin]%elem_of_cons; [by apply Hfresh|].
      rewrite Hperm0 in Hnd. by apply NoDup_cons in Hnd as [? _].
    + destruct (OD.get target d1) as [items1|]; [|by left].
      rewrite inserted_perm. by left.
    + intros ->. destruct (OD.get target d1) as [items1|] eqn:Hget1;
        [|by exists []].
      exists items1. apply inserted_at_end. right. unfold target_idx.
      unfold d1 in Hget1.
      destruct (decide (target = p)) as [Heq|Hne].
      * rewrite Heq in *. rewrite Hget.
        destruct (decide (delete pos page_items = [])).
        -- by rewrite ODFacts.get_del_eq in Hget1.
        -- rewrite ODFacts.get_set_eq in Hget1. injection Hget1 as <-.
           pose proof (length_delete page_items pos (mk_is_Some _ _ Hlookup)).
           lia.
      * destruct (decide (delete pos page_items = []));
          [rewrite ODFacts.get_del_ne in Hget1 by done|
           rewrite ODFacts.get_set_ne in Hget1 by done];
          rewrite Hget1; lia.
Qed.

Lemma move_section_moves_witness :
  contiguity (move_section swap_store 1 0 (Some 2) None).1
  ∧ ids (move_section swap_store 1 0 (Some 2) None).1 ≡ₚ ids swap_store.
Proof.
  assert (NoDup (OD.keys (model swap_store))) as Hkeys
    by (apply (bool_decide_unpack _); vm_compute; reflexivity).
  assert (contiguity swap_store) as Hcont
    by (apply (bool_decide_unpack _); vm_compute; reflexivity).
  assert (default
            (Z.of_nat (length (default [] (OD.get (default 1 (Some 2))
                                             (model swap_store)))))
            None < 2 ^ 63) as Hti by (vm_compute; reflexivity).
  pose proof (move_section_moves swap_store 1 0 (Some 2) None Hkeys Hcont Hti)
    as H.
  simpl in H. destruct H as (_ & Hc & Hids & _). split; [exact Hc|exact Hids].
Defined.
End move_one.

(** ** Replacing one selection *)

Section replace_one.
Implicit Types (st : state) (h : list SelectionData) (d : list (Z * list loc)).

Lemma insert_delete {A} (l : list A) (pos : nat) (x : A) :
  (pos < length l)%nat →
  take pos (delete pos l) ++ x :: drop pos (delete pos l) = <[pos := x]> l.
Proof.
  revert pos. induction l as [|a l IH]; intros [|pos] Hpos; simpl in *;
    [lia|lia|done|].
  f_equal. apply IH. lia.
Qed.

Lemma index_nonneg {A} (l : list A) (i : Z) :
  0 ≤ i < Z.of_nat (length l) → PyList.index l i = Some (Z.to_nat i).
Proof. intros Hi. unfold PyList.index. by rewrite decide_True. Qed.

(** X16. [replace_selection] replaces in place: when the replacement, an
    object that is not in the store, carries a page and a non-negative
    index at which the store holds an item, afterwards the list of that
    page holds the replacement at that index and is otherwise as before,
    the other pages are as before, and the store is contiguous. The pushed
    [EditCmd] keeps a fresh copy of the replaced item: an object that is
    not in the store and holds the data of the replaced item as it was
    before the call. *)
Theorem replace_selection_in_place st new_selection page_items :
  NoDup (OD.keys (model st)) → contiguity st →
  new_selection ∉ items (model st) →
  (new_selection < length (heap st))%nat →
  let p := page (data (heap st) new_selection) in
  let i := idx (data (heap st) new_selection) in
  OD.get p (model st) = Some page_items →
  0 ≤ i < Z.of_nat (length page_items) →
  let r := replace_selection st new_selection in
  OD.get p (model r.1) = Some (<[Z.to_nat i := new_selection]> page_items)
  ∧ (∀ k, k ≠ p → OD.get k (model r.1) = OD.get k (model st))
  ∧ contiguity r.1
  ∧ ∃ old, page_items !! Z.to_nat i = Some old
           ∧ r.2 = inl (PEdit new_selection (length (heap st)))
           ∧ (length (heap st) ∉ items (model r.1))
           ∧ data (heap r.1) (length (heap st)) = data (heap st) old.
Proof.
  intros Hkeys Hcont Hfresh Halloc p i Hget Hi r.
  pose proof (index_nonneg page_items i Hi) as Hpos.
  pose proof (index_lookup _ _ _ Hpos) as Hlt.
  destruct (lookup_lt_is_Some_2 page_items (Z.to_nat i) Hlt) as [old Hold].
  subst r. unfold replace_selection. fold p i.
  cbn [push]. unfold EditCmd.redo. rewrite Hget.
  rewrite (getitem_index _ _ _ Hpos), Hold. unfold copy. cbn [fst snd].
  set (h1 := heap st ++ [data (heap st) old]).
  assert (data h1 new_selection = data (heap st) new_selection) as Hdata
    by (by apply data_app_l).
  set (d1 := if decide (delete (Z.to_nat i) page_items = [])
             then OD.del p (model st)
             else OD.set p (delete (Z.to_nat i) page_items) (model st)).
  assert (NoDup (OD.keys d1)) as Hkeys1.
  { unfold d1. destruct (decide _);
      [by apply ODFacts.NoDup_keys_del|by apply ODFacts.NoDup_keys_set]. }
  pose proof (edit_selection_model (State h1 (model st)) p i new_selection
                page_items (Z.to_nat i) Hget Hpos) as Hmodel.
  cbn [heap model] in Hmodel. fold d1 in Hmodel.
  assert (∀ sels, OD.get p d1 = Some sels → insertable sels i) as Hins.
  { intros sels Hsels. apply insertable_position. unfold d1 in Hsels.
    destruct (decide _).
    - by rewrite ODFacts.get_del_eq in Hsels.
    - rewrite ODFacts.get_set_eq in Hsels. injection Hsels as <-.
      pose proof (length_delete page_items (Z.to_nat i) (mk_is_Some _ _ Hold)).
      lia. }
  destruct (insert_ordered_returns (State h1 d1) new_selection None None)
    as (st1 & ki & Hio).
  { cbn [heap model default]. rewrite Hdata. exact Hins. }
  pose proof (insert_ordered_get_eq (State h1 d1) new_selection None st1 ki
                Hkeys1 Hio) as Hget'.
  pose proof (insert_ordered_get_ne (State h1 d1) new_selection None None)
    as Hget_ne.
  rewrite Hio in Hmodel, Hget_ne. cbn [fst] in Hmodel, Hget_ne.
  cbn [heap model default] in Hget', Hget_ne.
  rewrite Hdata in Hget', Hget_ne. fold p i in Hget', Hget_ne.
  assert (contiguity (State h1 (model st))) as Hcont1.
  { unfold contiguity in *. cbn [heap model]. eapply Forall_impl; [exact Hcont|].
    intros [k sels]. apply indexed_from_app_heap. }
  assert (length (heap st) ∉ items (model st)) as Hcopy.
  { intros Hin. pose proof (contiguity_allocated _ Hcont) as Hall.
    unfold allocated in Hall. rewrite Forall_forall in Hall.
    apply Hall in Hin. lia. }
  split_and!.
  - rewrite Hmodel, Hget'. f_equal. unfold d1.
    destruct (decide (delete (Z.to_nat i) page_items = [])) as [Hnil|Hne].
    + rewrite ODFacts.get_del_eq by done.
      destruct page_items as [|a [|b l]]; simpl in *; [lia| |by destruct (Z.to_nat i)].
      by replace (Z.to_nat i) with 0%nat by lia.
    + rewrite ODFacts.get_set_eq. unfold inserted.
      rewrite decide_False by lia. cbn [fst]. unfold PyList.insert_at, PyList.insert_pos.
      rewrite decide_False by lia.
      pose proof (length_delete page_items (Z.to_nat i) (mk_is_Some _ _ Hold)).
      rewrite Z.min_l by lia. by apply insert_delete.
  - intros k Hk. rewrite Hmodel, Hget_ne by done.
    unfold d1. destruct (decide _);
      [by apply ODFacts.get_del_ne|by apply ODFacts.get_set_ne].
  - apply (edit_selection_resolved_contiguity (State h1 (model st)) p i
             new_selection page_items (Z.to_nat i)); cbn [heap model];
      [done|done|done| |done|done|].
    + unfold h1. rewrite length_app. lia.
    + rewrite Hdata. exact Hins.
  - exists old. split_and!; [done|done| |].
    + destruct (edit_selection_inserts (State h1 (model st)) p i new_selection
                  page_items (Z.to_nat i)) as [_ Hperm]; [done|done|done| |].
      { cbn [heap model]. rewrite Hdata. exact Hins. }
      cbn [heap model] in Hperm. rewrite Hperm.
      intros [Heq|Hin]%elem_of_cons; [lia|]. apply Hcopy.
      eapply elem_of_sublist; [exact Hin|].
      eapply items_set_sublist; [done|apply sublist_delete].
    + rewrite edit_selection_other; cbn [heap model]; [|done|done|lia].
      unfold h1. apply data_app_new.
Qed.

Lemma replace_selection_in_place_witness :
  OD.get 1 (model (replace_selection swap_store 3%nat).1)
  = Some [3%nat; 4%nat].
Proof.
  apply (replace_selection_in_place swap_store 3%nat [0%nat; 4%nat]).
  - apply (bool_decide_unpack _). vm_compute. reflexivity.
  - apply (bool_decide_unpack _). vm_compute. reflexivity.
  - apply (bool_decide_unpack _). vm_compute. reflexivity.
  - simpl. lia.
  - reflexivity.
  - simpl. lia.
Defined.
End replace_one.

(** ** Insertion followed by a lookup *)

Section insert_lookup.
Implicit Types (st : state) (h : list SelectionData) (d : list (Z * list loc))
  (value : loc).

Lemma elem_of_items_filter (P : Z * list loc → Prop) `{!∀ kv, Decision (P kv)}
    d x :
  x ∈ items (filter P d) → x ∈ items d.
Proof.
  intros (k & sels & [_ Hin]%list_elem_of_filter & Hx)%elem_of_items.
  apply elem_of_items. eauto.
Qed.

Lemma inserted_split (page_items : list loc) (i : Z) value :
  i ≤ Z.of_nat (length page_items) →
  ∃ sels1 sels2,
    (inserted page_items i value).1 = sels1 ++ value :: sels2
    ∧ page_items = sels1 ++ sels2
    ∧ length sels1 = Z.to_nat (inserted page_items i value).2.
Proof.
  intros Hi. unfold inserted. destruct (decide (i < 0)); cbn [fst snd].
  - exists page_items, []. rewrite (right_id_L [] (++)), length_app. simpl.
    split_and!; [done|done|lia].
  - exists (take (Z.to_nat i) page_items), (drop (Z.to_nat i) page_items).
    unfold PyList.insert_at, PyList.insert_pos. rewrite decide_False by done.
    rewrite Z.min_l by done. rewrite take_drop, length_take.
    split_and!; [done|done|lia].
Qed.

(** X17. What [insert_ordered] returns is where a lookup finds the
    selection: when the id of the selection is not yet in the store and
    the index to insert at does not exceed the length of the page, a
    [insert_ordered] returns a page key and an index, and a
    [find_selection_by_id] for that id on the store after the insertion
    returns the selection with that page key and that index. *)
Theorem insert_then_find st value o_idx :
  NoDup (OD.keys (model st)) →
  id_ (data (heap st) value) ∉ ids st →
  (∀ page_items,
     OD.get (page (data (heap st) value)) (model st) = Some page_items →
     default (idx (data (heap st) value)) o_idx ≤ Z.of_nat (length page_items)) →
  let r := insert_ordered st value None o_idx in
  ∃ key index,
    r.2 = inl (key, index)
    ∧ find_selection_by_id (heap r.1) (model r.1) (id_ (data (heap st) value))
      = Some (key, Z.to_nat index, value).
Proof.
  intros Hkeys Hfresh Hi r. subst r. destruct st as [h d]. cbn [heap model] in *.
  assert (∀ x, x ∈ items d → id_ (data h x) ≠ id_ (data h value)) as Hne.
  { intros x Hx Heq. apply Hfresh. unfold ids. cbn [heap model].
    rewrite <-Heq. apply list_elem_of_fmap. by exists x. }
  destruct (OD.get (page (data h value)) d) as [page_items|] eqn:Hget.
  - destruct (ODFacts.get_Some_split _ _ _ Hget) as (d1 & d2 & -> & Hk1).
    pose proof (insert_ordered_middle h d1 d2 value None o_idx page_items Hk1)
      as Hio. cbn [default] in Hio.
    rewrite Hio by (by apply insertable_position, Hi).
    cbn [fst snd heap model]. eexists _, _. split; [done|].
    destruct (inserted_split page_items (default (idx (data h value)) o_idx) value)
      as (sels1 & sels2 & Hins & Hitems & Hlen); [by apply Hi|].
    rewrite (find_selection_by_id_ext h) by (intros l; apply id_update_from).
    rewrite Hins, <-Hlen. apply find_selection_by_id_middle.
    intros x Hx. apply Hne. rewrite items_middle, Hitems.
    rewrite !elem_of_app. apply elem_of_app in Hx. tauto.
  - rewrite insert_ordered_new_key by done. cbn [fst snd heap model default].
    eexists _, _. split; [done|].
    apply (find_selection_by_id_middle h _ _ _ [] value []).
    intros x Hx. apply Hne. rewrite (right_id_L [] (++)) in Hx.
    by eapply elem_of_items_filter.
Qed.

Lemma insert_then_find_witness :
  find_selection_by_id (heap (insert_ordered orphan_store 0%nat None None).1)
    (model (insert_ordered orphan_store 0%nat None None).1) "A"
  = Some (1, 0%nat, 0%nat).
Proof.
  destruct (insert_then_find orphan_store 0%nat None)
    as (key & index & Hr & Hfind).
  - apply (bool_decide_unpack _). vm_compute. reflexivity.
  - apply (bool_decide_unpack _). vm_compute. reflexivity.
  - intros page_items [= <-]. simpl. lia.
  - injection Hr as <- <-. exact Hfind.
Defined.
End insert_lookup.

(** ** A batch of insertions followed by its undo *)

Section insert_all_undo.
Implicit Types (st : state) (h : list SelectionData) (d : list (Z * list loc))
  (value : loc).

Lemma insert_ordered_sorted st value o_key o_idx :
  StronglySorted Z.lt (OD.keys (model st)) →
  StronglySorted Z.lt (OD.keys (model (insert_ordered st value o_key o_idx).1)).
Proof.
  apply (kept_insert_ordered (λ d, StronglySorted Z.lt (OD.keys d))).
  - intros d. apply StronglySorted_lt_NoDup.
  - intros d k v Hd Hk _. by rewrite ODFacts.keys_set_present.
  - intros d k x Hd Hget%ODFacts.get_None.
    rewrite ODFacts.keys_app. unfold OD.keys in *. simpl.
    rewrite keys_filter_below, keys_filter_above.
    by apply StronglySorted_lt_splice.
Qed.

Lemma insert_ordered_page_key_presence st value o_key o_idx :
  NoDup (OD.keys (model st)) → page_key_presence st →
  page_key_presence (insert_ordered st value o_key o_idx).1.
Proof.
  intros Hkeys Hp.
  apply (kept_insert_ordered
           (λ d, NoDup (OD.keys d) ∧ Forall (λ kv : Z * list loc, kv.2 ≠ []) d));
    [by intros d [? _]| | |by split].
  - intros d k v [Hnd Hall] _ Hv. split; [by apply ODFacts.NoDup_keys_set|].
    by apply Forall_OD_set.
  - intros d k x [Hnd Hall] Hget. split; [by apply NoDup_keys_new|].
    apply Forall_app. split; [by apply Forall_filter_of|].
    constructor; [done|by apply Forall_filter_of].
Qed.

Lemma insert_undo_model st st' value o_idx :
  StronglySorted Z.lt (OD.keys (model st)) → page_key_presence st →
  (∀ page_items,
     OD.get (page (data (heap st) value)) (model st) = Some page_items →
     default (idx (data (heap st) value)) o_idx ≤ Z.of_nat (length page_items)) →
  let r := insert_ordered st value None o_idx in
  ∃ ki, r.2 = inl ki
        ∧ (model st' = model r.1 →
           (undo_insert_ordered st' ki.1 ki.2).2 = None
           ∧ model (undo_insert_ordered st' ki.1 ki.2).1 = model st).
Proof.
  intros Hs Hp Hi r. subst r. destruct st as [h d], st' as [h' d'].
  unfold page_key_presence in *. cbn [heap model] in *.
  pose proof (StronglySorted_lt_NoDup _ Hs) as Hnd.
  set (key := page (data h value)) in *.
  destruct (OD.get key d) as [page_items|] eqn:Hget.
  - destruct (ODFacts.get_Some_split _ _ _ Hget) as (d1 & d2 & -> & Hk1).
    pose proof (insert_ordered_middle h d1 d2 value None o_idx page_items) as Hio.
    cbn [default] in Hio. fold key in Hio.
    rewrite (Hio Hk1) by (by apply insertable_position, Hi). clear Hio.
    cbn [fst snd heap model]. eexists. split; [done|]. intros ->.
    cbn [fst snd].
    destruct (inserted_pop page_items (default (idx (data h value)) o_idx) value)
      as (k & Hk & Hdel); [by apply Hi|].
    rewrite (undo_insert_ordered_middle _ _ _ _ _ _ k);
      [|by rewrite ?ODFacts.keys_app in *|done].
    rewrite Hdel.
    assert (page_items ≠ []) as Hne.
    { rewrite Forall_forall in Hp. apply (Hp (key, page_items)).
      apply elem_of_app. right. left. }
    by rewrite decide_False by done.
  - pose proof (insert_ordered_new_key (State h d) value None o_idx Hnd) as Hio.
    cbn [default heap model] in Hio. fold key in Hio. rewrite (Hio Hget).
    clear Hio. cbn [fst snd heap model]. eexists. split; [done|]. intros ->.
    cbn [fst snd].
    apply ODFacts.get_None in Hget.
    assert (key ∉ OD.keys (filter (λ kv : Z * list loc, kv.1 < key) d)) as Hlo.
    { unfold OD.keys. rewrite keys_filter_below.
      intros [? _]%list_elem_of_filter. lia. }
    rewrite (undo_insert_ordered_middle _ _ _ _ _ _ 0%nat); [| |done].
    2:{ unfold OD.keys. rewrite fmap_app, fmap_cons.
        rewrite keys_filter_below, keys_filter_above. simpl.
        apply StronglySorted_lt_NoDup. by apply StronglySorted_lt_splice. }
    simpl. by rewrite sorted_partition.
Qed.

Lemma undo_loop_app st (l1 l2 : list (Z * Z)) :
  InsertAllCmd.undo_loop st (l1 ++ l2)
  = match InsertAllCmd.undo_loop st l1 with
    | (st', None) => InsertAllCmd.undo_loop st' l2
    | (st', Some e) => (st', Some e)
    end.
Proof.
  revert st. induction l1 as [|[k i] l1 IH]; intros st; [done|]. simpl.
  destruct (undo_insert_ordered st k i) as [st' [e|]]; [done|apply IH].
Qed.

Lemma redo_loop_undo_loop st values acc :
  StronglySorted Z.lt (OD.keys (model st)) → page_key_presence st →
  ∃ kis,
    (InsertAllCmd.redo_loop st values true acc).2 = inl (acc ++ kis)
    ∧ ∀ st',
        model st' = model (InsertAllCmd.redo_loop st values true acc).1 →
        (InsertAllCmd.undo_loop st' (reverse kis)).2 = None
        ∧ model (InsertAllCmd.undo_loop st' (reverse kis)).1 = model st.
Proof.
  revert st acc. induction values as [|v values IH]; intros st acc Hs Hp.
  - exists []. by rewrite (right_id_L [] (++)).
  - cbn [InsertAllCmd.redo_loop].
    pose proof (insert_ordered_sorted st v None (Some (-1)) Hs) as Hs1.
    pose proof (insert_ordered_page_key_presence st v None (Some (-1))
                  (StronglySorted_lt_NoDup _ Hs) Hp) as Hp1.
    assert (∀ page_items,
              OD.get (page (data (heap st) v)) (model st) = Some page_items →
              default (idx (data (heap st) v)) (Some (-1))
              ≤ Z.of_nat (length page_items)) as Hi.
    { intros page_items _. simpl. lia. }
    pose proof (λ st', insert_undo_model st st' v (Some (-1)) Hs Hp Hi)
      as Hstep.
    destruct (insert_ordered st v None (Some (-1))) as [st1 [ki|e]].
    2:{ destruct (Hstep st) as (ki & Hki & _). done. }
    cbn [fst snd] in *.
    destruct (IH st1 (acc ++ [ki]) Hs1 Hp1) as (kis & Hkis & Hundo).
    exists (ki :: kis). split; [by rewrite Hkis, <-(assoc_L (++))|].
    intros st' Hmodel. rewrite reverse_cons, undo_loop_app.
    destruct (Hundo st' Hmodel) as [Hnone Hmodel1].
    destruct (InsertAllCmd.undo_loop st' (reverse kis)) as [st2 e].
    cbn [fst snd] in *. subst e. cbn [InsertAllCmd.undo_loop].
    destruct ki as [k i]. cbn [fst snd] in *.
    destruct (Hstep st2) as (ki & [= <-] & Hstep2).
    destruct (Hstep2 Hmodel1) as [Hnone2 Hmodel2]. cbn [fst snd] in *.
    by destruct (undo_insert_ordered st2 k i) as [st3 [e|]].
Qed.

(** X18. [InsertAllCmd] in append mode is undone exactly: on every store
    whose keys ascend and whose pages are not empty, whatever the batch,
    also one that visits a page several times or creates pages, the undo
    the command returns the positions it recorded, and its undo at these
    positions raises nothing and gives back the dictionary as it was, keys
    and lists in order. *)
Theorem insert_all_append_undo st values :
  StronglySorted Z.lt (OD.keys (model st)) → page_key_presence st →
  let r := InsertAllCmd.redo st values true in
  ∃ keys_indexes,
    r.2 = inl keys_indexes
    ∧ let u := InsertAllCmd.undo r.1 keys_indexes in
      u.2 = None ∧ model u.1 = model st.
Proof.
  intros Hs Hp r. subst r. unfold InsertAllCmd.redo, InsertAllCmd.undo.
  destruct (redo_loop_undo_loop st values [] Hs Hp) as (kis & Hkis & Hundo).
  exists kis. split; [done|]. by apply Hundo.
Qed.

Lemma insert_all_append_undo_witness :
  ∃ keys_indexes,
    (InsertAllCmd.redo family [0%nat; 1%nat; 2%nat] true).2 = inl keys_indexes
    ∧ model (InsertAllCmd.undo
               (InsertAllCmd.redo family [0%nat; 1%nat; 2%nat] true).1
               keys_indexes).1
      = model family.
Proof.
  destruct (insert_all_append_undo family [0%nat; 1%nat; 2%nat])
    as (keys_indexes & Hr & _ & Hmodel).
  - vm_compute. repeat constructor.
  - apply (bool_decide_unpack _). vm_compute. reflexivity.
  - by exists keys_indexes.
Defined.
End insert_all_undo.

(** ** The text of the path to a selection *)

Section path_text.
Implicit Types (st : state) (id_lookup : gmap string SelectionData) (c : string).

Lemma chain_take id_lookup n m c :
  (n ≤ m)%nat → chain n id_lookup c = take n (chain m id_lookup c).
Proof.
  revert m c. induction n as [|n IH]; intros m c Hnm; [done|].
  destruct m as [|m]; [lia|]. simpl.
  destruct (next_current id_lookup c) as [p|]; [|by rewrite take_nil].
  f_equal. apply IH. lia.
Qed.

Lemma chain_head id_lookup n c :
  chain (S n) id_lookup c = c :: tail (chain (S n) id_lookup c).
Proof. done. Qed.

(** X19. The string that [get_selection_path_str] builds. For an id that
    no item of the store has, it is empty. For an id of the store whose
    chain of resolving parents does not come back to an id already seen,
    the walk ends within as many iterations as the store has ids and the
    string is the texts of the ancestors, the root first, joined by [" > "];
    with [include_last] it is followed by [" → "] and the text of the
    selection itself, also when the selection has no ancestor. *)
Theorem path_string st selection_id include_last :
  let id_lookup := build_id_lookup (heap st) (model st) in
  let ancestors := reverse (tail (chain (S (size id_lookup)) id_lookup selection_id)) in
  let path_text := join " > " ((λ n, text (id_lookup !!! n)) <$> ancestors) in
  (selection_id ∉ ids st →
   ∀ fuel, get_selection_path_str fuel st selection_id include_last = Some "")
  ∧ (selection_id ∈ ids st →
     NoDup (chain (S (size id_lookup)) id_lookup selection_id) →
     ∀ fuel, (size id_lookup ≤ fuel)%nat →
       get_selection_path_str fuel st selection_id include_last
       = Some (if include_last
               then path_text +:+ " → " +:+ text (id_lookup !!! selection_id)
               else path_text)).
Proof.
  intros id_lookup ancestors path_text.
  assert (is_Some (id_lookup !! selection_id) ↔ selection_id ∈ ids st) as Hdom.
  { unfold id_lookup, build_id_lookup, ids.
    rewrite foldl_lookup_dom, lookup_empty.
    split; [intros [[? [=]]|]; done|auto]. }
  split.
  - intros Hnotin fuel. unfold get_selection_path_str. fold id_lookup.
    rewrite decide_False; [done|]. by rewrite Hdom.
  - intros Hin Hnd fuel Hfuel. unfold get_selection_path_str. fold id_lookup.
    rewrite decide_True by (by rewrite Hdom).
    assert (length (chain (S (size id_lookup)) id_lookup selection_id)
            ≤ size id_lookup)%nat as Hlen.
    { apply keys_pigeonhole; [done|]. intros x Hx. eapply chain_keys; [|done].
      by rewrite Hdom. }
    rewrite climb_chain.
    rewrite (chain_stopped _ (S (size id_lookup)) (S fuel)) by lia.
    rewrite decide_True by lia.
    rewrite (chain_take _ fuel (S fuel)) by lia.
    rewrite (chain_stopped _ (S (size id_lookup)) (S fuel)) by lia.
    rewrite take_ge by lia. cbn [mbind option_bind app].
    rewrite chain_head, reverse_cons. fold ancestors.
    rewrite (fmap_app Some).
    change (Some <$> [selection_id]) with [Some selection_id].
    rewrite last_last, length_app. cbn [length default from_option id].
    replace (length ancestors + 1 - 1)%nat with (length ancestors) by lia.
    by rewrite take_app_length.
Qed.

Lemma path_string_witness :
  get_selection_path_str 3 chapters "s" true = Some "Report > Chapter → Section"
  ∧ get_selection_path_str 0 chapters "z" true = Some "".
Proof.
  destruct (path_string chapters "s" true) as [_ Hin].
  destruct (path_string chapters "z" true) as [Hnotin _].
  split.
  - etrans; [apply Hin|by vm_compute].
    + apply (bool_decide_unpack _). by vm_compute.
    + apply (bool_decide_unpack _). by vm_compute.
    + vm_compute. lia.
  - apply Hnotin. apply (bool_decide_unpack _). by vm_compute.
Defined.
End path_text.

(** ** What [RemoveAllCmd] removes *)

Section remove_all.
Implicit Types (st : state) (h : list SelectionData) (d : list (Z * list loc))
  (T : gset string) (pre snapshot : list loc).

Lemma page_loop_ext h h' page snapshot page_items d T removed :
  (∀ l, id_ (data h' l) = id_ (data h l)) →
  RemoveAllCmd.page_loop h' page snapshot page_items d T removed
  = RemoveAllCmd.page_loop h page snapshot page_items d T removed.
Proof.
  intros Hids. revert page_items d T removed.
  induction snapshot as [|sel snapshot IH]; intros page_items d T removed;
    [done|].
  simpl. rewrite Hids. destruct (decide _); [|apply IH].
  destruct (decide _); [done|apply IH].
Qed.

Lemma filter_ids_ext h T T' (l : list loc) :
  (∀ x, x ∈ l → id_ (data h x) ∈ T ↔ id_ (data h x) ∈ T') →
  filter (λ x, id_ (data h x) ∉ T) l = filter (λ x, id_ (data h x) ∉ T') l.
Proof.
  intros Hiff. apply list_filter_ext_in. intros x Hx. by rewrite (Hiff x Hx).
Qed.

Lemma del_set_same {V} k (v : V) (d' : list (Z * V)) :
  OD.del k (OD.set k v d') = OD.del k d'.
Proof.
  induction d' as [|[k' v'] d' IH]; simpl.
  - by rewrite decide_True.
  - destruct (decide (k = k')) as [->|Hne]; simpl.
    + by rewrite decide_True.
    + rewrite decide_False by done. by rewrite IH.
Qed.

Lemma del_del_same {V} k (d' : list (Z * V)) :
  NoDup (OD.keys d') → OD.del k (OD.del k d') = OD.del k d'.
Proof.
  intros Hnd. apply ODFacts.del_fresh. apply ODFacts.get_None.
  by apply ODFacts.get_del_eq.
Qed.

Lemma difference_nil T : T ∖ list_to_set (C := gset string) [] = T.
Proof.
  apply set_eq. intros y. rewrite elem_of_difference. simpl.
  rewrite elem_of_empty. tauto.
Qed.

Lemma difference_cons_in T (i : string) (l : list string) :
  (T ∖ {[i]}) ∖ list_to_set l = T ∖ list_to_set (i :: l).
Proof.
  apply set_eq. intros y. simpl.
  rewrite !elem_of_difference, elem_of_union, elem_of_singleton. tauto.
Qed.

Lemma difference_cons_notin T (i : string) (l : list string) :
  i ∉ T → T ∖ list_to_set (i :: l) = T ∖ list_to_set l.
Proof.
  intros Hi. apply set_eq. intros y. simpl.
  rewrite !elem_of_difference, elem_of_union, elem_of_singleton.
  split; [tauto|]. intros [Hy Hl]. split; [done|]. intros [->|?]; auto.
Qed.

Lemma difference_singleton_empty T (i x : string) :
  T ∖ {[i]} = ∅ → x ∈ T → x = i.
Proof.
  intros Hempty Hx. destruct (decide (x = i)) as [|Hne]; [done|].
  assert (x ∈ T ∖ {[i]}) as Hin
    by (rewrite elem_of_difference, elem_of_singleton; auto).
  rewrite Hempty in Hin. by apply elem_of_empty in Hin.
Qed.

Lemma difference_cons_empty T (i : string) (l : list string) :
  T ∖ {[i]} = ∅ → T ∖ list_to_set (i :: l) = ∅.
Proof.
  intros Hempty. rewrite <-difference_cons_in, Hempty.
  apply set_eq. intros y. rewrite elem_of_difference, elem_of_empty. tauto.
Qed.

Lemma page_loop_filter h page snapshot pre d T removed :
  NoDup (OD.keys d) →
  NoDup (ids_of h (pre ++ snapshot)) →
  (∀ x, x ∈ pre → id_ (data h x) ∉ T) →
  (OD.get page d = Some (pre ++ snapshot) ∧ pre ++ snapshot ≠ [])
  ∨ (pre ++ snapshot = [] ∧ OD.get page d = None) →
  let kept := pre ++ filter (λ x, id_ (data h x) ∉ T) snapshot in
  let d_out := if decide (kept = []) then OD.del page d
               else OD.set page kept d in
  match RemoveAllCmd.page_loop h page snapshot (pre ++ snapshot) d T removed with
  | inl d' => d' = d_out ∧ T ∖ list_to_set (ids_of h snapshot) = ∅
  | inr (d', T', _) => d' = d_out ∧ T' = T ∖ list_to_set (ids_of h snapshot)
  end.
Proof.
  revert pre d T removed.
  induction snapshot as [|sel snapshot IH]; intros pre d T removed Hkeys Hnd Hpre Hpage.
  - simpl. rewrite filter_nil. rewrite !(right_id_L [] (++)) in *.
    split; [|by rewrite difference_nil].
    destruct Hpage as [[Hget Hne]|[-> Hget]].
    + rewrite decide_False by done. by rewrite ODFacts.set_get_id.
    + rewrite decide_True by done. symmetry. apply ODFacts.del_fresh.
      by apply ODFacts.get_None.
  - cbn [RemoveAllCmd.page_loop]. cbv zeta.
    assert ((sel ∉ pre)
            ∧ ∀ x, x ∈ snapshot → id_ (data h x) ≠ id_ (data h sel))
      as [Hsel Hrest].
    { unfold ids_of in Hnd. rewrite fmap_app, fmap_cons in Hnd.
      apply NoDup_app in Hnd as (_ & Hdisj & [Hnotin _]%NoDup_cons). split.
      - intros Hin. apply (Hdisj (id_ (data h sel))); [|by left].
        apply list_elem_of_fmap. by exists sel.
      - intros x Hx Heq. apply Hnotin. rewrite <-Heq.
        apply list_elem_of_fmap. by exists x. }
    assert (NoDup (ids_of h (pre ++ snapshot))) as Hnd'.
    { unfold ids_of in *. rewrite fmap_app, fmap_cons in Hnd.
      rewrite fmap_app. apply NoDup_app in Hnd as (H1 & H2 & [_ H3]%NoDup_cons).
      apply NoDup_app. split_and!; [done| |done].
      intros x Hx Hx'. apply (H2 x Hx). by right. }
    change (ids_of h (sel :: snapshot))
      with (id_ (data h sel) :: ids_of h snapshot).
    destruct (decide (id_ (data h sel) ∈ T)) as [Hin|Hnotin].
    + rewrite remove_first by done.
      rewrite (filter_cons_False (λ x, id_ (data h x) ∉ T)) by (by intros ?).
      set (d' := if decide (pre ++ snapshot = []) then OD.del page d
                 else OD.set page (pre ++ snapshot) d).
      assert (NoDup (OD.keys d')) as Hkeys'.
      { unfold d'. destruct (decide _);
          [by apply ODFacts.NoDup_keys_del|by apply ODFacts.NoDup_keys_set]. }
      assert ((OD.get page d' = Some (pre ++ snapshot) ∧ pre ++ snapshot ≠ [])
              ∨ (pre ++ snapshot = [] ∧ OD.get page d' = None)) as Hpage'.
      { unfold d'. destruct (decide (pre ++ snapshot = [])) as [Hnil|Hne].
        - right. split; [done|]. by apply ODFacts.get_del_eq.
        - left. split; [apply ODFacts.get_set_eq|done]. }
      assert (∀ kept, (pre ++ snapshot = [] → kept = []) →
                (if decide (kept = []) then OD.del page d'
                 else OD.set page kept d')
                = (if decide (kept = []) then OD.del page d
                   else OD.set page kept d)) as Hout.
      { intros kept Hkept. unfold d'.
        destruct (decide (pre ++ snapshot = [])) as [Hnil|Hne];
          destruct (decide (kept = [])) as [Hk|Hk].
        - by apply del_del_same.
        - by destruct Hk; apply Hkept.
        - apply del_set_same.
        - apply ODFacts.set_set_eq. }
      assert (pre ++ snapshot = [] →
              pre ++ filter (λ x, id_ (data h x) ∉ T) snapshot = []) as Hkept.
      { by intros [-> ->]%app_eq_nil. }
      destruct (decide (size (T ∖ {[id_ (data h sel)]}) ≤ 0)%nat) as [Hsize|Hsize].
      * assert (T ∖ {[id_ (data h sel)]} = ∅) as Hempty.
        { apply leibniz_equiv, size_empty_inv. lia. }
        assert (filter (λ x, id_ (data h x) ∉ T) snapshot = snapshot) as ->.
        { apply filter_all. apply Forall_forall. intros x Hx Hx'.
          apply (Hrest x Hx). by eapply difference_singleton_empty. }
        split; [done|]. by apply difference_cons_empty.
      * assert (filter (λ x, id_ (data h x) ∉ T ∖ {[id_ (data h sel)]}) snapshot
                = filter (λ x, id_ (data h x) ∉ T) snapshot) as Hfilter.
        { apply filter_ids_ext. intros x Hx. specialize (Hrest x Hx).
          rewrite elem_of_difference, elem_of_singleton. tauto. }
        specialize (IH pre d' (T ∖ {[id_ (data h sel)]}) true Hkeys' Hnd').
        rewrite Hfilter, difference_cons_in in IH.
        destruct (RemoveAllCmd.page_loop h page snapshot (pre ++ snapshot) d'
                    (T ∖ {[id_ (data h sel)]}) true)
          as [d2|[[d2 T2] removed2]].
        -- destruct IH as [-> Hempty]; [|done|].
           { intros x Hx [? _]%elem_of_difference. by apply (Hpre x). }
           split; [|done]. by apply Hout.
        -- destruct IH as [-> ->]; [|done|].
           { intros x Hx [? _]%elem_of_difference. by apply (Hpre x). }
           split; [|done]. by apply Hout.
    + rewrite (filter_cons_True (λ x, id_ (data h x) ∉ T)) by done.
      rewrite difference_cons_notin by done.
      specialize (IH (pre ++ [sel]) d T removed Hkeys).
      rewrite <-!(assoc_L (++)) in IH. simpl in IH.
      destruct (RemoveAllCmd.page_loop h page snapshot (pre ++ sel :: snapshot) d
                  T removed) as [d2|[[d2 T2] removed2]].
      * destruct IH as [-> Hempty]; [done| |done|done].
        intros x [?|Hx]%elem_of_app; [auto|].
        by apply list_elem_of_singleton in Hx as ->.
      * destruct IH as [-> ->]; [done| |done|done].
        intros x [?|Hx]%elem_of_app; [auto|].
        by apply list_elem_of_singleton in Hx as ->.
Qed.
Lemma without_cons h T k sels d :
  without h T ((k, sels) :: d)
  = (if decide (filter (λ x, id_ (data h x) ∉ T) sels = []) then []
     else [(k, filter (λ x, id_ (data h x) ∉ T) sels)]) ++ without h T d.
Proof.
  unfold without. rewrite fmap_cons, filter_cons. simpl.
  by destruct (decide (filter (λ x, id_ (data h x) ∉ T) sels = []));
    [rewrite decide_False by (by intros []) | rewrite decide_True by done].
Qed.

Lemma without_ext h h' T T' d :
  (∀ x, x ∈ items d →
        id_ (data h x) ∈ T ↔ id_ (data h' x) ∈ T') →
  without h T d = without h' T' d.
Proof.
  induction d as [|[k sels] d IH]; intros Hiff; [done|].
  rewrite !without_cons.
  assert (filter (λ x, id_ (data h x) ∉ T) sels
          = filter (λ x, id_ (data h' x) ∉ T') sels) as ->.
  { apply list_filter_ext_in. intros x Hx. rewrite (Hiff x); [done|].
    rewrite items_cons. apply elem_of_app. by left. }
  rewrite IH; [done|]. intros x Hx. apply Hiff. rewrite items_cons.
  apply elem_of_app. by right.
Qed.

Lemma without_id h T d :
  (∀ x, x ∈ items d → id_ (data h x) ∉ T) →
  Forall (λ kv : Z * list loc, kv.2 ≠ []) d →
  without h T d = d.
Proof.
  induction d as [|[k sels] d IH]; intros Hnone Hd; [done|].
  apply Forall_cons in Hd as [Hsels Hd]. simpl in Hsels.
  rewrite without_cons.
  assert (filter (λ x, id_ (data h x) ∉ T) sels = sels) as ->.
  { apply filter_all. apply Forall_forall. intros x Hx. apply Hnone.
    rewrite items_cons. apply elem_of_app. by left. }
  rewrite decide_False by done. simpl. f_equal. apply IH; [|done].
  intros x Hx. apply Hnone. rewrite items_cons. apply elem_of_app. by right.
Qed.

Lemma pages_loop_filter st d_pre pages T :
  model st = d_pre ++ pages →
  NoDup (OD.keys (model st)) →
  Forall (λ kv : Z * list loc, kv.2 ≠ []) pages →
  NoDup (ids_of (heap st) (items pages)) →
  model (RemoveAllCmd.pages_loop st pages T)
  = d_pre ++ without (heap st) T pages.
Proof.
  revert st d_pre T.
  induction pages as [|[page page_items] pages IH];
    intros st d_pre T Hmodel Hkeys Hne Hnd.
  - simpl. by rewrite Hmodel.
  - cbn [RemoveAllCmd.pages_loop].
    apply Forall_cons in Hne as [Hpage_ne Hne]. simpl in Hpage_ne.
    assert (page ∉ OD.keys d_pre) as Hpage.
    { rewrite Hmodel, ODFacts.keys_app in Hkeys.
      apply NoDup_app in Hkeys as (_ & Hdisj & _). intros Hin.
      apply (Hdisj page Hin). by left. }
    rewrite items_cons in Hnd. unfold ids_of in Hnd. rewrite fmap_app in Hnd.
    apply NoDup_app in Hnd as (Hnd_page & Hdisj & Hnd_rest).
    pose proof (page_loop_filter (heap st) page page_items [] (model st) T false
                  Hkeys Hnd_page) as Hloop.
    cbn [app] in Hloop. cbv zeta in Hloop.
    set (kept := filter (λ x, id_ (data (heap st) x) ∉ T) page_items) in *.
    assert ((if decide (kept = []) then OD.del page (model st)
             else OD.set page kept (model st))
            = d_pre ++ (if decide (kept = []) then [] else [(page, kept)]) ++ pages)
      as Hout.
    { rewrite Hmodel. destruct (decide (kept = [])).
      - by rewrite ODFacts.del_middle.
      - by rewrite ODFacts.set_middle. }
    rewrite Hout in Hloop. rewrite without_cons. fold kept.
    assert (∀ x, x ∈ items pages →
                 id_ (data (heap st) x)
                 ∉ list_to_set (C := gset string) (ids_of (heap st) page_items))
      as Hother.
    { intros x Hx Hin. apply elem_of_list_to_set in Hin.
      apply (Hdisj _ Hin). apply list_elem_of_fmap. by exists x. }
    destruct (RemoveAllCmd.page_loop (heap st) page page_items page_items
                (model st) T false) as [d'|[[d' T'] removed]].
    + destruct Hloop as [-> Hempty];
        [by intros x ?%elem_of_nil| |].
      { left. split; [|done]. rewrite Hmodel. by apply ODFacts.get_middle. }
      cbn [model]. rewrite (without_id (heap st) T pages); [done| |done].
      intros x Hx Hin. apply (Hother x Hx).
      destruct (decide (id_ (data (heap st) x)
                        ∈ list_to_set (C := gset string)
                            (ids_of (heap st) page_items))) as [|Hn]; [done|].
      assert (id_ (data (heap st) x)
              ∈ T ∖ list_to_set (ids_of (heap st) page_items)) as Hd
        by (by apply elem_of_difference).
      rewrite Hempty in Hd. by apply elem_of_empty in Hd.
    + destruct Hloop as [-> ->];
        [by intros x ?%elem_of_nil| |].
      { left. split; [|done]. rewrite Hmodel. by apply ODFacts.get_middle. }
      set (d_out := d_pre ++ (if decide (kept = []) then [] else [(page, kept)])
                          ++ pages).
      set (st1 := if removed then _update_page_indexes (State (heap st) d_out) page
                  else State (heap st) d_out).
      assert (model st1 = d_out
              ∧ ∀ l, id_ (data (heap st1) l) = id_ (data (heap st) l))
        as [Hmodel1 Hids1].
      { unfold st1. destruct removed; [|done]. simpl. split; [done|].
        intros l. apply id_update_from. }
      rewrite (IH st1 (d_pre ++ (if decide (kept = []) then [] else [(page, kept)]))).
      * rewrite <-(assoc_L (++)). do 2 f_equal.
        apply without_ext. intros x Hx. rewrite Hids1, elem_of_difference.
        specialize (Hother x Hx). tauto.
      * by rewrite Hmodel1, <-(assoc_L (++)).
      * rewrite Hmodel1. unfold d_out. rewrite <-Hout.
        destruct (decide _);
          [by apply ODFacts.NoDup_keys_del|by apply ODFacts.NoDup_keys_set].
      * done.
      * unfold ids_of. erewrite list_fmap_ext; [exact Hnd_rest|].
        intros _ x _. apply Hids1.
Qed.

(** X20. On a store with unique ids and without empty page list,
    [RemoveAllCmd] removes exactly the items whose id is the id of one of
    the given selections: every list keeps its other items in their order,
    the key of a list that becomes empty is deleted, the other keys keep
    their order. The selections are found by their id, whatever page and
    index they carry. *)
Theorem remove_selections_filters st selections :
  NoDup (OD.keys (model st)) → page_key_presence st → uniqueness st →
  model (RemoveAllCmd.redo st selections)
  = without (heap st) (list_to_set (ids_of (heap st) selections)) (model st).
Proof.
  intros Hkeys Hne Huniq. unfold RemoveAllCmd.redo, RemoveAllCmd.remove_selections.
  by apply (pages_loop_filter st []).
Qed.

Lemma remove_selections_filters_witness :
  model (RemoveAllCmd.redo family [2%nat; 0%nat]) = [(1, [1%nat])].
Proof.
  etrans; [apply (remove_selections_filters family [2%nat; 0%nat])|by vm_compute].
  - apply (bool_decide_unpack _). vm_compute. reflexivity.
  - apply (bool_decide_unpack _). vm_compute. reflexivity.
  - apply (bool_decide_unpack _). vm_compute. reflexivity.
Defined.
End remove_all.

(** ** Categories and their names *)

Section category_names.

Lemma first_category_none (P : SelectionCategory → bool) cs :
  (∀ c, c ∈ cs → P c = false) → first_category P cs = UNKNOWN.
Proof.
  induction cs as [|c cs IH]; intros Hnone; [done|]. simpl.
  rewrite Hnone by (by left). apply IH. intros c' Hc'. apply Hnone. by right.
Qed.

(** X21. A category is read back from its name, and from each of the
    names the Unstructured library has for it: [category_form_string]
    inverts [name], [category_from_unstructured] maps every name listed in
    [unstructured_names] of a category to that category, and both return
    [UNKNOWN] for a string that is no such name. *)
Theorem category_names_read_back :
  (∀ c, category_form_string (name c) = c)
  ∧ (∀ c u, u ∈ unstructured_names c → category_from_unstructured u = c)
  ∧ (∀ s, (∀ c, s ≠ name c) → category_form_string s = UNKNOWN)
  ∧ (∀ s, (∀ c, s ∉ unstructured_names c) →
          category_from_unstructured s = UNKNOWN).
Proof.
  split_and!.
  - by intros [].
  - intros c u Hu.
    destruct c; simpl in Hu; rewrite ?elem_of_cons in Hu;
      repeat (destruct Hu as [->|Hu]; [reflexivity|]);
      by apply elem_of_nil in Hu.
  - intros s Hs. apply first_category_none. intros c _.
    apply bool_decide_eq_false. apply Hs.
  - intros s Hs. apply first_category_none. intros c _.
    apply bool_decide_eq_false. apply Hs.
Qed.

Lemma category_names_read_back_witness :
  category_from_unstructured "UncategorizedText" = UNKNOWN
  ∧ category_form_string "Title" = UNKNOWN.
Proof.
  destruct category_names_read_back as (_ & Hu & Hs & _). split.
  - apply Hu. simpl. rewrite !elem_of_cons. auto.
  - apply Hs. by intros [].
Defined.
End category_names.

(** ** An edit followed by its undo *)

Section edit_undo.
Implicit Types (st : state) (h : list SelectionData) (d : list (Z * list loc))
  (value : loc).

Lemma get_Some_key {V} k (v : V) (d : list (Z * V)) :
  OD.get k d = Some v → k ∈ OD.keys d.
Proof.
  intros Hget%ODFacts.get_Some_elem. apply list_elem_of_fmap. by exists (k, v).
Qed.

Lemma sorted_head_fresh {V} k (d : list (Z * V)) :
  Forall (Z.lt k) (OD.keys d) → OD.get k d = None.
Proof.
  intros Hlt. apply ODFacts.get_None. intros Hin.
  rewrite Forall_forall in Hlt. specialize (Hlt k Hin). lia.
Qed.

Lemma sorted_get_ext {V} (d d' : list (Z * V)) :
  StronglySorted Z.lt (OD.keys d) → StronglySorted Z.lt (OD.keys d') →
  (∀ k, OD.get k d = OD.get k d') → d = d'.
Proof.
  revert d'. induction d as [|[k v] d IH]; intros [|[k' v'] d'] Hs Hs' Hget.
  - done.
  - specialize (Hget k'). simpl in Hget. by rewrite decide_True in Hget.
  - specialize (Hget k). simpl in Hget. by rewrite decide_True in Hget.
  - change (OD.keys ((k, v) :: d)) with (k :: OD.keys d) in Hs.
    change (OD.keys ((k', v') :: d')) with (k' :: OD.keys d') in Hs'.
    apply StronglySorted_cons in Hs as [Hlt Hs].
    apply StronglySorted_cons in Hs' as [Hlt' Hs'].
    assert (k = k') as <-.
    { pose proof (Hget k) as Hk. pose proof (Hget k') as Hk'. simpl in Hk, Hk'.
      rewrite (decide_True (P := k = k)) in Hk by done.
      rewrite (decide_True (P := k' = k')) in Hk' by done.
      destruct (decide (k = k')) as [|Hne]; [done|].
      destruct (decide (k' = k)) as [|_]; [done|].
      symmetry in Hk. apply get_Some_key in Hk, Hk'.
      rewrite Forall_forall in Hlt, Hlt'.
      specialize (Hlt _ Hk'). specialize (Hlt' _ Hk). lia. }
    pose proof (Hget k) as Hk. simpl in Hk. rewrite !decide_True in Hk by done.
    injection Hk as <-. f_equal. apply IH; [done|done|].
    intros x. destruct (decide (x = k)) as [->|Hne].
    + by rewrite !sorted_head_fresh.
    + specialize (Hget x). simpl in Hget. by rewrite !decide_False in Hget.
Qed.

Lemma data_eq_of_pos (x y : SelectionData) :
  set_idx 0 (set_page 0 x) = set_idx 0 (set_page 0 y) →
  page x = page y → idx x = idx y → x = y.
Proof. destruct x, y. simpl. intros [= -> -> -> -> -> -> -> -> ->] -> ->. done. Qed.

Lemma edit_selection_get st k i value page_items pos key :
  NoDup (OD.keys (model st)) →
  OD.get k (model st) = Some page_items →
  PyList.index page_items i = Some pos →
  (∀ sels, OD.get (page (data (heap st) value))
                  (if decide (delete pos page_items = [])
                   then OD.del k (model st)
                   else OD.set k (delete pos page_items) (model st))
           = Some sels →
           insertable sels (idx (data (heap st) value))) →
  let q := page (data (heap st) value) in
  let left_on_k := if decide (delete pos page_items = []) then None
                   else Some (delete pos page_items) in
  let before_on_q := if decide (q = k) then left_on_k
                     else OD.get q (model st) in
  OD.get key (model (EditCmd.edit_selection st k i value true))
  = if decide (key = q)
    then Some match before_on_q with
              | Some l => (inserted l (idx (data (heap st) value)) value).1
              | None => [value]
              end
    else if decide (key = k) then left_on_k
    else OD.get key (model st).
Proof.
  intros Hkeys Hget Hpos Hins q left_on_k before_on_q.
  rewrite (edit_selection_model st k i value page_items pos) by done.
  set (d1 := if decide (delete pos page_items = [])
             then OD.del k (model st)
             else OD.set k (delete pos page_items) (model st)) in *.
  assert (NoDup (OD.keys d1)) as Hkeys1.
  { unfold d1. destruct (decide _);
      [by apply ODFacts.NoDup_keys_del|by apply ODFacts.NoDup_keys_set]. }
  assert (∀ key', OD.get key' d1
                  = if decide (key' = k) then left_on_k
                    else OD.get key' (model st)) as Hd1.
  { intros key'. unfold d1, left_on_k.
    destruct (decide (key' = k)) as [->|Hne];
      destruct (decide (delete pos page_items = [])).
    - by apply ODFacts.get_del_eq.
    - apply ODFacts.get_set_eq.
    - by apply ODFacts.get_del_ne.
    - by apply ODFacts.get_set_ne. }
  destruct (insert_ordered_returns (State (heap st) d1) value None None)
    as (st1 & ki & Hio); [done|].
  pose proof (insert_ordered_get_ne (State (heap st) d1) value None None)
    as Hget_ne.
  rewrite Hio in Hget_ne |- *. cbn [fst heap model default] in Hget_ne |- *.
  fold q in Hget_ne.
  destruct (decide (key = q)) as [->|Hne].
  - pose proof (insert_ordered_get_eq (State (heap st) d1) value None st1 ki
                  Hkeys1 Hio) as Hq.
    cbn [heap model default] in Hq. fold q in Hq.
    rewrite Hq, Hd1. done.
  - rewrite Hget_ne by done. apply Hd1.
Qed.

Lemma inserted_anywhere (l : list loc) (i : Z) value :
  ∃ l1 l2, (inserted l i value).1 = l1 ++ value :: l2 ∧ l = l1 ++ l2.
Proof.
  unfold inserted. destruct (decide (i < 0)); cbn [fst].
  - exists l, []. by rewrite (right_id_L [] (++)).
  - eexists _, _. split; [done|]. by rewrite take_drop.
Qed.
Lemma edit_selection_sorted st k i value replace :
  StronglySorted Z.lt (OD.keys (model st)) →
  StronglySorted Z.lt
    (OD.keys (model (EditCmd.edit_selection st k i value replace))).
Proof.
  apply (kept_edit_selection (λ d, StronglySorted Z.lt (OD.keys d))).
  - intros d. apply StronglySorted_lt_NoDup.
  - intros d k' v Hd Hk _. by rewrite ODFacts.keys_set_present.
  - intros d k' Hd. eapply StronglySorted_sublist; [|exact Hd].
    apply ODFacts.keys_del_sublist.
  - intros d k' x Hd Hget%ODFacts.get_None.
    rewrite ODFacts.keys_app. unfold OD.keys in *. simpl.
    rewrite keys_filter_below, keys_filter_above.
    by apply StronglySorted_lt_splice.
Qed.

(** Where the replacement is after [edit_selection], and what it carries. *)
Lemma edit_selection_lands st k i value page_items pos :
  NoDup (OD.keys (model st)) → contiguity st →
  value ∉ items (model st) → (value < length (heap st))%nat →
  OD.get k (model st) = Some page_items →
  PyList.index page_items i = Some pos →
  (∀ sels, OD.get (page (data (heap st) value))
                  (if decide (delete pos page_items = [])
                   then OD.del k (model st)
                   else OD.set k (delete pos page_items) (model st))
           = Some sels →
           insertable sels (idx (data (heap st) value))) →
  let st' := EditCmd.edit_selection st k i value true in
  let q := page (data (heap st) value) in
  let left_on_k := if decide (delete pos page_items = []) then None
                   else Some (delete pos page_items) in
  let before_on_q := if decide (q = k) then left_on_k
                     else OD.get q (model st) in
  ∃ l1 l2,
    default [] before_on_q = l1 ++ l2
    ∧ OD.get q (model st') = Some (l1 ++ value :: l2)
    ∧ page (data (heap st') value) = q
    ∧ idx (data (heap st') value) = Z.of_nat (length l1).
Proof.
  intros Hkeys Hcont Hfresh Hvalue Hget Hpos Hins st' q left_on_k before_on_q.
  pose proof (edit_selection_get st k i value page_items pos q Hkeys Hget Hpos
                Hins)
    as Hq. cbv zeta in Hq. fold q left_on_k before_on_q st' in Hq.
  rewrite decide_True in Hq by done.
  assert (∃ l1 l2, default [] before_on_q = l1 ++ l2
                   ∧ OD.get q (model st') = Some (l1 ++ value :: l2))
    as (l1 & l2 & Hl & Hq').
  { rewrite Hq. destruct before_on_q as [l|]; simpl.
    - destruct (inserted_anywhere l (idx (data (heap st) value)) value)
        as (l1 & l2 & -> & ->). by exists l1, l2.
    - by exists [], []. }
  exists l1, l2.
  pose proof (edit_selection_resolved_contiguity st k i value page_items pos
                Hkeys Hcont Hfresh Hvalue Hget Hpos Hins) as Hcont'.
  fold st' in Hcont'.
  destruct (indexed_from_lookup _ _ _ _ (length l1) value
              (contiguity_get _ _ _ _ Hcont' Hq')
              (list_lookup_middle _ _ _ _ eq_refl)) as [Hp Hi].
  by split_and!.
Qed.

(** Inserting at the position an item was popped from. *)
Lemma put_back (page_items : list loc) (pos : nat) (x : loc) :
  (pos < length page_items)%nat →
  match (if decide (delete pos page_items = []) then None
         else Some (delete pos page_items)) with
  | Some l => (inserted l (Z.of_nat pos) x).1
  | None => [x]
  end = <[pos := x]> page_items.
Proof.
  intros Hpos. destruct (decide (delete pos page_items = [])) as [Hnil|Hne].
  - destruct page_items as [|a [|b l]]; simpl in *; [lia| |by destruct pos].
    by replace pos with 0%nat by lia.
  - unfold inserted. rewrite decide_False by lia. cbn [fst].
    unfold PyList.insert_at, PyList.insert_pos. rewrite decide_False by lia.
    pose proof (length_delete page_items pos (lookup_lt_is_Some_2 _ _ Hpos)).
    rewrite Z.min_l by lia. rewrite Nat2Z.id. by apply insert_delete.
Qed.

Lemma indexed_from_data_eq h h' p cnt (sels sels' : list loc) :
  indexed_from h p cnt sels → indexed_from h' p cnt sels' →
  Forall2 (λ x y, set_idx 0 (set_page 0 (data h x))
                  = set_idx 0 (set_page 0 (data h' y))) sels sels' →
  data h <$> sels = data h' <$> sels'.
Proof.
  intros H1 H2 HF. revert cnt H1 H2.
  induction HF as [|x y sels sels' Hxy HF IH]; intros cnt; [done|].
  simpl. intros (Hp & Hi & Hrest) (Hp' & Hi' & Hrest').
  f_equal; [|by eapply IH].
  apply data_eq_of_pos; congruence.
Qed.

(** Two contiguous stores with the same keys and, position by position,
    items that differ at most in [page] and [idx], read the same. *)
Lemma view_eq_mod_pos st st' :
  contiguity st → contiguity st' →
  Forall2 (λ kv kv' : Z * list loc,
             kv.1 = kv'.1
             ∧ Forall2 (λ x y, set_idx 0 (set_page 0 (data (heap st) x))
                               = set_idx 0 (set_page 0 (data (heap st') y)))
                       kv.2 kv'.2)
          (model st) (model st') →
  view st = view st'.
Proof.
  unfold contiguity, view. intros Hc Hc' HF.
  induction HF as [|[k sels] [k' sels'] d d' [Hk Hs] HF IH]; [done|].
  apply Forall_cons in Hc as [Hp Hc]. apply Forall_cons in Hc' as [Hp' Hc'].
  unfold indexed_page in Hp, Hp'. simpl in Hk, Hs, Hp, Hp'. subst k'.
  rewrite !fmap_cons. cbn [fst snd]. f_equal; [|by apply IH].
  f_equal. by eapply indexed_from_data_eq.
Qed.

(** The store after the [redo] of an [EditCmd] whose position resolves:
    where the replacement is, that the copy of the replaced item is an
    object outside the store with the data of that item, and that the
    index the copy carries is a position of the list it goes back to. *)
Lemma edit_redo_geometry st k i value page_items pos old :
  NoDup (OD.keys (model st)) → contiguity st →
  value ∉ items (model st) → (value < length (heap st))%nat →
  idx (data (heap st) value) < 2 ^ 63 →
  OD.get k (model st) = Some page_items →
  PyList.index page_items i = Some pos →
  page_items !! pos = Some old →
  let n := length (heap st) in
  let q := page (data (heap st) value) in
  let st0 := State (heap st ++ [data (heap st) old]) (model st) in
  let st1 := EditCmd.edit_selection st0 k i value true in
  let left_on_k := if decide (delete pos page_items = []) then None
                   else Some (delete pos page_items) in
  let before_on_q := if decide (q = k) then left_on_k
                     else OD.get q (model st) in
  ∃ l1 l2,
    default [] before_on_q = l1 ++ l2
    ∧ OD.get q (model st1) = Some (l1 ++ value :: l2)
    ∧ page (data (heap st1) value) = q
    ∧ idx (data (heap st1) value) = Z.of_nat (length l1)
    ∧ NoDup (OD.keys (model st1)) ∧ contiguity st1
    ∧ (n ∉ items (model st1)) ∧ (n < length (heap st1))%nat
    ∧ data (heap st1) n = data (heap st) old
    ∧ page (data (heap st) old) = k
    ∧ idx (data (heap st) old) = Z.of_nat pos
    ∧ ∀ sels,
        OD.get k (if decide (delete (length l1) (l1 ++ value :: l2) = [])
                  then OD.del q (model st1)
                  else OD.set q (delete (length l1) (l1 ++ value :: l2))
                              (model st1))
        = Some sels →
        insertable sels (Z.of_nat pos).
Proof.
  intros Hkeys Hcont Hfresh Hvalue Hbound Hget Hpos Hold n q st0 st1
    left_on_k before_on_q.
  pose proof (contiguity_allocated _ Hcont) as Halloc.
  unfold allocated in Halloc. rewrite Forall_forall in Halloc.
  pose proof (index_lookup _ _ _ Hpos) as Hlt.
  set (h1 := heap st ++ [data (heap st) old]) in *.
  assert (contiguity st0) as Hcont0.
  { unfold contiguity in *. simpl. eapply Forall_impl; [exact Hcont|].
    intros [k' sels]. apply indexed_from_app_heap. }
  assert ((value < length (heap st0))%nat) as Hvalue0.
  { simpl. unfold h1. rewrite length_app. lia. }
  assert (data h1 value = data (heap st) value) as Hv by (by apply data_app_l).
  assert (data h1 n = data (heap st) old) as Hn by apply data_app_new.
  destruct (indexed_from_lookup _ _ _ _ pos old
              (contiguity_get _ _ _ _ Hcont Hget) Hold) as [Hold_page Hold_idx].
  simpl in Hold_idx.
  assert (∀ sels,
            OD.get (page (data (heap st0) value))
                   (if decide (delete pos page_items = [])
                    then OD.del k (model st0)
                    else OD.set k (delete pos page_items) (model st0))
            = Some sels →
            insertable sels (idx (data (heap st0) value))) as Hins0.
  { intros sels _. apply insertable_ssize. cbn [heap st0]. by rewrite Hv. }
  destruct (edit_selection_lands st0 k i value page_items pos
              Hkeys Hcont0 Hfresh Hvalue0 Hget Hpos Hins0)
    as (l1 & l2 & Hl & Hgetq & Hpage1 & Hidx1).
  fold st1 in Hgetq, Hpage1, Hidx1. unfold st0 in Hl, Hgetq, Hpage1.
  cbn [heap model] in Hl, Hgetq, Hpage1.
  rewrite Hv in Hl, Hgetq, Hpage1. fold q in Hl, Hgetq, Hpage1.
  fold left_on_k before_on_q in Hl.
  destruct (edit_selection_inserts st0 k i value page_items pos Hkeys Hget Hpos
              Hins0) as [[Hlen _] Hperm].
  fold st1 in Hlen, Hperm. cbn [heap model st0] in Hlen, Hperm.
  assert (NoDup (OD.keys (model st1))) as Hkeys1.
  { apply (kept_edit_selection (λ d, NoDup (OD.keys d))); try done.
    - intros. by apply ODFacts.NoDup_keys_set.
    - intros. by apply ODFacts.NoDup_keys_del.
    - intros. by apply NoDup_keys_new. }
  assert (contiguity st1) as Hcont1.
  { by apply (edit_selection_resolved_contiguity st0 k i value page_items
                pos). }
  assert (n ∉ items (model st)) as Hn_out.
  { intros Hin. specialize (Halloc _ Hin). unfold n in Halloc. lia. }
  assert (n ∉ items (model st1)) as Hn1.
  { rewrite Hperm. intros [Heq|Hin]%elem_of_cons; [unfold n in Heq; lia|].
    apply Hn_out. eapply elem_of_sublist; [exact Hin|].
    eapply items_set_sublist; [done|apply sublist_delete]. }
  assert ((n < length (heap st1))%nat) as Hn_alloc.
  { unfold h1 in Hlen. rewrite length_app in Hlen. simpl in Hlen.
    unfold n. lia. }
  assert (data (heap st1) n = data (heap st) old) as Hdata_n.
  { rewrite <-Hn. apply (edit_selection_other st0); [done|done|].
    unfold n. lia. }
  exists l1, l2. split_and!; try done.
  intros sels Hsels. apply insertable_position.
  pose proof (length_delete page_items pos (mk_is_Some _ _ Hold)) as Hdel.
  rewrite delete_middle in Hsels.
  assert (left_on_k = Some sels → Z.of_nat pos ≤ Z.of_nat (length sels))
    as Hleft.
  { unfold left_on_k. destruct (decide _); [done|]. intros [= <-]. lia. }
  destruct (decide (q = k)) as [Hqk|Hqk].
  - rewrite Hqk in Hsels. apply Hleft.
    unfold before_on_q in Hl.
    destruct (decide (l1 ++ l2 = [])) as [Hnil|Hne].
    + by rewrite ODFacts.get_del_eq in Hsels.
    + rewrite ODFacts.get_set_eq in Hsels. injection Hsels as <-.
      rewrite <-Hl. unfold left_on_k in *.
      destruct (decide (delete pos page_items = [])) as [Hd|Hd]; [|done].
      simpl in Hl. by destruct Hne.
  - apply Hleft.
    assert (OD.get k (model st1) = Some sels) as Hk1.
    { destruct (decide (l1 ++ l2 = [])).
      - by rewrite ODFacts.get_del_ne in Hsels.
      - by rewrite ODFacts.get_set_ne in Hsels. }
    pose proof (edit_selection_get st0 k i value page_items pos k
                  Hkeys Hget Hpos Hins0) as G1.
    cbv zeta in G1. fold st1 in G1. cbn [heap model st0] in G1.
    rewrite Hv in G1. fold q in G1.
    rewrite decide_False in G1 by done. rewrite decide_True in G1 by done.
    unfold left_on_k. by rewrite <-G1.
Qed.

(** X10. [EditCmd] keeps the store contiguous: when the replacement is an
    object that is not in the store and the index it carries is below 2^63
    (a larger one makes [list.insert] raise [OverflowError]), the store is
    contiguous after the command, whether the position to edit resolves
    (the page left and the page entered are both re-indexed) or not (the
    command raises and the store is as it was); so it is after the undo,
    which puts back the copy the command made. *)
Theorem edit_keeps_contiguity st k i value :
  NoDup (OD.keys (model st)) → contiguity st →
  value ∉ items (model st) → (value < length (heap st))%nat →
  idx (data (heap st) value) < 2 ^ 63 →
  contiguity (push st (Edit k i value)).1
  ∧ ∀ st' old_value,
      push st (Edit k i value) = (st', inl (PEdit value old_value)) →
      contiguity (undo st' (PEdit value old_value)).1.
Proof.
  intros Hkeys Hcont Hfresh Hvalue Hbound.
  simpl. unfold EditCmd.redo.
  destruct (OD.get k (model st)) as [page_items|] eqn:Hget; [|by split].
  destruct (PyList.getitem page_items i) as [old|] eqn:Hold; [|by split].
  destruct (getitem_Some _ _ _ Hold) as [pos Hpos].
  rewrite (getitem_index _ _ _ Hpos) in Hold.
  destruct (edit_redo_geometry st k i value page_items pos old
              Hkeys Hcont Hfresh Hvalue Hbound Hget Hpos Hold)
    as (l1 & l2 & _ & Hgetq & Hpage1 & Hidx1 & Hkeys1 & Hcont1 & Hn1
        & Hn_alloc & Hdata_n & Hold_page & Hold_idx & Hins).
  unfold copy. cbn [fst snd]. split; [done|].
  intros st' old_value [= <- <-]. unfold EditCmd.undo.
  rewrite Hpage1, Hidx1.
  apply (edit_selection_resolved_contiguity _ _ _ _ (l1 ++ value :: l2)
           (length l1)); [done|done|done|done|done| |].
  - rewrite index_nonneg, Nat2Z.id; [done|]. rewrite length_app. simpl. lia.
  - by rewrite Hdata_n, Hold_page, Hold_idx.
Qed.

Lemma edit_keeps_contiguity_witness :
  contiguity (push swap_store (Edit 1 0 2%nat)).1.
Proof.
  apply (edit_keeps_contiguity swap_store 1 0 2%nat).
  - apply (bool_decide_unpack _). vm_compute. reflexivity.
  - apply (bool_decide_unpack _). vm_compute. reflexivity.
  - apply (bool_decide_unpack _). vm_compute. reflexivity.
  - simpl. lia.
  - vm_compute. reflexivity.
Defined.

(** X22. An [EditCmd] followed by its undo gives back the store as it
    reads: on a store with ascending keys, contiguous and without empty
    page list, when the replacement is an object that is not in the store,
    the index it carries is below 2^63 and the command does not raise,
    after the undo the store holds the same page keys in the same order
    and, on every page, items with the same data in the same order. The
    item that was replaced is not put back itself: its place is taken by
    the copy that the command made of it. *)
Theorem edit_undo_restores_view st k i value :
  StronglySorted Z.lt (OD.keys (model st)) → contiguity st →
  page_key_presence st →
  value ∉ items (model st) → (value < length (heap st))%nat →
  idx (data (heap st) value) < 2 ^ 63 →
  ∀ st' old_value,
    push st (Edit k i value) = (st', inl (PEdit value old_value)) →
    view (undo st' (PEdit value old_value)).1 = view st
    ∧ (old_value ∉ items (model st))
    ∧ old_value ∈ items (model (undo st' (PEdit value old_value)).1).
Proof.
  intros Hsorted Hcont Hpres Hfresh Hvalue Hbound st' old_value.
  pose proof (StronglySorted_lt_NoDup _ Hsorted) as Hkeys.
  pose proof (contiguity_allocated _ Hcont) as Halloc.
  unfold allocated in Halloc. rewrite Forall_forall in Halloc.
  simpl. unfold EditCmd.redo.
  destruct (OD.get k (model st)) as [page_items|] eqn:Hget; [|done].
  destruct (PyList.getitem page_items i) as [old|] eqn:Hold; [|done].
  simpl. intros [= <- <-]. unfold EditCmd.undo.
  destruct (getitem_Some _ _ _ Hold) as [pos Hpos].
  rewrite (getitem_index _ _ _ Hpos) in Hold.
  pose proof (index_lookup _ _ _ Hpos) as Hlt.
  destruct (edit_redo_geometry st k i value page_items pos old
              Hkeys Hcont Hfresh Hvalue Hbound Hget Hpos Hold)
    as (l1 & l2 & Hl & Hgetq & Hpage1 & Hidx1 & Hkeys1 & Hcont1 & Hn1
        & Hn_alloc & Hdata_n & Hold_page & Hold_idx & Hins).
  set (n := length (heap st)) in *.
  set (h1 := heap st ++ [data (heap st) old]) in *.
  set (st0 := State h1 (model st)) in *.
  set (st1 := EditCmd.edit_selection st0 k i value true) in *.
  set (q := page (data (heap st) value)) in *.
  assert (data h1 value = data (heap st) value) as Hv by (by apply data_app_l).
  assert (data h1 n = data (heap st) old) as Hn by apply data_app_new.
  assert (n ∉ items (model st)) as Hn_out.
  { intros Hin. specialize (Halloc _ Hin). unfold n in Halloc. lia. }
  assert (∀ sels,
            OD.get (page (data (heap st0) value))
                   (if decide (delete pos page_items = [])
                    then OD.del k (model st0)
                    else OD.set k (delete pos page_items) (model st0))
            = Some sels →
            insertable sels (idx (data (heap st0) value))) as Hins0.
  { intros sels _. apply insertable_ssize. cbn [heap st0]. by rewrite Hv. }
  assert (∀ sels,
            OD.get (page (data (heap st1) n))
                   (if decide (delete (length l1) (l1 ++ value :: l2) = [])
                    then OD.del q (model st1)
                    else OD.set q (delete (length l1) (l1 ++ value :: l2))
                                (model st1))
            = Some sels →
            insertable sels (idx (data (heap st1) n))) as Hins1.
  { by rewrite Hdata_n, Hold_page, Hold_idx. }
  rewrite Hpage1, Hidx1.
  set (u := EditCmd.edit_selection st1 q (Z.of_nat (length l1)) n true).
  assert (PyList.index (l1 ++ value :: l2) (Z.of_nat (length l1))
          = Some (length l1)) as Hidx'.
  { rewrite index_nonneg, Nat2Z.id; [done|].
    rewrite length_app. simpl. lia. }
  assert (contiguity u) as Hcontu.
  { by apply (edit_selection_resolved_contiguity st1 q _ n
                (l1 ++ value :: l2) (length l1)). }
  (* the dictionary after the undo *)
  assert (model u = OD.set k (<[pos := n]> page_items) (model st)) as Hmodel.
  { apply sorted_get_ext.
    - by do 2 apply edit_selection_sorted.
    - rewrite ODFacts.keys_set_present; [done|by rewrite Hget].
    - intros key.
      pose proof (edit_selection_get st1 q (Z.of_nat (length l1)) n _ _ key
                    Hkeys1 Hgetq Hidx' Hins1) as G2.
      cbv zeta in G2. fold u in G2.
      rewrite delete_middle, Hdata_n, Hold_page, Hold_idx in G2.
      pose proof (λ key, edit_selection_get st0 k i value page_items pos key
                           Hkeys Hget Hpos Hins0) as G1.
      cbv zeta in G1. fold st1 in G1. unfold st0 in G1.
      cbn [heap model] in G1.
      rewrite Hv in G1. fold q in G1.
      set (lk := if decide (delete pos page_items = []) then None
                 else Some (delete pos page_items)) in *.
      assert (default [] lk = delete pos page_items) as Hlk.
      { unfold lk. by destruct (decide (delete pos page_items = [])) as [->|]. }
      rewrite G2. clear G2.
      destruct (decide (q = k)) as [Hqk|Hqk].
      + (* the replacement goes to the page it replaces on *)
        rewrite Hlk in Hl.
        assert ((if decide (l1 ++ l2 = []) then None else Some (l1 ++ l2))
                = lk) as ->.
        { unfold lk. by rewrite Hl. }
        rewrite (decide_True (P := k = q)) by done.
        destruct (decide (key = k)) as [->|Hne].
        * rewrite ODFacts.get_set_eq. f_equal. by apply put_back.
        * rewrite decide_False by congruence.
          rewrite G1, decide_False by congruence.
          rewrite decide_False by done. by rewrite ODFacts.get_set_ne.
      + rewrite (decide_False (P := k = q)) by done.
        destruct (decide (key = k)) as [->|Hne].
        * rewrite ODFacts.get_set_eq, G1, decide_False by done.
          rewrite decide_True by done. f_equal. by apply put_back.
        * rewrite ODFacts.get_set_ne by done.
          destruct (decide (key = q)) as [->|Hneq].
          -- destruct (OD.get q (model st)) as [l|] eqn:Hq; simpl in Hl.
             ++ rewrite <-Hl, decide_False; [done|].
                apply ODFacts.get_Some_elem in Hq.
                unfold page_key_presence in Hpres.
                rewrite Forall_forall in Hpres. apply (Hpres _ Hq).
             ++ by rewrite <-Hl, decide_True.
          -- rewrite G1, decide_False by done. by rewrite decide_False. }
  (* what it reads *)
  destruct (ODFacts.get_Some_split _ _ _ Hget) as (d1 & d2 & Hd & Hk1).
  assert (∀ x, x ∈ items (model st) →
               set_idx 0 (set_page 0 (data (heap u) x))
               = set_idx 0 (set_page 0 (data (heap st) x))) as Hsame.
  { intros x Hx. unfold u. rewrite edit_selection_mod_pos.
    unfold st1. rewrite edit_selection_mod_pos. simpl. unfold h1.
    rewrite data_app_l; [done|]. by apply Halloc. }
  assert (set_idx 0 (set_page 0 (data (heap u) n))
          = set_idx 0 (set_page 0 (data (heap st) old))) as Hcopy.
  { unfold u. rewrite edit_selection_mod_pos.
    unfold st1. rewrite edit_selection_mod_pos. simpl. by rewrite Hn. }
  split_and!.
  - apply view_eq_mod_pos; [done|done|].
    rewrite Hmodel, Hd, ODFacts.set_middle by done.
    assert (∀ d, items d ⊆ items (model st) →
                 Forall2 (λ kv kv' : Z * list loc,
                   kv.1 = kv'.1
                   ∧ Forall2 (λ x y, set_idx 0 (set_page 0 (data (heap u) x))
                                = set_idx 0 (set_page 0 (data (heap st) y)))
                             kv.2 kv'.2) d d) as Hdiag.
    { intros d Hsub. apply Forall_Forall2_diag, Forall_forall.
      intros [k' sels] Hin. split; [done|].
      apply Forall_Forall2_diag, Forall_forall. intros x Hx.
      apply Hsame, Hsub, elem_of_items. eauto. }
    apply Forall2_app; [|constructor; [split; [done|]|]].
    + apply Hdiag. rewrite Hd, items_middle. intros x Hx.
      apply elem_of_app. by left.
    + simpl. apply Forall2_same_length_lookup_2; [by rewrite length_insert|].
      intros p x y Hx Hy. destruct (decide (p = pos)) as [->|Hne].
      * rewrite list_lookup_insert_eq in Hx by done.
        injection Hx as <-. rewrite Hold in Hy. by injection Hy as <-.
      * rewrite list_lookup_insert_ne in Hx by done.
        rewrite Hx in Hy. injection Hy as <-. apply Hsame.
        apply elem_of_items. exists k, page_items. split.
        -- by apply ODFacts.get_Some_elem.
        -- by eapply list_elem_of_lookup_2.
    + apply Hdiag. rewrite Hd, items_middle. intros x Hx.
      rewrite !elem_of_app. auto.
  - done.
  - rewrite Hmodel, Hd, ODFacts.set_middle, items_middle by done.
    rewrite !elem_of_app. right. left.
    eapply list_elem_of_lookup_2. by apply list_lookup_insert_eq.
Qed.

Lemma edit_undo_restores_view_witness :
  view (undo (push swap_store (Edit 1 0 2%nat)).1 (PEdit 2%nat 5%nat)).1
  = view swap_store.
Proof.
  apply (edit_undo_restores_view swap_store 1 0 2%nat).
  - vm_compute. repeat constructor.
  - apply (bool_decide_unpack _). vm_compute. reflexivity.
  - apply (bool_decide_unpack _). vm_compute. reflexivity.
  - apply (bool_decide_unpack _). vm_compute. reflexivity.
  - simpl. lia.
  - vm_compute. reflexivity.
  - reflexivity.
Defined.
End edit_undo.
